(** * gortsplib: RTP payload packetization and depacketization

    A shallow embedding of three pieces of the repository:

    - [H264.rtpH264ContainsIDR] and the format [H264Format.H264], with
      [unmarshal], [FMTP] and [PTSEqualsDTS]  (pkg/formats/h264.go),
    - [Mpeg2Audio.Decode], with [Init] and [joinFragments]  (package
      rtpmpeg2audio, the RTP/MPEG-2 audio decoder),
    - [Av1.Encode], with [Init] and [randUint32]  (package rtpav1, the
      RTP/AV1 encoder),

    together with the properties of them that the design document states
    and further properties of the code: what the functions do on streams
    of packets and series of calls, when they return and when they do
    not. *)

From Stdlib Require Import ZArith List Bool Lia.
From Stdlib Require Import Strings.Byte.
Import ListNotations.
Open Scope Z_scope.

(** ** Go runtime model

    Go [int] values are lengths and differences of lengths of in-memory
    slices; they stay far from the 64-bit bounds and are modelled as [Z].
    [uint16] and [uint8] values are modelled as [Z] with the wrap-around
    written out where an operation can leave the range.  Slice expressions
    and index expressions are checked: outside the bounds the Go runtime
    panics, which the model makes an explicit outcome. *)

(** Outcome of running a piece of Go code: it returns a value, it panics
    (index or slice out of range, nil dereference), or the fuel given to a
    loop was not enough to see it return. *)
Inductive run (A : Type) : Type :=
| Done (a : A)
| Panic
| Timeout.

Arguments Done {A} a.
Arguments Panic {A}.
Arguments Timeout {A}.

Definition bind {A B : Type} (m : run A) (k : A -> run B) : run B :=
  match m with
  | Done a => k a
  | Panic => Panic
  | Timeout => Timeout
  end.

Notation "x <- m ;; k" := (bind m (fun x => k))
  (at level 61, m at next level, right associativity).

Definition len {A : Type} (l : list A) : Z := Z.of_nat (length l).

Definition b2z (b : byte) : Z := Z.of_N (Byte.to_N b).

(** [byte(z)]: conversion to [uint8], keeping the low 8 bits. *)
Definition z2b (z : Z) : byte :=
  match Byte.of_N (Z.to_N (z mod 256)) with
  | Some b => b
  | None => x00
  end.

(** [l[i]] *)
Definition index {A : Type} (l : list A) (i : Z) : run A :=
  if i <? 0 then Panic
  else match nth_error l (Z.to_nat i) with
       | Some a => Done a
       | None => Panic
       end.

(** [l[lo:]] *)
Definition sliceFrom {A : Type} (l : list A) (lo : Z) : run (list A) :=
  if (lo <? 0) || (len l <? lo) then Panic
  else Done (skipn (Z.to_nat lo) l).

(** [l[:hi]].  Go allows [hi] up to the capacity of the slice; the model is
    stricter and panics beyond the length, so that a [Done] result never
    reads bytes that were not part of the slice. *)
Definition sliceTo {A : Type} (l : list A) (hi : Z) : run (list A) :=
  if (hi <? 0) || (len l <? hi) then Panic
  else Done (firstn (Z.to_nat hi) l).

(** [uint16(hi)<<8 | uint16(lo)] *)
Definition be16 (hi lo : byte) : Z :=
  Z.lor (Z.shiftl (b2z hi) 8) (b2z lo).

(** ** The NAL classifier (pkg/formats/h264.go) *)

Module H264.

(** [h264.NALUTypeIDR] of the codec library. *)
Definition NALUTypeIDR : Z := 5.

(** [h264.NALUType(b & 0x1F)] *)
Definition naluType (b : byte) : Z := Z.land (b2z b) 0x1F.

(** The loop of the STAP-A case, [for len(payload) > 0 { ... }]; one unit of
    fuel per iteration. *)
Fixpoint stapA (fuel : nat) (payload : list byte) : run bool :=
  if 0 <? len payload then
    match fuel with
    | O => Timeout
    | S fuel' =>
        if len payload <? 2 then Done false
        else
          p0 <- index payload 0 ;;
          p1 <- index payload 1 ;;
          let size := be16 p0 p1 in
          payload <- sliceFrom payload 2 ;;
          if (size =? 0) || (len payload <? size) then Done false
          else
            nalu <- sliceTo payload size ;;
            payload <- sliceFrom payload size ;;
            n0 <- index nalu 0 ;;
            if naluType n0 =? NALUTypeIDR then Done true
            else stapA fuel' payload
    end
  else Done false.

(** [rtpH264ContainsIDR(pkt)], as a function of [pkt.Payload], the only
    field it reads.  The STAP-A loop consumes at least three bytes per
    iteration, so [length payload] iterations are more than it can use. *)
Definition rtpH264ContainsIDR (payload : list byte) : run bool :=
  if len payload =? 0 then Done false
  else
    p0 <- index payload 0 ;;
    let typ := naluType p0 in
    if typ =? NALUTypeIDR then Done true
    else if typ =? 24 then
      payload' <- sliceFrom payload 1 ;;
      stapA (length payload') payload'
    else if typ =? 28 then
      if len payload <? 2 then Done false
      else
        p1 <- index payload 1 ;;
        let start := Z.shiftr (b2z p1) 7 in
        if negb (start =? 1) then Done false
        else Done (naluType p1 =? NALUTypeIDR)
    else Done false.

(** The aggregation walk in the words of the design document: the payload
    is a sequence of entries, each a 2-byte big-endian size followed by that
    many bytes; an entry is well formed when its size is not zero and does
    not exceed the remaining bytes.  [FindsIDR p] holds when the walk over
    [p] reaches, through well-formed entries only, an entry whose first byte
    has keyframe type. *)
Inductive FindsIDR : list byte -> Prop :=
| FindsHere (s0 s1 n0 : byte) (rest : list byte) :
    be16 s0 s1 <> 0 ->
    be16 s0 s1 <= len (n0 :: rest) ->
    naluType n0 = 5 ->
    FindsIDR (s0 :: s1 :: n0 :: rest)
| FindsLater (s0 s1 n0 : byte) (rest : list byte) :
    be16 s0 s1 <> 0 ->
    be16 s0 s1 <= len (n0 :: rest) ->
    naluType n0 <> 5 ->
    FindsIDR (skipn (Z.to_nat (be16 s0 s1)) (n0 :: rest)) ->
    FindsIDR (s0 :: s1 :: n0 :: rest).

(** The walk hits a bound violation before it finds a keyframe entry: fewer
    than two bytes are left for a size field, the size is zero, or the size
    exceeds the remaining bytes. *)
Inductive HitsViolation : list byte -> Prop :=
| ViolShortSize (b : byte) : HitsViolation [b]
| ViolZeroSize (s0 s1 : byte) (rest : list byte) :
    be16 s0 s1 = 0 -> HitsViolation (s0 :: s1 :: rest)
| ViolOverrun (s0 s1 : byte) (rest : list byte) :
    len rest < be16 s0 s1 -> HitsViolation (s0 :: s1 :: rest)
| ViolLater (s0 s1 n0 : byte) (rest : list byte) :
    be16 s0 s1 <> 0 ->
    be16 s0 s1 <= len (n0 :: rest) ->
    naluType n0 <> 5 ->
    HitsViolation (skipn (Z.to_nat (be16 s0 s1)) (n0 :: rest)) ->
    HitsViolation (s0 :: s1 :: n0 :: rest).

(** [contains_keyframe] in the words of the design document: the case split
    on the unit type in the low 5 bits of the first payload byte. *)
Definition containsKeyframe (payload : list byte) : Prop :=
  match payload with
  | [] => False
  | p0 :: rest =>
      if naluType p0 =? 24 then FindsIDR rest
      else if naluType p0 =? 28 then
        match rest with
        | p1 :: _ => Z.testbit (b2z p1) 7 = true /\ naluType p1 = 5
        | [] => False
        end
      else naluType p0 = 5
  end.

End H264.

(** ** Transport packets

    The fields of [rtp.Packet] that the repository reads or writes. *)

Record Packet : Type := mkPacket {
  Version : Z;
  Marker : bool;
  PayloadType : Z;
  SequenceNumber : Z;
  Timestamp : Z;
  SSRC : Z;
  Payload : list byte
}.

(** ** The H264 format (pkg/formats/h264.go)

    The struct [H264] and its methods [unmarshal], [FMTP], [PTSEqualsDTS],
    [SafeSetParams] and [SafeParams].  The model is sequential: the mutex
    of the struct is left out. *)

From Stdlib Require Strings.String Strings.Ascii DecimalString.
Import Stdlib.Strings.String.StringSyntax.
Delimit Scope string_scope with string.

Module H264Format.

Import H264.

(** The functions of the Go standard library the format calls:
    [base64.StdEncoding.DecodeString] and [EncodeToString],
    [strconv.ParseUint] and [FormatInt], [strings.Split], [Join] and
    [ToUpper], [hex.EncodeToString].  A function that returns an error in
    Go returns [None] here. *)
Class GoLibrary : Type := {
  DecodeString : String.string -> option (list byte);
  EncodeToString : list byte -> String.string;
  ParseUint : String.string -> Z -> Z -> option Z;
  FormatInt : Z -> Z -> String.string;
  Split : String.string -> String.string -> list String.string;
  Join : list String.string -> String.string -> String.string;
  hexEncodeToString : list byte -> String.string;
  ToUpper : String.string -> String.string
}.

(** The struct; a [nil] slice is [None]. *)
Record H264 : Type := mkH264 {
  PayloadTyp : Z;
  SPS : option (list byte);
  PPS : option (list byte);
  PacketizationMode : Z
}.

(** [&H264{}] *)
Definition zero : H264 := mkH264 0 None None 0.

(** The two [fmt.Errorf] call sites of [unmarshal]. *)
Inductive error : Type :=
| ErrInvalidSprop (val : String.string)
| ErrInvalidPacketizationMode (val : String.string).

(** A Go [map[string]string] is a list of entries with distinct keys; the
    order of the list is the order in which [range] visits the entries,
    which the Go runtime does not fix. *)
Definition entries : Type := list (String.string * String.string).

Section Format.

Context {lib : GoLibrary}.

(** The body of the loop of [unmarshal], for one entry: the format after
    it and the error returned from inside it, if any.  [len(tmp) >= 2] is
    the pattern [t0 :: t1 :: _], in which [tmp[0]] is [t0] and [tmp[1]] is
    [t1]. *)
Definition unmarshalEntry (f : H264) (key val : String.string)
  : H264 * option error :=
  if String.eqb key "sprop-parameter-sets"%string then
    match Split val ","%string with
    | t0 :: t1 :: _ =>
        match DecodeString t0 with
        | None => (f, Some (ErrInvalidSprop val))
        | Some sps =>
            match DecodeString t1 with
            | None => (f, Some (ErrInvalidSprop val))
            | Some pps =>
                (mkH264 (PayloadTyp f) (Some sps) (Some pps)
                        (PacketizationMode f), None)
            end
        end
    | _ => (f, None)
    end
  else if String.eqb key "packetization-mode"%string then
    match ParseUint val 10 31 with
    | None => (f, Some (ErrInvalidPacketizationMode val))
    | Some tmp => (mkH264 (PayloadTyp f) (SPS f) (PPS f) tmp, None)
    end
  else (f, None).

(** [for key, val := range fmtp { ... }] *)
Fixpoint unmarshalLoop (f : H264) (fmtp : entries) : H264 * option error :=
  match fmtp with
  | [] => (f, None)
  | (key, val) :: rest =>
      match unmarshalEntry f key val with
      | (f, None) => unmarshalLoop f rest
      | (f, Some err) => (f, Some err)
      end
  end.

(** [H264.unmarshal]: the format after the call, and the error or [nil]
    returned. *)
Definition unmarshal (f : H264) (payloadType : Z)
  (clock codec rtpmap : String.string) (fmtp : entries)
  : H264 * option error :=
  let f := mkH264 payloadType (SPS f) (PPS f) (PacketizationMode f) in
  unmarshalLoop f fmtp.

(** [fmtp[key] = val] on a map in which [key] is not set. *)
Definition put (fmtp : entries) (key val : String.string) : entries :=
  fmtp ++ [(key, val)].

(** [H264.FMTP].  The slice [tmp] is [nil] exactly when nothing was appended
    to it; [f.SPS[1:4]] is taken when [len(f.SPS) >= 4], so it is in
    range. *)
Definition FMTP (f : H264) : entries :=
  let fmtp := [] in
  let fmtp :=
    if negb (PacketizationMode f =? 0) then
      put fmtp "packetization-mode"%string (FormatInt (PacketizationMode f) 10)
    else fmtp in
  let tmp := [] in
  let tmp :=
    match SPS f with
    | Some sps => tmp ++ [EncodeToString sps]
    | None => tmp
    end in
  let tmp :=
    match PPS f with
    | Some pps => tmp ++ [EncodeToString pps]
    | None => tmp
    end in
  let fmtp :=
    match tmp with
    | [] => fmtp
    | _ => put fmtp "sprop-parameter-sets"%string (Join tmp ","%string)
    end in
  let sps := match SPS f with Some sps => sps | None => [] end in
  if 4 <=? len sps then
    put fmtp "profile-level-id"%string
        (ToUpper (hexEncodeToString (firstn 3 (skipn 1 sps))))
  else fmtp.

(** [H264.SafeSetParams] and [H264.SafeParams] *)
Definition SafeSetParams (f : H264) (sps pps : option (list byte)) : H264 :=
  mkH264 (PayloadTyp f) sps pps (PacketizationMode f).

Definition SafeParams (f : H264)
  : option (list byte) * option (list byte) :=
  (SPS f, PPS f).

End Format.

(** Two outcomes of [unmarshal] agree: both are errors, or both are [nil]
    with the same format. *)
Definition agree (r1 r2 : H264 * option error) : Prop :=
  match snd r1, snd r2 with
  | None, None => fst r1 = fst r2
  | Some _, Some _ => True
  | _, _ => False
  end.

(** [H264.PTSEqualsDTS] *)
Definition PTSEqualsDTS (f : H264) (pkt : Packet) : run bool :=
  rtpH264ContainsIDR (Payload pkt).

(** The payload the STAP-A loop of [rtpH264ContainsIDR] reads: after the
    first byte, units one after the other, each a 2-byte big-endian size
    followed by that many bytes. *)
Definition unit (nalu : list byte) : list byte :=
  [z2b (Z.shiftr (len nalu) 8); z2b (len nalu)] ++ nalu.

Definition aggregation (first : byte) (nalus : list (list byte))
  : list byte :=
  first :: concat (map unit nalus).

(** The type of the NAL unit is [NALUTypeIDR]. *)
Definition isIDR (nalu : list byte) : bool :=
  match nalu with
  | b :: _ => naluType b =? NALUTypeIDR
  | [] => false
  end.

End H264Format.

(** ** The RTP/MPEG-2 audio decoder *)

Module Mpeg2Audio.

(** [mpeg2audio.FrameHeader] of the codec library, with its [Unmarshal] and
    [FrameLen] methods.  The decoder relies on nothing else of it. *)
Class FrameCodec : Type := {
  FrameHeader : Type;
  UnmarshalError : Type;
  Unmarshal : list byte -> FrameHeader + UnmarshalError;
  FrameLen : FrameHeader -> Z
}.

(** [rtptime.Decoder]: [NewDecoder clockRate] and the method [Decode], which
    takes the 32-bit timestamp of a packet, updates the decoder and returns
    a duration. *)
Class TimeDecoding : Type := {
  TimeDecoder : Type;
  NewDecoder : Z -> TimeDecoder;
  timeDecode : TimeDecoder -> Z -> TimeDecoder * Z
}.

Section Decoder.

Context {codec : FrameCodec} {clock : TimeDecoding}.

(** The errors [Decode] returns: the two package-level values and one
    constructor for each [fmt.Errorf] call site, the error of
    [FrameHeader.Unmarshal] being passed on as it is. *)
Inductive error : Type :=
| ErrMorePacketsNeeded
| ErrNonStartingPacketAndNoPrevious
| ErrPayloadTooShort
| ErrInvalidMBZ (mbz : Z)
| ErrFrameHeader (err : UnmarshalError)
| ErrInvalidPacket
| ErrUnexpectedOffset (offset expected : Z)
| ErrFragmentTooBig.

(** What [Decode] returns: [(frames, pts, nil)] or [(nil, 0, err)]. *)
Inductive result : Type :=
| Frames (frames : list (list byte)) (pts : Z)
| Failed (err : error).

Record Decoder : Type := mkDecoder {
  timeDecoder : option TimeDecoder;
  firstPacketReceived : bool;
  fragments : list (list byte);
  fragmentsSize : Z;
  fragmentsExpected : Z
}.

(** The zero value of the struct. *)
Definition zero : Decoder := mkDecoder None false [] 0 0.

Definition Init (d : Decoder) : Decoder :=
  mkDecoder (Some (NewDecoder 90000)) (firstPacketReceived d)
            (fragments d) (fragmentsSize d) (fragmentsExpected d).

(** [d.fragments = d.fragments[:0]; d.fragmentsSize = 0] *)
Definition discard (d : Decoder) : Decoder :=
  mkDecoder (timeDecoder d) (firstPacketReceived d) [] 0 (fragmentsExpected d).

(** [copy(dst, src)]: the destination after the call and the number of
    bytes copied. *)
Definition copy (dst src : list byte) : list byte * Z :=
  let n := Z.min (len dst) (len src) in
  (firstn (Z.to_nat n) src ++ skipn (Z.to_nat n) dst, n).

(** [make([]byte, size)] *)
Definition make (size : Z) : run (list byte) :=
  if size <? 0 then Panic else Done (repeat x00 (Z.to_nat size)).

(** The loop of [joinFragments]: [n += copy(ret[n:], p)]. *)
Fixpoint joinLoop (fragments : list (list byte)) (ret : list byte) (n : Z)
  : run (list byte) :=
  match fragments with
  | [] => Done ret
  | p :: rest =>
      dst <- sliceFrom ret n ;;
      let '(dst', c) := copy dst p in
      joinLoop rest (firstn (Z.to_nat n) ret ++ dst') (n + c)
  end.

Definition joinFragments (fragments : list (list byte)) (size : Z)
  : run (list byte) :=
  ret <- make size ;;
  joinLoop fragments ret 0.

(** The [for] loop of the [offset == 0] branch.  It leaves either through
    [break], with the frames found ([inr]), or through one of the three
    [return] statements, with the error returned ([inl]). *)
Fixpoint frameLoop (fuel : nat) (d : Decoder) (buf : list byte)
  (frames : list (list byte)) : run (Decoder * (error + list (list byte))) :=
  match fuel with
  | O => Timeout
  | S fuel' =>
      match Unmarshal buf with
      | inr err => Done (d, inl (ErrFrameHeader err))
      | inl h =>
          let fl := FrameLen h in
          let bl := len buf in
          if fl <=? bl then
            frame <- sliceTo buf fl ;;
            let frames := frames ++ [frame] in
            buf <- sliceFrom buf fl ;;
            if len buf =? 0 then Done (d, inr frames)
            else frameLoop fuel' d buf frames
          else
            if negb (len frames =? 0) then Done (d, inl ErrInvalidPacket)
            else
              Done (mkDecoder (timeDecoder d) (firstPacketReceived d)
                              (fragments d ++ [buf]) bl (fl - bl),
                    inl ErrMorePacketsNeeded)
      end
  end.

(** [return frames, d.timeDecoder.Decode(pkt.Timestamp), nil] *)
Definition finish (d : Decoder) (frames : list (list byte)) (pkt : Packet)
  : run (Decoder * result) :=
  match timeDecoder d with
  | None => Panic
  | Some td =>
      let '(td', pts) := timeDecode td (Timestamp pkt) in
      Done (mkDecoder (Some td') (firstPacketReceived d) (fragments d)
                      (fragmentsSize d) (fragmentsExpected d),
            Frames frames pts)
  end.

(** [Decoder.Decode].  A frame of positive length shortens [buf] at every
    iteration of the loop, so [S (length buf)] iterations are given to it
    ([frameLoop_fuel] below shows that more would change nothing). *)
Definition Decode (d : Decoder) (pkt : Packet) : run (Decoder * result) :=
  if len (Payload pkt) <? 5 then
    Done (discard d, Failed ErrPayloadTooShort)
  else
    p0 <- index (Payload pkt) 0 ;;
    p1 <- index (Payload pkt) 1 ;;
    let mbz := be16 p0 p1 in
    if negb (mbz =? 0) then
      Done (discard d, Failed (ErrInvalidMBZ mbz))
    else
      p2 <- index (Payload pkt) 2 ;;
      p3 <- index (Payload pkt) 3 ;;
      let offset := be16 p2 p3 in
      if offset =? 0 then
        let d := mkDecoder (timeDecoder d) true [] 0 (fragmentsExpected d) in
        buf <- sliceFrom (Payload pkt) 4 ;;
        r <- frameLoop (S (length buf)) d buf [] ;;
        match r with
        | (d, inl err) => Done (d, Failed err)
        | (d, inr frames) => finish d frames pkt
        end
      else
        if negb (offset =? fragmentsSize d) then
          if negb (firstPacketReceived d) then
            Done (d, Failed ErrNonStartingPacketAndNoPrevious)
          else
            let d := discard d in
            Done (d, Failed (ErrUnexpectedOffset offset (fragmentsSize d)))
        else
          rest <- sliceFrom (Payload pkt) 4 ;;
          let bl := len rest in
          let d := mkDecoder (timeDecoder d) (firstPacketReceived d)
                             (fragments d) (fragmentsSize d + bl)
                             (fragmentsExpected d - bl) in
          if fragmentsExpected d <? 0 then
            Done (discard d, Failed ErrFragmentTooBig)
          else
            let d := mkDecoder (timeDecoder d) (firstPacketReceived d)
                               (fragments d ++ [rest]) (fragmentsSize d)
                               (fragmentsExpected d) in
            if 0 <? fragmentsExpected d then
              Done (d, Failed ErrMorePacketsNeeded)
            else
              joined <- joinFragments (fragments d) (fragmentsSize d) ;;
              finish (discard d) [joined] pkt.

(** The errors of the design document's taxonomy. *)
Definition MalformedInput (e : error) : Prop :=
  match e with
  | ErrPayloadTooShort | ErrInvalidMBZ _ | ErrFrameHeader _
  | ErrInvalidPacket => True
  | _ => False
  end.

Definition OutOfSequence (e : error) : Prop :=
  match e with ErrUnexpectedOffset _ _ => True | _ => False end.

Definition Oversize (e : error) : Prop :=
  match e with ErrFragmentTooBig => True | _ => False end.

(** The reassembly state is empty. *)
Definition empty (d : Decoder) : Prop :=
  fragments d = [] /\ fragmentsSize d = 0.

(** The invariant of the reassembly state in the words of the design
    document.  The frame whose header initiated the reassembly is the one
    that starts the first pending fragment, so its declared length is read
    from there. *)
Definition invariant (d : Decoder) : Prop :=
  empty d \/
  exists (first : list byte) (more : list (list byte)) (h : FrameHeader),
    fragments d = first :: more /\
    Unmarshal first = inl h /\
    fragmentsSize d + fragmentsExpected d = FrameLen h.

(** The flag [firstPacketReceived] is consistent with the reassembly
    state: a reassembly is in progress only after a packet of offset zero
    was received. *)
Definition started (d : Decoder) : Prop :=
  empty d \/ firstPacketReceived d = true.

End Decoder.

End Mpeg2Audio.

(** ** Streams of audio packets

    The wire format of a fragment and the caller's side of [Decode]: the
    layer above feeds the packets of a stream to the decoder in arrival
    order. *)

Module Mpeg2AudioStream.

Import Mpeg2Audio.

(** The 4 header bytes of RFC 2250: 2 reserved bytes and the fragment
    offset, big-endian. *)
Definition header (offset : Z) : list byte :=
  [x00; x00; z2b (Z.shiftr offset 8); z2b offset].

(** The offsets of the consecutive pieces of a frame, the first piece being
    at [start]. *)
Fixpoint offsets (start : Z) (chunks : list (list byte)) : list Z :=
  match chunks with
  | [] => []
  | c :: rest => start :: offsets (start + len c) rest
  end.

(** The packet [pkt] carries the piece [chunk] at [offset]. *)
Definition carries (pkt : Packet) (piece : Z * list byte) : Prop :=
  Payload pkt = header (fst piece) ++ snd piece.

Section Stream.

Context {codec : FrameCodec} {clock : TimeDecoding}.

(** [Decode] on each packet of a list in turn: the decoder after the last
    call and what each call returned. *)
Fixpoint decodeAll (d : Decoder) (pkts : list Packet)
  : run (Decoder * list result) :=
  match pkts with
  | [] => Done (d, [])
  | pkt :: rest =>
      r <- Decode d pkt ;;
      rs <- decodeAll (fst r) rest ;;
      Done (fst rs, snd r :: snd rs)
  end.

(** The buffer [concat frames ++ tail] starts with the frames of the list,
    one after the other: at the start of each frame the header parser finds
    a header that declares the length of that frame. *)
Fixpoint framedBefore (tail : list byte) (frames : list (list byte)) : Prop :=
  match frames with
  | [] => True
  | f :: rest =>
      f <> [] /\
      (exists h, Unmarshal (f ++ concat rest ++ tail) = inl h /\
                 FrameLen h = len f) /\
      framedBefore tail rest
  end.

(** The accumulated size is the number of bytes held in the pending
    fragments. *)
Definition consistent (d : Decoder) : Prop :=
  fragmentsSize d = len (concat (fragments d)).

End Stream.

End Mpeg2AudioStream.

(** ** The RTP/AV1 encoder *)

Module Av1.

(** The two functions of the codec library the encoder calls:
    [av1.ContainsKeyFrame] and [av1.LEB128Marshal]. *)
Class ObuCodec : Type := {
  KeyFrameError : Type;
  ContainsKeyFrame : list (list byte) -> bool + KeyFrameError;
  LEB128Marshal : Z -> list byte
}.

(** [rtptime.Encoder]: [NewEncoder clockRate initialTimestamp] and the
    method [Encode], from a presentation time to a 32-bit timestamp. *)
Class TimeEncoding : Type := {
  TimeEncoder : Type;
  NewEncoder : Z -> Z -> TimeEncoder;
  timeEncode : TimeEncoder -> Z -> Z
}.

Definition rtpVersion : Z := 2.

(** [randUint32], as a function of the four bytes [rand.Read] wrote. *)
Definition randUint32 (b0 b1 b2 b3 : byte) : Z :=
  Z.lor (Z.lor (Z.lor (Z.shiftl (b2z b0) 24) (Z.shiftl (b2z b1) 16))
               (Z.shiftl (b2z b2) 8))
        (b2z b3).

Section Encoder.

Context {codec : ObuCodec} {clock : TimeEncoding}.

(** The [Encoder] struct; a [nil] pointer is [None].  The field
    [PayloadType] of the struct is [EPayloadType] here, the name being taken
    by the field of the packet header. *)
Record Encoder : Type := mkEncoder {
  EPayloadType : Z;
  ESSRC : option Z;
  InitialSequenceNumber : option Z;
  InitialTimestamp : option Z;
  PayloadMaxSize : Z;
  sequenceNumber : Z;
  timeEncoder : option TimeEncoder
}.

(** [*p] *)
Definition deref {A : Type} (p : option A) : run A :=
  match p with
  | Some a => Done a
  | None => Panic
  end.

(** [Encoder.Init].  The values [randUint32()] returns are inputs of the
    model: [r1], [r2] and [r3] are the ones drawn for the SSRC, the initial
    sequence number and the initial timestamp, each used only when the field
    is not set. *)
Definition Init (r1 r2 r3 : Z) (e : Encoder) : Encoder :=
  let ssrc := match ESSRC e with Some v => v | None => r1 end in
  let isn :=
    match InitialSequenceNumber e with Some v => v | None => r2 mod 65536 end in
  let its := match InitialTimestamp e with Some v => v | None => r3 end in
  let pms := if PayloadMaxSize e =? 0 then 1460 else PayloadMaxSize e in
  mkEncoder (EPayloadType e) (Some ssrc) (Some isn) (Some its) pms
            isn (Some (NewEncoder 90000 its)).

(** The local variables of [Encode] that its loops update, and the sequence
    counter of the encoder.  [curPacket] is a pointer to the last element of
    [packets]; the model keeps that element apart, in [curPacket], and the
    elements before it in [closed]. *)
Record encState : Type := mkState {
  closed : list Packet;
  curPacket : Packet;
  curPayloadLen : Z;
  seqNum : Z
}.

(** The slice [packets] of the source. *)
Definition packets (st : encState) : list Packet :=
  closed st ++ [curPacket st].

(** [payload[0] |= mask] *)
Definition orFirst (mask : Z) (payload : list byte) : run (list byte) :=
  b <- index payload 0 ;;
  Done (z2b (Z.lor (b2z b) mask) :: tl payload).

Definition setPayload (payload : list byte) (p : Packet) : Packet :=
  mkPacket (Version p) (Marker p) (PayloadType p) (SequenceNumber p)
           (Timestamp p) (SSRC p) payload.

Definition setMarker (p : Packet) : Packet :=
  mkPacket (Version p) true (PayloadType p) (SequenceNumber p)
           (Timestamp p) (SSRC p) (Payload p).

(** [p.Payload[0] |= mask] *)
Definition orFlag (mask : Z) (p : Packet) : run Packet :=
  payload <- orFirst mask (Payload p) ;;
  Done (setPayload payload p).

(** The closure [createNewPacket], called when the packets so far are
    [pkts] and the sequence counter is [seq]. *)
Definition createNewPacket (e : Encoder) (ts : Z) (z : bool)
  (pkts : list Packet) (seq : Z) : run encState :=
  ssrc <- deref (ESSRC e) ;;
  let p := mkPacket rtpVersion false (EPayloadType e) seq ts ssrc [x00] in
  p <- (if z then orFlag (Z.shiftl 1 7) p else Done p) ;;
  Done (mkState pkts p 1 ((seq + 1) mod 65536)).

(** The closure [finalizeCurPacket]. *)
Definition finalizeCurPacket (y : bool) (st : encState) : run encState :=
  if y then
    p <- orFlag (Z.shiftl 1 6) (curPacket st) ;;
    Done (mkState (closed st) p (curPayloadLen st) (seqNum st))
  else Done st.

(** [curPacket.Payload = append(curPacket.Payload, bytes...)] *)
Definition appendPayload (bytes : list byte) (st : encState) : encState :=
  mkState (closed st)
          (setPayload (Payload (curPacket st) ++ bytes) (curPacket st))
          (curPayloadLen st) (seqNum st).

Definition addPayloadLen (n : Z) (st : encState) : encState :=
  mkState (closed st) (curPacket st) (curPayloadLen st + n) (seqNum st).

(** The inner [for] loop of [Encode], which places one OBU. *)
Fixpoint placeOBU (fuel : nat) (e : Encoder) (ts : Z) (st : encState)
  (obu : list byte) : run encState :=
  match fuel with
  | O => Timeout
  | S fuel' =>
      let avail := PayloadMaxSize e - curPayloadLen st in
      let obuLen := len obu in
      let needed := obuLen + 2 in
      if needed <=? avail then
        let le := LEB128Marshal obuLen in
        let st := appendPayload le st in
        let st := appendPayload obu st in
        Done (addPayloadLen (len le + obuLen) st)
      else
        r <- (if 2 <? avail then
                let fragmentLen := avail - 2 in
                let le := LEB128Marshal fragmentLen in
                let st := appendPayload le st in
                fragment <- sliceTo obu fragmentLen ;;
                let st := appendPayload fragment st in
                obu <- sliceFrom obu fragmentLen ;;
                Done (st, obu)
              else Done (st, obu)) ;;
        let '(st, obu) := r in
        st <- finalizeCurPacket true st ;;
        st <- createNewPacket e ts true (packets st) (seqNum st) ;;
        placeOBU fuel' e ts st obu
  end.

(** The outer loop, [for _, obu := range obus].  An iteration of the inner
    loop that does not place the whole OBU either takes a fragment of it or
    opens a packet in which the next iteration takes one, so
    [length obu + 2] iterations are given to it ([placeOBU_fuel] below shows
    that more would change nothing). *)
Fixpoint placeAll (e : Encoder) (ts : Z) (st : encState)
  (obus : list (list byte)) : run encState :=
  match obus with
  | [] => Done st
  | obu :: rest =>
      st <- placeOBU (length obu + 2) e ts st obu ;;
      placeAll e ts st rest
  end.

(** [packets[0].Payload[0] |= 1 << 3] *)
Definition flagFirst (pkts : list Packet) : run (list Packet) :=
  p <- index pkts 0 ;;
  p <- orFlag (Z.shiftl 1 3) p ;;
  Done (p :: tl pkts).

(** [packets[len(packets)-1].Marker = true] *)
Definition markLast (pkts : list Packet) : run (list Packet) :=
  p <- index pkts (len pkts - 1) ;;
  Done (removelast pkts ++ [setMarker p]).

(** [Encoder.Encode]: the encoder after the call and the packets or the
    error returned. *)
Definition Encode (e : Encoder) (obus : list (list byte)) (pts : Z)
  : run (Encoder * (list Packet + KeyFrameError)) :=
  match ContainsKeyFrame obus with
  | inr err => Done (e, inr err)
  | inl isKeyFrame =>
      te <- deref (timeEncoder e) ;;
      let ts := timeEncode te pts in
      st <- createNewPacket e ts false [] (sequenceNumber e) ;;
      st <- placeAll e ts st obus ;;
      st <- finalizeCurPacket false st ;;
      pkts <- (if isKeyFrame then flagFirst (packets st)
               else Done (packets st)) ;;
      pkts <- markLast pkts ;;
      Done (mkEncoder (EPayloadType e) (ESSRC e) (InitialSequenceNumber e)
                      (InitialTimestamp e) (PayloadMaxSize e) (seqNum st)
                      (timeEncoder e),
            inl pkts)
  end.

End Encoder.

(** The payload sizes of a list of packets. *)
Definition sizes (l : list Packet) : list Z :=
  map (fun p => len (Payload p)) l.

(** The flag byte the encoder writes at the start of a payload: bit 7
    unless the packet is the first of the call, bit 6 unless it is the last,
    bit 3 when it is the first and the OBUs hold a keyframe. *)
Definition flagByte (keyframe first last : bool) : byte :=
  z2b ((if first then 0 else 128) + (if last then 0 else 64) +
       (if keyframe && first then 8 else 0)).

End Av1.

(** ** Payloads and series of calls of the encoder

    The layout of the payloads [Encode] builds, and the caller's side of it:
    the layer above hands the temporal units of a stream to the encoder one
    after the other. *)

Module Av1Payload.

Import Av1.

Section Payload.

Context {codec : ObuCodec} {clock : TimeEncoding}.

(** An OBU element as [Encode] writes it: the bytes of [chunk] after their
    number in LEB128. *)
Definition element (chunk : list byte) : list byte :=
  LEB128Marshal (len chunk) ++ chunk.

(** The payload of [p] is one byte of flags followed by the elements of
    [chunks]. *)
Definition holds (p : Packet) (chunks : list (list byte)) : Prop :=
  exists b, Payload p = b :: concat (map element chunks).

(** [Encode] on each temporal unit of a list in turn: the encoder after the
    last call and what each call returned. *)
Fixpoint encodeAll (e : Encoder) (units : list (list (list byte) * Z))
  : run (Encoder * list (list Packet + KeyFrameError)) :=
  match units with
  | [] => Done (e, [])
  | (obus, pts) :: rest =>
      r <- Encode e obus pts ;;
      rs <- encodeAll (fst r) rest ;;
      Done (fst rs, snd r :: snd rs)
  end.

(** The packets of the calls that returned packets, in order. *)
Definition sent (rs : list (list Packet + KeyFrameError)) : list Packet :=
  concat (map (fun r => match r with inl pkts => pkts | inr _ => [] end) rs).

(** The bytes the OBUs of a list need when none is cut: two bytes are
    reserved for the size of each. *)
Definition reserved (obus : list (list byte)) : Z :=
  fold_right (fun obu n => len obu + 2 + n) 0 obus.

End Payload.

End Av1Payload.

(** ** Instances of the library interfaces

    Concrete codecs and clocks on which the models above run.  [leb128] is
    the unsigned LEB128 format; the frame codec, the keyframe test and the
    clocks are small stand-ins with the shape of the library functions. *)

Module Instances.

(** Unsigned LEB128: seven bits per byte, least significant group first,
    the top bit of a byte set when another byte follows.  A 64-bit value
    takes at most ten bytes. *)
Fixpoint leb128_from (fuel : nat) (v : Z) : list byte :=
  match fuel with
  | O => []
  | S fuel' =>
      let curbyte := Z.land v 0x7F in
      let v := Z.shiftr v 7 in
      if v <=? 0 then [z2b curbyte]
      else z2b (Z.lor curbyte 0x80) :: leb128_from fuel' v
  end.

Definition leb128 (v : Z) : list byte := leb128_from 10 v.

(** A keyframe test on the header of the first OBU: the forbidden bit must
    be clear, and an OBU of type 1 (sequence header) announces a keyframe. *)
Definition firstObuIsSequenceHeader (obus : list (list byte)) : bool + unit :=
  match obus with
  | (b :: _) :: _ =>
      if Z.testbit (b2z b) 7 then inr tt
      else inl (Z.land (Z.shiftr (b2z b) 3) 0xF =? 1)
  | _ => inr tt
  end.

Definition obuCodec : Av1.ObuCodec :=
  {| Av1.KeyFrameError := unit;
     Av1.ContainsKeyFrame := firstObuIsSequenceHeader;
     Av1.LEB128Marshal := leb128 |}.

(** A clock that adds the presentation time, in ticks, to the initial
    timestamp.  The wrap-around of the 32-bit counter is left out: the
    examples stay far below [2^32]. *)
Definition timeEncoding : Av1.TimeEncoding :=
  {| Av1.TimeEncoder := Z;
     Av1.NewEncoder := fun _ initial => initial;
     Av1.timeEncode := fun initial pts => initial + pts |}.

(** A frame codec whose header is a sync byte [0xFF] followed by the length
    of the frame, header included, as a 2-byte big-endian number of at
    least 3. *)
Definition unmarshalLength (buf : list byte) : Z + unit :=
  match buf with
  | s :: h :: l :: _ =>
      if (b2z s =? 0xFF) && (3 <=? be16 h l) then inl (be16 h l) else inr tt
  | _ => inr tt
  end.

Definition frameCodec : Mpeg2Audio.FrameCodec :=
  {| Mpeg2Audio.FrameHeader := Z;
     Mpeg2Audio.UnmarshalError := unit;
     Mpeg2Audio.Unmarshal := unmarshalLength;
     Mpeg2Audio.FrameLen := fun h => h |}.

(** A clock that remembers the first timestamp and returns the ticks since
    then.  The wrap-around of the 32-bit counter is left out as well. *)
Definition timeDecoding : Mpeg2Audio.TimeDecoding :=
  {| Mpeg2Audio.TimeDecoder := option Z;
     Mpeg2Audio.NewDecoder := fun _ => None;
     Mpeg2Audio.timeDecode := fun td ts =>
       match td with
       | None => (Some ts, 0)
       | Some first => (td, ts - first)
       end |}.

(** An audio packet with the given payload. *)
Definition audioPacket (payload : list byte) : Packet :=
  mkPacket 2 false 14 0 0 0 payload.

(** The first 100 bytes of a frame of 200 bytes, and the other 100. *)
Definition firstHalf : list byte := [xff; x00; xc8] ++ repeat x01 97.
Definition secondHalf : list byte := repeat x02 100.

(** A decoder that holds 4 bytes of a frame of 10. *)
Definition midFrame : Mpeg2Audio.Decoder (clock := timeDecoding) :=
  @Mpeg2Audio.mkDecoder timeDecoding (Some None) true
    [[xff; x00; x0a; x01]] 4 6.

(** An encoder after [Init], with SSRC 1, initial timestamp 3 and the given
    initial sequence number and maximum payload size (0 for the default);
    the payload type is 96. *)
Definition encoder (initialSequenceNumber maxSize : Z)
  : Av1.Encoder (clock := timeEncoding) :=
  Av1.Init 0 0 0
    (@Av1.mkEncoder timeEncoding 96 (Some 1) (Some initialSequenceNumber)
       (Some 3) maxSize 0 None).

(** An OBU of [n] bytes: a sequence header ([0x0a]) or a frame ([0x32]),
    by its first byte. *)
Definition sequenceHeader (n : Z) : list byte :=
  x0a :: repeat x00 (Z.to_nat (n - 1)).
Definition frame (n : Z) : list byte :=
  x32 :: repeat x01 (Z.to_nat (n - 1)).

End Instances.

(** Stand-ins for the functions of the Go standard library: decimal
    numbers, separators of one character, and hexadecimal digits in the
    place of base64, which like base64 has no comma. *)

Module FormatInstances.

Definition hexDigit (n : N) : Ascii.ascii :=
  Ascii.ascii_of_N (if (n <? 10)%N then 48 + n else 87 + n)%N.

Definition hexValue (c : Ascii.ascii) : option N :=
  let n := Ascii.N_of_ascii c in
  if ((48 <=? n) && (n <=? 57))%N then Some (n - 48)%N
  else if ((97 <=? n) && (n <=? 102))%N then Some (n - 87)%N
  else None.

Fixpoint hexEncode (l : list byte) : String.string :=
  match l with
  | [] => String.EmptyString
  | b :: rest =>
      String.String (hexDigit (Byte.to_N b / 16))
        (String.String (hexDigit (Byte.to_N b mod 16)) (hexEncode rest))
  end.

Fixpoint hexDecode (s : String.string) : option (list byte) :=
  match s with
  | String.EmptyString => Some []
  | String.String c1 (String.String c2 rest) =>
      match hexValue c1, hexValue c2, hexDecode rest with
      | Some h, Some l, Some bs =>
          match Byte.of_N (16 * h + l) with
          | Some b => Some (b :: bs)
          | None => None
          end
      | _, _, _ => None
      end
  | _ => None
  end.

Definition upper (c : Ascii.ascii) : Ascii.ascii :=
  let n := Ascii.N_of_ascii c in
  if ((97 <=? n) && (n <=? 122))%N then Ascii.ascii_of_N (n - 32) else c.

Fixpoint toUpper (s : String.string) : String.string :=
  match s with
  | String.EmptyString => String.EmptyString
  | String.String c rest => String.String (upper c) (toUpper rest)
  end.

Fixpoint splitAt (sep : Ascii.ascii) (s : String.string)
  : list String.string :=
  match s with
  | String.EmptyString => [String.EmptyString]
  | String.String c rest =>
      match splitAt sep rest with
      | h :: t =>
          if Ascii.eqb c sep then String.EmptyString :: h :: t
          else String.String c h :: t
      | [] => []
      end
  end.

Definition split (s sep : String.string) : list String.string :=
  match sep with
  | String.String c String.EmptyString => splitAt c s
  | _ => [s]
  end.

Fixpoint join (l : list String.string) (sep : String.string)
  : String.string :=
  match l with
  | [] => String.EmptyString
  | [a] => a
  | a :: rest => String.append a (String.append sep (join rest sep))
  end.

Definition parseUint (s : String.string) (base bitSize : Z) : option Z :=
  match DecimalString.NilZero.uint_of_string s with
  | Some u => if Z.of_uint u <? 2 ^ bitSize then Some (Z.of_uint u) else None
  | None => None
  end.

Definition formatInt (i base : Z) : String.string :=
  DecimalString.NilZero.string_of_int (Z.to_int i).

Definition goLibrary : H264Format.GoLibrary :=
  {| H264Format.DecodeString := hexDecode;
     H264Format.EncodeToString := hexEncode;
     H264Format.ParseUint := parseUint;
     H264Format.FormatInt := formatInt;
     H264Format.Split := split;
     H264Format.Join := join;
     H264Format.hexEncodeToString := hexEncode;
     H264Format.ToUpper := toUpper |}.

(** A format with both parameter sets and packetization mode 1. *)
Definition h264 : H264Format.H264 :=
  H264Format.mkH264 96 (Some [x67; x42; xc0; x28; xd9])
                    (Some [x68; xce; x3c; x80]) 1.

(** The same format without its PPS. *)
Definition spsOnly : H264Format.H264 :=
  H264Format.mkH264 96 (Some [x67; x42; xc0; x28; xd9]) None 1.

(** A video packet with the given payload. *)
Definition videoPacket (payload : list byte) : Packet :=
  mkPacket 2 false 96 0 0 0 payload.

End FormatInstances.

(** Further stand-ins, for the loops that need not end. *)

Module LoopInstances.

(** A frame codec whose header is one byte, the length of the frame, header
    included.  Nothing keeps that length from being zero. *)
Definition unmarshalByte (buf : list byte) : Z + unit :=
  match buf with
  | b :: _ => inl (b2z b)
  | [] => inr tt
  end.

Definition byteCodec : Mpeg2Audio.FrameCodec :=
  {| Mpeg2Audio.FrameHeader := Z;
     Mpeg2Audio.UnmarshalError := unit;
     Mpeg2Audio.Unmarshal := unmarshalByte;
     Mpeg2Audio.FrameLen := fun h => h |}.

(** A decoder that holds the first 65536 bytes of a frame of 70000. *)
Definition longFrame : Mpeg2Audio.Decoder (clock := Instances.timeDecoding) :=
  @Mpeg2Audio.mkDecoder Instances.timeDecoding (Some None) true
    [repeat x01 (Z.to_nat 65536)] 65536 4464.

End LoopInstances.

(** * Properties *)

(** ** Facts about the runtime model *)

Lemma len_nil (A : Type) : len (@nil A) = 0.
Proof. reflexivity. Qed.

Lemma len_cons (A : Type) (a : A) (l : list A) : len (a :: l) = len l + 1.
Proof. unfold len. simpl length. lia. Qed.

Lemma len_app (A : Type) (l1 l2 : list A) : len (l1 ++ l2) = len l1 + len l2.
Proof. unfold len. rewrite length_app. lia. Qed.

Lemma len_nonneg (A : Type) (l : list A) : 0 <= len l.
Proof. unfold len. lia. Qed.

Lemma len_zero (A : Type) (l : list A) : len l = 0 -> l = [].
Proof. destruct l; [reflexivity | rewrite len_cons; pose proof (len_nonneg A l); lia]. Qed.

Lemma b2z_range (b : byte) : 0 <= b2z b < 256.
Proof.
  unfold b2z. pose proof (Byte.to_N_bounded b) as Hb.
  split; lia.
Qed.

Lemma be16_range (hi lo : byte) : 0 <= be16 hi lo < 65536.
Proof.
  unfold be16.
  pose proof (b2z_range hi) as Hhi. pose proof (b2z_range lo) as Hlo.
  assert (Hs : 0 <= Z.shiftl (b2z hi) 8 < 2 ^ 16).
  { rewrite Z.shiftl_mul_pow2 by lia. change (2 ^ 8) with 256.
    change (2 ^ 16) with 65536. lia. }
  assert (Hl : 0 <= b2z lo < 2 ^ 16) by (change (2 ^ 16) with 65536; lia).
  split.
  - apply Z.lor_nonneg. lia.
  - change 65536 with (2 ^ 16).
    destruct (Z.eq_dec (Z.lor (Z.shiftl (b2z hi) 8) (b2z lo)) 0) as [E | E];
      [rewrite E; reflexivity |].
    apply Z.log2_lt_pow2.
    + assert (0 <= Z.lor (Z.shiftl (b2z hi) 8) (b2z lo))
        by (apply Z.lor_nonneg; lia). lia.
    + rewrite Z.log2_lor by lia.
      apply Z.max_lub_lt.
      * destruct (Z.eq_dec (Z.shiftl (b2z hi) 8) 0) as [E0 | E0];
          [rewrite E0; simpl; lia | apply Z.log2_lt_pow2; lia].
      * destruct (Z.eq_dec (b2z lo) 0) as [E0 | E0];
          [rewrite E0; simpl; lia | apply Z.log2_lt_pow2; lia].
Qed.

Lemma index_0 (A : Type) (a : A) (l : list A) : index (a :: l) 0 = Done a.
Proof. reflexivity. Qed.

Lemma index_1 (A : Type) (a b : A) (l : list A) :
  index (a :: b :: l) 1 = Done b.
Proof. reflexivity. Qed.

Lemma index_2 (A : Type) (a b c : A) (l : list A) :
  index (a :: b :: c :: l) 2 = Done c.
Proof. reflexivity. Qed.

Lemma index_3 (A : Type) (a b c d : A) (l : list A) :
  index (a :: b :: c :: d :: l) 3 = Done d.
Proof. reflexivity. Qed.

Lemma sliceFrom_ok (A : Type) (l : list A) (lo : Z) :
  0 <= lo <= len l -> sliceFrom l lo = Done (skipn (Z.to_nat lo) l).
Proof.
  intros H. unfold sliceFrom.
  destruct (lo <? 0) eqn:E1; [apply Z.ltb_lt in E1; lia |].
  destruct (len l <? lo) eqn:E2; [apply Z.ltb_lt in E2; lia |].
  reflexivity.
Qed.

Lemma sliceTo_ok (A : Type) (l : list A) (hi : Z) :
  0 <= hi <= len l -> sliceTo l hi = Done (firstn (Z.to_nat hi) l).
Proof.
  intros H. unfold sliceTo.
  destruct (hi <? 0) eqn:E1; [apply Z.ltb_lt in E1; lia |].
  destruct (len l <? hi) eqn:E2; [apply Z.ltb_lt in E2; lia |].
  reflexivity.
Qed.

Lemma len_skipn (A : Type) (l : list A) (n : Z) :
  0 <= n <= len l -> len (skipn (Z.to_nat n) l) = len l - n.
Proof. intros H. unfold len in *. rewrite length_skipn. lia. Qed.

Lemma len_firstn (A : Type) (l : list A) (n : Z) :
  0 <= n <= len l -> len (firstn (Z.to_nat n) l) = n.
Proof. intros H. unfold len in *. rewrite length_firstn. lia. Qed.

(** ** The NAL classifier *)

Module H264Facts.

Import H264.

(** One iteration of the STAP-A loop on a payload that holds a size field. *)
Lemma stapA_step (fuel : nat) (s0 s1 : byte) (rest : list byte) :
  stapA (S fuel) (s0 :: s1 :: rest) =
  if (be16 s0 s1 =? 0) || (len rest <? be16 s0 s1) then Done false
  else match rest with
       | [] => Panic
       | n0 :: _ =>
           if naluType n0 =? NALUTypeIDR then Done true
           else stapA fuel (skipn (Z.to_nat (be16 s0 s1)) rest)
       end.
Proof.
  cbn [stapA].
  assert (H0 : (0 <? len (s0 :: s1 :: rest)) = true).
  { apply Z.ltb_lt. rewrite !len_cons. pose proof (len_nonneg _ rest). lia. }
  assert (H2 : (len (s0 :: s1 :: rest) <? 2) = false).
  { apply Z.ltb_ge. rewrite !len_cons. pose proof (len_nonneg _ rest). lia. }
  rewrite H0, H2, index_0, index_1. cbn [bind].
  rewrite sliceFrom_ok
    by (rewrite !len_cons; pose proof (len_nonneg _ rest); lia).
  cbn [bind]. change (skipn (Z.to_nat 2) (s0 :: s1 :: rest)) with rest.
  destruct ((be16 s0 s1 =? 0) || (len rest <? be16 s0 s1)) eqn:E;
    [reflexivity |].
  apply orb_false_iff in E. destruct E as [E1 E2].
  apply Z.eqb_neq in E1. apply Z.ltb_ge in E2.
  pose proof (be16_range s0 s1) as Hr.
  rewrite sliceTo_ok, sliceFrom_ok by lia. cbn [bind].
  destruct rest as [| n0 rest'].
  - rewrite len_nil in E2. lia.
  - destruct (Z.to_nat (be16 s0 s1)) as [| k] eqn:Ek; [lia |].
    cbn [firstn]. rewrite index_0. cbn [bind]. reflexivity.
Qed.

Lemma stapA_nil (fuel : nat) : stapA fuel [] = Done false.
Proof. destruct fuel; reflexivity. Qed.

Lemma stapA_single (fuel : nat) (b : byte) : stapA (S fuel) [b] = Done false.
Proof. reflexivity. Qed.

(** With one unit of fuel per byte the loop returns: it neither panics nor
    runs out of fuel. *)
Lemma stapA_returns (fuel : nat) :
  forall payload : list byte,
    (length payload <= fuel)%nat -> exists b, stapA fuel payload = Done b.
Proof.
  induction fuel as [| fuel IH]; intros payload Hlen.
  - destruct payload; [| simpl in Hlen; lia].
    exists false. reflexivity.
  - destruct payload as [| s0 [| s1 rest]].
    + exists false. reflexivity.
    + exists false. reflexivity.
    + rewrite stapA_step.
      destruct ((be16 s0 s1 =? 0) || (len rest <? be16 s0 s1)) eqn:E;
        [exists false; reflexivity |].
      apply orb_false_iff in E. destruct E as [E1 E2].
      apply Z.eqb_neq in E1. apply Z.ltb_ge in E2.
      destruct rest as [| n0 rest'].
      * pose proof (be16_range s0 s1). rewrite len_nil in E2. lia.
      * destruct (naluType n0 =? NALUTypeIDR); [exists true; reflexivity |].
        apply IH. rewrite length_skipn. simpl in Hlen. simpl length. lia.
Qed.

Lemma stapA_finds (fuel : nat) :
  forall payload : list byte,
    (length payload <= fuel)%nat ->
    (stapA fuel payload = Done true <-> FindsIDR payload).
Proof.
  induction fuel as [| fuel IH]; intros payload Hlen.
  - destruct payload; [| simpl in Hlen; lia].
    split; [discriminate | inversion 1].
  - destruct payload as [| s0 [| s1 rest]].
    + split; [discriminate | inversion 1].
    + split; [discriminate | inversion 1].
    + rewrite stapA_step. unfold NALUTypeIDR.
      destruct ((be16 s0 s1 =? 0) || (len rest <? be16 s0 s1)) eqn:E.
      * split; [discriminate |].
        apply orb_true_iff in E.
        inversion 1; subst; destruct E as [E | E];
          [apply Z.eqb_eq in E | apply Z.ltb_lt in E
          |apply Z.eqb_eq in E | apply Z.ltb_lt in E]; lia.
      * apply orb_false_iff in E. destruct E as [E1 E2].
        apply Z.eqb_neq in E1. apply Z.ltb_ge in E2.
        destruct rest as [| n0 rest'];
          [rewrite len_nil in E2; pose proof (be16_range s0 s1); lia |].
        destruct (naluType n0 =? 5) eqn:E5.
        -- apply Z.eqb_eq in E5. split; [| reflexivity].
           intros _. apply FindsHere; assumption.
        -- apply Z.eqb_neq in E5.
           assert (Hk : (length (skipn (Z.to_nat (be16 s0 s1)) (n0 :: rest'))
                         <= fuel)%nat).
           { rewrite length_skipn. simpl in Hlen. simpl length. lia. }
           rewrite (IH _ Hk). split.
           ++ intros Hf. apply FindsLater; assumption.
           ++ inversion 1; subst; [contradiction | assumption].
Qed.

Lemma stapA_violation (fuel : nat) :
  forall payload : list byte,
    (length payload <= fuel)%nat ->
    HitsViolation payload -> stapA fuel payload = Done false.
Proof.
  induction fuel as [| fuel IH]; intros payload Hlen Hv.
  - destruct payload; [inversion Hv | simpl in Hlen; lia].
  - inversion Hv as [b | s0 s1 rest Hz | s0 s1 rest Ho
                     | s0 s1 n0 rest Hnz Hle Hn Hrest]; subst.
    + reflexivity.
    + rewrite stapA_step.
      apply Z.eqb_eq in Hz. rewrite Hz. reflexivity.
    + rewrite stapA_step.
      apply Z.ltb_lt in Ho. rewrite Ho, orb_true_r. reflexivity.
    + rewrite stapA_step. unfold NALUTypeIDR.
      apply Z.eqb_neq in Hnz, Hn. apply Z.ltb_ge in Hle.
      rewrite Hnz, Hle, Hn. cbn [orb].
      apply IH; [| assumption].
      rewrite length_skipn. simpl in Hlen. simpl length. lia.
Qed.

(** The start flag of a fragmentation unit, [b >> 7 == 1], is bit 7 of [b]. *)
Lemma start_bit (b : byte) :
  (Z.shiftr (b2z b) 7 =? 1) = Z.testbit (b2z b) 7.
Proof. destruct b; reflexivity. Qed.

(** The classifier on a non-empty payload, against the case split of the
    design document. *)
Lemma containsIDR_cons (p0 : byte) (rest : list byte) :
  exists b : bool,
    rtpH264ContainsIDR (p0 :: rest) = Done b /\
    (b = true <-> containsKeyframe (p0 :: rest)).
Proof.
  unfold rtpH264ContainsIDR, containsKeyframe, NALUTypeIDR.
  assert (H0 : (len (p0 :: rest) =? 0) = false).
  { apply Z.eqb_neq. rewrite len_cons. pose proof (len_nonneg _ rest). lia. }
  rewrite H0, index_0. cbn [bind].
  destruct (naluType p0 =? 5) eqn:E5.
  - apply Z.eqb_eq in E5. rewrite E5. exists true. simpl. tauto.
  - apply Z.eqb_neq in E5.
    destruct (naluType p0 =? 24) eqn:E24.
    + rewrite sliceFrom_ok
        by (rewrite len_cons; pose proof (len_nonneg _ rest); lia).
      cbn [bind]. change (skipn (Z.to_nat 1) (p0 :: rest)) with rest.
      destruct (stapA_returns (length rest) rest (le_n _)) as [b Hb].
      exists b. split; [exact Hb |].
      rewrite <- (stapA_finds (length rest) rest (le_n _)), Hb.
      split; congruence.
    + destruct (naluType p0 =? 28) eqn:E28.
      * destruct rest as [| p1 rest'].
        -- exists false. split; [reflexivity |]. split; [discriminate | tauto].
        -- assert (H2 : (len (p0 :: p1 :: rest') <? 2) = false).
           { apply Z.ltb_ge. rewrite !len_cons.
             pose proof (len_nonneg _ rest'). lia. }
           rewrite H2, index_1. cbn [bind]. rewrite start_bit.
           destruct (Z.testbit (b2z p1) 7) eqn:Et; cbn [negb].
           ++ exists (naluType p1 =? 5). split; [reflexivity |].
              rewrite Z.eqb_eq. tauto.
           ++ exists false. split; [reflexivity |].
              split; [discriminate | intros [H _]; discriminate].
      * exists false. split; [reflexivity |].
        split; [discriminate | intros H; contradiction].
Qed.

(** C8.  On every non-empty payload [rtpH264ContainsIDR] returns the boolean
    that the case split of the design document prescribes: for type 24 the
    result of walking the size-prefixed entries, for type 28 the start bit
    of the second byte together with the type in its low 5 bits (false
    when the start bit or the second byte is absent), and for every other
    type whether the type is 5. *)
Theorem rtpH264ContainsIDR_case_split (p0 : byte) (rest : list byte) :
  exists b : bool,
    rtpH264ContainsIDR (p0 :: rest) = Done b /\
    (b = true <-> containsKeyframe (p0 :: rest)).
Proof. exact (containsIDR_cons p0 rest). Qed.

(** C9.  [rtpH264ContainsIDR] returns a boolean on every payload: it never
    panics and its loop never runs out of fuel.  It returns false on the
    empty payload, on a fragmentation unit (type 28) of fewer than 2 bytes,
    and on an aggregation unit (type 24) whose walk hits a bound violation
    before it finds a keyframe entry. *)
Theorem rtpH264ContainsIDR_total :
  (forall payload : list byte, exists b : bool,
      rtpH264ContainsIDR payload = Done b) /\
  rtpH264ContainsIDR [] = Done false /\
  (forall p0 : byte, naluType p0 = 28 -> rtpH264ContainsIDR [p0] = Done false) /\
  (forall (p0 : byte) (rest : list byte),
      naluType p0 = 24 -> HitsViolation rest ->
      rtpH264ContainsIDR (p0 :: rest) = Done false).
Proof.
  split; [| split; [| split]].
  - intros [| p0 rest]; [exists false; reflexivity |].
    destruct (containsIDR_cons p0 rest) as [b [Hb _]].
    exists b. exact Hb.
  - reflexivity.
  - intros p0 H28. unfold rtpH264ContainsIDR, NALUTypeIDR.
    cbn [len length Z.of_nat Z.eqb]. rewrite index_0. cbn [bind].
    rewrite H28. reflexivity.
  - intros p0 rest H24 Hv. unfold rtpH264ContainsIDR, NALUTypeIDR.
    assert (H0 : (len (p0 :: rest) =? 0) = false).
    { apply Z.eqb_neq. rewrite len_cons. pose proof (len_nonneg _ rest). lia. }
    rewrite H0, index_0. cbn [bind]. rewrite H24. cbn [Z.eqb Pos.eqb].
    rewrite sliceFrom_ok
      by (rewrite len_cons; pose proof (len_nonneg _ rest); lia).
    cbn [bind]. change (skipn (Z.to_nat 1) (p0 :: rest)) with rest.
    apply stapA_violation; [apply le_n | assumption].
Qed.

(** A single unit of type 5 is a keyframe and one of type 1 is not; an
    aggregation unit is a keyframe when one of its entries is. *)
Example single_unit_IDR : rtpH264ContainsIDR [x65; x88] = Done true.
Proof. reflexivity. Qed.

Example single_unit_non_IDR : rtpH264ContainsIDR [x41; x9a] = Done false.
Proof. reflexivity. Qed.

Example aggregation_with_IDR :
  rtpH264ContainsIDR [x18; x00; x02; x67; x42; x00; x01; x65] = Done true.
Proof. reflexivity. Qed.

Example fragmentation_start_IDR :
  rtpH264ContainsIDR [x7c; x85; x88] = Done true /\
  rtpH264ContainsIDR [x7c; x05; x88] = Done false.
Proof. split; reflexivity. Qed.

Lemma rtpH264ContainsIDR_total_witness :
  rtpH264ContainsIDR [x18; x00; x01; x67; x00; x02; x65] = Done false /\
  rtpH264ContainsIDR [x7c] = Done false.
Proof.
  split.
  - apply (proj2 (proj2 (proj2 rtpH264ContainsIDR_total))); [reflexivity |].
    apply ViolLater; [discriminate | discriminate | discriminate |].
    apply ViolOverrun. reflexivity.
  - apply (proj1 (proj2 (proj2 rtpH264ContainsIDR_total))). reflexivity.
Defined.

End H264Facts.

(** ** The RTP/MPEG-2 audio decoder *)

Module Mpeg2AudioFacts.

Import Mpeg2Audio.

(** Case analysis on the next test or checked operation of a run that is
    known to return. *)
Ltac run_step H :=
  lazymatch type of H with
  | (if ?c then _ else _) = _ =>
      let E := fresh "E" in destruct c eqn:E
  | bind ?m _ = _ =>
      let E := fresh "E" in
      destruct m eqn:E; cbn [bind] in H; [| discriminate H | discriminate H]
  end.

Ltac done_inv H := inversion H; subst; clear H.

Section Decoder.

Context {codec : FrameCodec} {clock : TimeDecoding}.

(** How the loop of the [offset == 0] branch can end: with the decoder
    untouched, on [break] or on an error that is not
    [ErrMorePacketsNeeded]; or with [ErrMorePacketsNeeded] and a reassembly
    started on a truncated first frame. *)
Lemma frameLoop_exit (fuel : nat) (d : Decoder) :
  forall (buf : list byte) (frames : list (list byte))
         (d' : Decoder) (r : error + list (list byte)),
    frameLoop fuel d buf frames = Done (d', r) ->
    (d' = d /\
     ((exists out, r = inr out) \/
      (exists err, r = inl (ErrFrameHeader err)) \/
      r = inl ErrInvalidPacket)) \/
    (exists (part : list byte) (h : FrameHeader),
        r = inl ErrMorePacketsNeeded /\
        Unmarshal part = inl h /\
        len part < FrameLen h /\
        d' = mkDecoder (timeDecoder d) (firstPacketReceived d)
                       (fragments d ++ [part]) (len part)
                       (FrameLen h - len part)).
Proof.
  induction fuel as [| fuel IH]; intros buf frames d' r H; [discriminate H |].
  cbn [frameLoop] in H.
  destruct (Unmarshal buf) as [h | err] eqn:Eh.
  - destruct (FrameLen h <=? len buf) eqn:Efl.
    + run_step H. run_step H. run_step H.
      * done_inv H. left. split; [reflexivity |]. left. eauto.
      * eapply IH. exact H.
    + apply Z.leb_gt in Efl. run_step H.
      * done_inv H. left. split; [reflexivity |]. right. right. reflexivity.
      * done_inv H. right. exists buf, h. repeat split; assumption.
  - done_inv H. left. split; [reflexivity |]. right. left. eauto.
Qed.

(** The decoder once [Decode] has returned: untouched, when the packet is a
    non-starting one and nothing was received before; emptied; holding the
    truncated first frame of a packet of offset zero; or holding one more
    fragment of the frame under reassembly. *)
Inductive post (d : Decoder) (pkt : Packet) (d' : Decoder) (r : result)
  : Prop :=
| PostUntouched :
    r = Failed ErrNonStartingPacketAndNoPrevious ->
    d' = d ->
    post d pkt d' r
| PostEmptied :
    r <> Failed ErrNonStartingPacketAndNoPrevious ->
    r <> Failed ErrMorePacketsNeeded ->
    empty d' ->
    post d pkt d' r
| PostStarted (part : list byte) (h : FrameHeader) :
    r = Failed ErrMorePacketsNeeded ->
    Unmarshal part = inl h ->
    len part < FrameLen h ->
    fragments d' = [part] ->
    fragmentsSize d' = len part ->
    fragmentsExpected d' = FrameLen h - len part ->
    firstPacketReceived d' = true ->
    post d pkt d' r
| PostContinued (part : list byte) :
    r = Failed ErrMorePacketsNeeded ->
    fragmentsSize d <> 0 ->
    fragments d' = fragments d ++ [part] ->
    fragmentsSize d' = fragmentsSize d + len part ->
    fragmentsExpected d' = fragmentsExpected d - len part ->
    0 < fragmentsExpected d' ->
    firstPacketReceived d' = firstPacketReceived d ->
    post d pkt d' r.

Ltac emptied :=
  apply PostEmptied; [discriminate | discriminate | split; reflexivity].

Lemma Decode_post (d d' : Decoder) (pkt : Packet) (r : result) :
  Decode d pkt = Done (d', r) -> post d pkt d' r.
Proof.
  intros H. unfold Decode in H.
  run_step H; [done_inv H; emptied |].
  run_step H. run_step H.
  run_step H; [done_inv H; emptied |].
  run_step H. run_step H. run_step H.
  - (* offset == 0 *)
    run_step H. run_step H.
    match goal with
    | HL : frameLoop _ _ _ _ = Done ?p |- _ =>
        destruct p as [d1 [err | frames]]; apply frameLoop_exit in HL;
        destruct HL as [[-> Hr] | (part & h & Hr & Hh & Hlt & ->)]
    end.
    + done_inv H.
      destruct Hr as [[out Hr] | [[err' Hr] | Hr]]; inversion Hr; subst;
        emptied.
    + done_inv H. inversion Hr; subst.
      eapply PostStarted; [reflexivity | exact Hh | exact Hlt | | | |];
        reflexivity.
    + unfold finish in H. cbn [timeDecoder] in H.
      destruct (timeDecoder d); [| discriminate H].
      destruct (timeDecode _ _). done_inv H. emptied.
    + inversion Hr.
  - (* offset != 0 *)
    run_step H.
    + run_step H.
      * done_inv H. apply PostUntouched; reflexivity.
      * done_inv H. emptied.
    + run_step H. cbn [fragmentsExpected fragments fragmentsSize] in H.
      run_step H; [done_inv H; emptied |].
      match goal with
      | Ho : (be16 ?a ?b =? 0) = false,
        Hs : negb (be16 ?a ?b =? fragmentsSize d) = false |- _ =>
          apply Z.eqb_neq in Ho; apply negb_false_iff in Hs;
          apply Z.eqb_eq in Hs; rewrite Hs in Ho
      end.
      run_step H.
      * done_inv H.
        match goal with
        | Hpos : (0 <? _) = true |- _ => apply Z.ltb_lt in Hpos
        end.
        eapply PostContinued; [reflexivity | assumption | | | | |];
          (reflexivity || assumption).
      * run_step H. unfold finish in H. cbn [timeDecoder discard] in H.
        destruct (timeDecoder d); [| discriminate H].
        destruct (timeDecode _ _). done_inv H. emptied.
Qed.

(** The only test that yields [ErrPayloadTooShort] is the first one. *)
Lemma Decode_too_short_only (d d' : Decoder) (pkt : Packet) :
  Decode d pkt = Done (d', Failed ErrPayloadTooShort) ->
  len (Payload pkt) < 5.
Proof.
  intros H. unfold Decode in H.
  run_step H; [apply Z.ltb_lt; assumption |].
  exfalso.
  run_step H. run_step H.
  run_step H; [discriminate H |].
  run_step H. run_step H. run_step H.
  - run_step H. run_step H.
    match goal with
    | HL : frameLoop _ _ _ _ = Done ?p |- _ =>
        destruct p as [d1 [err | frames]]; apply frameLoop_exit in HL;
        destruct HL as [[-> Hr] | (part & h & Hr & Hh & Hlt & ->)]
    end.
    + done_inv H.
      destruct Hr as [[out Hr] | [[err' Hr] | Hr]]; discriminate Hr.
    + done_inv H. discriminate Hr.
    + unfold finish in H. cbn [timeDecoder] in H.
      destruct (timeDecoder d); [| discriminate H].
      destruct (timeDecode _ _). discriminate H.
    + discriminate Hr.
  - run_step H.
    + run_step H; discriminate H.
    + run_step H. cbn [fragmentsExpected fragments fragmentsSize] in H.
      run_step H; [discriminate H |].
      run_step H; [discriminate H |].
      run_step H. unfold finish in H. cbn [timeDecoder discard] in H.
      destruct (timeDecoder d); [| discriminate H].
      destruct (timeDecode _ _). discriminate H.
Qed.

(** C2.  When [Decode] returns a malformed-input error (payload too short,
    non-zero reserved bytes, unparsable frame header, truncated frame after
    a complete one), an out-of-sequence error or an oversize error, the
    decoder it leaves has no pending fragment and an accumulated size of
    zero, whatever the decoder and the packet were. *)
Theorem Decode_error_resets (d d' : Decoder) (pkt : Packet) (e : error) :
  Decode d pkt = Done (d', Failed e) ->
  MalformedInput e \/ OutOfSequence e \/ Oversize e ->
  fragments d' = [] /\ fragmentsSize d' = 0.
Proof.
  intros H He. apply Decode_post in H.
  destruct H as [Hr _ | _ _ Hd | part h Hr | part Hr].
  - inversion Hr; subst. cbn in He. tauto.
  - exact Hd.
  - inversion Hr; subst. cbn in He. tauto.
  - inversion Hr; subst. cbn in He. tauto.
Qed.

(** C7, amended.  [Decode] rejects a packet as too short exactly when its
    payload has fewer than 5 bytes, the 4 header bytes and one byte of
    elementary stream: such a payload fails with [ErrPayloadTooShort] and
    the pending fragments are discarded, while a payload of 5 bytes or more
    is never rejected for its length. *)
Theorem Decode_too_short (d : Decoder) (pkt : Packet) :
  (len (Payload pkt) < 5 ->
   Decode d pkt = Done (discard d, Failed ErrPayloadTooShort) /\
   fragments (discard d) = [] /\ fragmentsSize (discard d) = 0) /\
  (5 <= len (Payload pkt) ->
   forall d', Decode d pkt <> Done (d', Failed ErrPayloadTooShort)).
Proof.
  split.
  - intros Hlt. apply Z.ltb_lt in Hlt. unfold Decode. rewrite Hlt.
    repeat split.
  - intros Hge d' H. apply Decode_too_short_only in H. lia.
Qed.

(** The header of a payload of 5 bytes or more is read without a panic. *)
Lemma Decode_header (d : Decoder) (pkt : Packet) (r0 r1 o0 o1 e0 : byte)
  (es : list byte) :
  Payload pkt = r0 :: r1 :: o0 :: o1 :: e0 :: es ->
  be16 r0 r1 = 0 ->
  Decode d pkt =
  if be16 o0 o1 =? 0 then
    r <- frameLoop (S (length (e0 :: es)))
           (mkDecoder (timeDecoder d) true [] 0 (fragmentsExpected d))
           (e0 :: es) [] ;;
    match r with
    | (d, inl err) => Done (d, Failed err)
    | (d, inr frames) => finish d frames pkt
    end
  else if negb (be16 o0 o1 =? fragmentsSize d) then
    if negb (firstPacketReceived d) then
      Done (d, Failed ErrNonStartingPacketAndNoPrevious)
    else Done (discard d, Failed (ErrUnexpectedOffset (be16 o0 o1) 0))
  else
    let bl := len (e0 :: es) in
    let d1 := mkDecoder (timeDecoder d) (firstPacketReceived d) (fragments d)
                        (fragmentsSize d + bl) (fragmentsExpected d - bl) in
    if fragmentsExpected d - bl <? 0 then
      Done (discard d1, Failed ErrFragmentTooBig)
    else
      let d2 := mkDecoder (timeDecoder d) (firstPacketReceived d)
                          (fragments d ++ [e0 :: es])
                          (fragmentsSize d + bl) (fragmentsExpected d - bl) in
      if 0 <? fragmentsExpected d - bl then
        Done (d2, Failed ErrMorePacketsNeeded)
      else
        joined <- joinFragments (fragments d ++ [e0 :: es])
                                (fragmentsSize d + bl) ;;
        finish (discard d2) [joined] pkt.
Proof.
  intros Hp Hz. unfold Decode. rewrite Hp.
  assert (H5 : (len (r0 :: r1 :: o0 :: o1 :: e0 :: es) <? 5) = false).
  { apply Z.ltb_ge. rewrite !len_cons. pose proof (len_nonneg _ es). lia. }
  rewrite H5, index_0, index_1, index_2, index_3. cbn [bind].
  rewrite Hz. cbn [Z.eqb negb].
  rewrite sliceFrom_ok
    by (rewrite !len_cons; pose proof (len_nonneg _ es); lia).
  cbn [bind].
  change (skipn (Z.to_nat 4) (r0 :: r1 :: o0 :: o1 :: e0 :: es))
    with (e0 :: es).
  reflexivity.
Qed.

(** A reassembly is in progress only in a decoder that received a packet of
    offset zero: this holds after [Init] and [Decode] preserves it. *)
Lemma started_Init : started (Init zero).
Proof. left. split; reflexivity. Qed.

Lemma started_Decode (d d' : Decoder) (pkt : Packet) (r : result) :
  started d -> Decode d pkt = Done (d', r) -> started d'.
Proof.
  intros Hs H. apply Decode_post in H.
  destruct H as [_ -> | _ _ Hd | part h _ _ _ _ _ _ Hf
                 | part _ Hnz _ _ _ _ Hf].
  - exact Hs.
  - left. exact Hd.
  - right. exact Hf.
  - destruct Hs as [[_ H0] | Ht]; [contradiction |].
    right. rewrite Hf. exact Ht.
Qed.

(** C3, amended.  Take a packet whose payload has at least 5 bytes, with
    zero reserved bytes and a fragment offset that is neither zero nor the
    accumulated size.  If no packet of offset zero was ever received,
    [Decode] fails with [ErrNonStartingPacketAndNoPrevious] and leaves the
    decoder as it was, every field of it; otherwise, and in particular
    when a reassembly is in progress, it discards the pending fragments,
    sets the accumulated size to zero and fails with the unexpected-offset
    error. *)
Theorem Decode_offset_mismatch (d : Decoder) (pkt : Packet)
  (r0 r1 o0 o1 e0 : byte) (es : list byte) :
  Payload pkt = r0 :: r1 :: o0 :: o1 :: e0 :: es ->
  be16 r0 r1 = 0 ->
  be16 o0 o1 <> 0 ->
  be16 o0 o1 <> fragmentsSize d ->
  (firstPacketReceived d = false ->
   Decode d pkt = Done (d, Failed ErrNonStartingPacketAndNoPrevious)) /\
  (firstPacketReceived d = true \/ (started d /\ fragments d <> []) ->
   Decode d pkt =
   Done (discard d, Failed (ErrUnexpectedOffset (be16 o0 o1) 0)) /\
   fragments (discard d) = [] /\ fragmentsSize (discard d) = 0).
Proof.
  intros Hp Hz Ho Hs.
  rewrite (Decode_header d pkt r0 r1 o0 o1 e0 es Hp Hz).
  apply Z.eqb_neq in Ho, Hs. rewrite Ho, Hs. cbn [negb].
  split.
  - intros ->. reflexivity.
  - intros Hst.
    assert (Ht : firstPacketReceived d = true).
    { destruct Hst as [Ht | [[[Hnil _] | Ht] Hne]];
        [exact Ht | contradiction | exact Ht]. }
    rewrite Ht. repeat split.
Qed.

(** The decoder after [Init] has an empty reassembly state. *)
Lemma invariant_Init : invariant (Init zero).
Proof. left. split; reflexivity. Qed.

(** C5.  The reassembly state is either empty or satisfies
    [accumulated + remaining = declared length] of the frame whose header
    initiated the reassembly, and [Decode] preserves this on every packet,
    whatever it returns. *)
Theorem Decode_preserves_invariant (d d' : Decoder) (pkt : Packet)
  (r : result) :
  invariant d ->
  Decode d pkt = Done (d', r) ->
  invariant d'.
Proof.
  intros Hinv H. apply Decode_post in H.
  destruct H as [_ -> | _ _ Hd | part h _ Hh _ Hf Hs He _
                 | part _ Hnz Hf Hs He _ _].
  - exact Hinv.
  - left. exact Hd.
  - right. exists part, [], h. repeat split; [exact Hf | exact Hh | lia].
  - destruct Hinv as [[_ H0] | (first & more & h & Hfd & Hh & Hsum)];
      [contradiction |].
    right. exists first, (more ++ [part]), h.
    repeat split; [rewrite Hf, Hfd; reflexivity | exact Hh | lia].
Qed.

(** [joinFragments] on fragments whose lengths add up to [size] is their
    concatenation. *)
Lemma joinLoop_exact (frags : list (list byte)) :
  forall (ret : list byte) (n : Z),
    0 <= n ->
    len ret = n + len (concat frags) ->
    joinLoop frags ret n = Done (firstn (Z.to_nat n) ret ++ concat frags).
Proof.
  induction frags as [| p rest IH]; intros ret n Hn Hlen;
    cbn [joinLoop concat] in *.
  - rewrite app_nil_r. f_equal. symmetry. apply firstn_all2.
    unfold len in Hlen. simpl in Hlen. lia.
  - rewrite len_app in Hlen.
    pose proof (len_nonneg _ p) as Hp.
    pose proof (len_nonneg _ (concat rest)) as Hc.
    rewrite sliceFrom_ok by lia. cbn [bind]. unfold copy.
    rewrite len_skipn by lia.
    replace (Z.min (len ret - n) (len p)) with (len p) by lia.
    assert (Hpp : firstn (Z.to_nat (len p)) p = p).
    { apply firstn_all2. unfold len. lia. }
    rewrite Hpp.
    rewrite IH.
    + f_equal.
      rewrite (app_assoc (firstn (Z.to_nat n) ret) p).
      replace (Z.to_nat (n + len p))
        with (length (firstn (Z.to_nat n) ret ++ p) + 0)%nat.
      * rewrite firstn_app_2, firstn_O, app_nil_r, <- app_assoc.
        reflexivity.
      * rewrite length_app, length_firstn. unfold len in *. lia.
    + lia.
    + rewrite !len_app, len_firstn, !len_skipn by
        (try rewrite len_skipn; lia).
      lia.
Qed.

Lemma joinFragments_exact (frags : list (list byte)) (size : Z) :
  size = len (concat frags) ->
  joinFragments frags size = Done (concat frags).
Proof.
  intros ->. unfold joinFragments, make.
  pose proof (len_nonneg _ (concat frags)) as Hc.
  destruct (len (concat frags) <? 0) eqn:E; [apply Z.ltb_lt in E; lia |].
  cbn [bind]. rewrite joinLoop_exact.
  - reflexivity.
  - lia.
  - unfold len. rewrite repeat_length. lia.
Qed.

(** C1.  A decoder fresh from [Init] is given a packet with zero reserved
    bytes, offset 0 and 100 bytes of elementary stream that start with a
    frame header declaring a length of 200: [Decode] returns
    [ErrMorePacketsNeeded], with these 100 bytes buffered and 100 more
    expected.  It is then given a packet with zero reserved bytes, offset
    100 and the other 100 bytes: [Decode] returns one frame of 200 bytes,
    the bytes of the first packet followed by those of the second, and
    leaves no pending fragment. *)
Theorem Decode_two_fragments (pkt1 pkt2 : Packet) (es1 es2 : list byte)
  (h : FrameHeader) :
  Payload pkt1 = [x00; x00; x00; x00] ++ es1 ->
  Payload pkt2 = [x00; x00; x00; x64] ++ es2 ->
  Unmarshal es1 = inl h ->
  FrameLen h = 200 ->
  len es1 = 100 ->
  len es2 = 100 ->
  exists (d1 d2 : Decoder) (pts : Z),
    Decode (Init zero) pkt1 = Done (d1, Failed ErrMorePacketsNeeded) /\
    fragments d1 = [es1] /\
    fragmentsSize d1 = 100 /\
    fragmentsExpected d1 = 100 /\
    Decode d1 pkt2 = Done (d2, Frames [es1 ++ es2] pts) /\
    len (es1 ++ es2) = 200 /\
    fragments d2 = [] /\ fragmentsSize d2 = 0.
Proof.
  intros Hp1 Hp2 Hh Hfl H1 H2.
  destruct es1 as [| a1 t1]; [discriminate H1 |].
  destruct es2 as [| a2 t2]; [discriminate H2 |].
  set (td := NewDecoder 90000).
  destruct (timeDecode td (Timestamp pkt2)) as [td' pts] eqn:Etd.
  exists (mkDecoder (Some td) true [a1 :: t1] 100 100),
         (mkDecoder (Some td') true [] 0 0), pts.
  assert (D1 : Decode (Init zero) pkt1 =
               Done (mkDecoder (Some td) true [a1 :: t1] 100 100,
                     Failed ErrMorePacketsNeeded)).
  { rewrite (Decode_header _ pkt1 x00 x00 x00 x00 a1 t1 Hp1 eq_refl).
    change (be16 x00 x00 =? 0) with true. cbv iota.
    cbn [frameLoop]. rewrite Hh, Hfl, H1.
    change (200 <=? 100) with false. cbv iota. cbn [bind].
    reflexivity. }
  assert (D2 : Decode (mkDecoder (Some td) true [a1 :: t1] 100 100) pkt2 =
               Done (mkDecoder (Some td') true [] 0 0,
                     Frames [(a1 :: t1) ++ a2 :: t2] pts)).
  { rewrite (Decode_header _ pkt2 x00 x00 x00 x64 a2 t2 Hp2 eq_refl).
    change (be16 x00 x64) with 100.
    cbn [fragmentsSize fragmentsExpected fragments timeDecoder
         firstPacketReceived app].
    rewrite H2. cbn [Z.eqb Pos.eqb negb Z.sub Z.add Z.opp Z.pos_sub Z.ltb
                     Z.compare].
    cbv zeta. cbv iota.
    rewrite (joinFragments_exact [a1 :: t1; a2 :: t2]).
    - cbn [bind concat]. rewrite app_nil_r.
      unfold finish. cbn [timeDecoder discard]. fold td. rewrite Etd.
      reflexivity.
    - cbn [concat]. rewrite app_nil_r, len_app, H1, H2. reflexivity. }
  repeat split; try assumption; try reflexivity.
  rewrite len_app, H1, H2. reflexivity.
Qed.

(** *** Termination of the loops *)

(** A header that parses to a frame of length zero on a non-empty buffer
    makes no progress: the loop never returns. *)
Lemma frameLoop_stuck (buf : list byte) (h : FrameHeader) :
  Unmarshal buf = inl h ->
  FrameLen h = 0 ->
  buf <> [] ->
  forall (fuel : nat) (d : Decoder) (frames : list (list byte)),
    frameLoop fuel d buf frames = Timeout.
Proof.
  intros Hh Hfl Hne.
  induction fuel as [| fuel IH]; intros d frames; [reflexivity |].
  cbn [frameLoop]. rewrite Hh, Hfl.
  pose proof (len_nonneg _ buf) as Hb.
  destruct (0 <=? len buf) eqn:E; [| apply Z.leb_gt in E; lia].
  rewrite sliceTo_ok, sliceFrom_ok by lia. cbn [bind].
  change (skipn (Z.to_nat 0) buf) with buf.
  destruct (len buf =? 0) eqn:E0.
  - apply Z.eqb_eq in E0. apply len_zero in E0. contradiction.
  - apply IH.
Qed.

(** The fuel [Decode] gives to the loop is enough: more fuel gives the same
    outcome, be it a result, a panic or no return at all. *)
Lemma frameLoop_fuel (n : nat) :
  forall (buf : list byte),
    (length buf < n)%nat ->
    forall (m : nat), (n <= m)%nat ->
    forall (d : Decoder) (frames : list (list byte)),
      frameLoop m d buf frames = frameLoop n d buf frames.
Proof.
  induction n as [| n IH]; intros buf Hlen m Hm d frames; [lia |].
  destruct m as [| m]; [lia |].
  cbn [frameLoop].
  destruct (Unmarshal buf) as [h | err] eqn:Eh; [| reflexivity].
  destruct (FrameLen h <=? len buf) eqn:Efl; [| reflexivity].
  apply Z.leb_le in Efl.
  destruct (Z.lt_trichotomy (FrameLen h) 0) as [Hneg | [Hz | Hpos]].
  - unfold sliceTo. apply Z.ltb_lt in Hneg. rewrite Hneg. reflexivity.
  - rewrite sliceTo_ok, sliceFrom_ok by lia. cbn [bind].
    rewrite Hz. change (skipn (Z.to_nat 0) buf) with buf.
    destruct (len buf =? 0) eqn:E0; [reflexivity |].
    apply Z.eqb_neq in E0.
    assert (Hne : buf <> []) by (intros ->; apply E0; reflexivity).
    rewrite !(frameLoop_stuck buf h Eh Hz Hne). reflexivity.
  - rewrite sliceTo_ok, sliceFrom_ok by lia. cbn [bind].
    destruct (len (skipn (Z.to_nat (FrameLen h)) buf) =? 0);
      [reflexivity |].
    apply IH; [| lia].
    rewrite length_skipn. unfold len in Efl. lia.
Qed.

Section Returns.

(** Frames have a positive length. *)
Hypothesis FrameLen_pos :
  forall (buf : list byte) (h : FrameHeader),
    Unmarshal buf = inl h -> 0 < FrameLen h.

Lemma frameLoop_returns (fuel : nat) :
  forall (buf : list byte) (d : Decoder) (frames : list (list byte)),
    (length buf < fuel)%nat ->
    exists d' r,
      frameLoop fuel d buf frames = Done (d', r) /\
      timeDecoder d' = timeDecoder d.
Proof.
  induction fuel as [| fuel IH]; intros buf d frames Hlen; [lia |].
  cbn [frameLoop].
  destruct (Unmarshal buf) as [h | err] eqn:Eh; [| eauto].
  pose proof (FrameLen_pos buf h Eh) as Hpos.
  destruct (FrameLen h <=? len buf) eqn:Efl.
  - apply Z.leb_le in Efl.
    rewrite sliceTo_ok, sliceFrom_ok by lia. cbn [bind].
    destruct (len (skipn (Z.to_nat (FrameLen h)) buf) =? 0); [eauto |].
    apply IH. rewrite length_skipn. unfold len in Efl. lia.
  - destruct (negb (len frames =? 0)); eauto.
Qed.

Lemma joinLoop_returns (frags : list (list byte)) :
  forall (ret : list byte) (n : Z),
    0 <= n <= len ret ->
    exists out, joinLoop frags ret n = Done out.
Proof.
  induction frags as [| p rest IH]; intros ret n Hn; cbn [joinLoop];
    [eauto |].
  rewrite sliceFrom_ok by lia. cbn [bind]. unfold copy.
  pose proof (len_nonneg _ p) as Hp.
  apply IH.
  rewrite len_app, len_firstn, len_app, len_skipn by lia.
  rewrite len_firstn by lia.
  rewrite len_skipn by (rewrite len_skipn by lia; lia).
  rewrite len_skipn by lia. lia.
Qed.

(** [Decode] returns on every packet once the decoder went through
    [Init]. *)
Lemma Decode_returns (d : Decoder) (pkt : Packet) :
  timeDecoder d <> None ->
  exists d' r, Decode d pkt = Done (d', r).
Proof.
  intros Htd.
  destruct (len (Payload pkt) <? 5) eqn:E5.
  { unfold Decode. rewrite E5. eauto. }
  apply Z.ltb_ge in E5.
  destruct (Payload pkt) as [| r0 [| r1 [| o0 [| o1 [| e0 es]]]]] eqn:Hp;
    try (cbn in E5; lia).
  destruct (be16 r0 r1 =? 0) eqn:Ez.
  2:{ unfold Decode. rewrite Hp.
      replace (len (r0 :: r1 :: o0 :: o1 :: e0 :: es) <? 5) with false
        by (symmetry; apply Z.ltb_ge; exact E5).
      rewrite index_0, index_1. cbn [bind]. rewrite Ez. cbn [negb]. eauto. }
  apply Z.eqb_eq in Ez.
  rewrite (Decode_header d pkt r0 r1 o0 o1 e0 es Hp Ez).
  destruct (timeDecoder d) as [td |] eqn:Etd; [| contradiction].
  destruct (be16 o0 o1 =? 0) eqn:Eo.
  - destruct (frameLoop_returns (S (length (e0 :: es))) (e0 :: es)
                (mkDecoder (Some td) true [] 0 (fragmentsExpected d)) []
                (Nat.lt_succ_diag_r _)) as (d1 & r & Hr & Ht).
    rewrite Hr. cbn [bind]. destruct r as [err | frames]; [eauto |].
    unfold finish. rewrite Ht. cbn [timeDecoder].
    destruct (timeDecode td (Timestamp pkt)). eauto.
  - destruct (negb (be16 o0 o1 =? fragmentsSize d)) eqn:Es.
    + destruct (negb (firstPacketReceived d)); eauto.
    + apply negb_false_iff, Z.eqb_eq in Es. cbv zeta.
      destruct (fragmentsExpected d - len (e0 :: es) <? 0); [eauto |].
      destruct (0 <? fragmentsExpected d - len (e0 :: es)); [eauto |].
      pose proof (be16_range o0 o1) as Hr.
      pose proof (len_nonneg _ (e0 :: es)) as Hl.
      unfold joinFragments, make.
      destruct (fragmentsSize d + len (e0 :: es) <? 0) eqn:En;
        [apply Z.ltb_lt in En; lia |].
      cbn [bind].
      destruct (joinLoop_returns (fragments d ++ [e0 :: es])
                  (repeat x00 (Z.to_nat (fragmentsSize d + len (e0 :: es))))
                  0) as [out Hout].
      { pose proof (len_nonneg _
          (repeat x00 (Z.to_nat (fragmentsSize d + len (e0 :: es))))). lia. }
      rewrite Hout. cbn [bind]. unfold finish. cbn [timeDecoder discard].
      destruct (timeDecode td (Timestamp pkt)). eauto.
Qed.

End Returns.

End Decoder.

(** *** The theorems above on concrete packets *)

#[local] Existing Instance Instances.frameCodec.
#[local] Existing Instance Instances.timeDecoding.

(** A packet of offset zero that holds two complete frames, of 5 and 4
    bytes. *)
Example Decode_two_frames :
  Decode (Init zero)
    (Instances.audioPacket
       [x00; x00; x00; x00;
        xff; x00; x05; x01; x02;
        xff; x00; x04; x03]) =
  Done (mkDecoder (Some (Some 0)) true [] 0 0,
        Frames [[xff; x00; x05; x01; x02]; [xff; x00; x04; x03]] 0).
Proof. reflexivity. Qed.

Lemma Decode_two_fragments_witness :
  exists (d1 d2 : Decoder) (pts : Z),
    Decode (Init zero)
      (Instances.audioPacket ([x00; x00; x00; x00] ++ Instances.firstHalf)) =
    Done (d1, Failed ErrMorePacketsNeeded) /\
    fragments d1 = [Instances.firstHalf] /\
    fragmentsSize d1 = 100 /\
    fragmentsExpected d1 = 100 /\
    Decode d1
      (Instances.audioPacket ([x00; x00; x00; x64] ++ Instances.secondHalf)) =
    Done (d2, Frames [Instances.firstHalf ++ Instances.secondHalf] pts) /\
    len (Instances.firstHalf ++ Instances.secondHalf) = 200 /\
    fragments d2 = [] /\ fragmentsSize d2 = 0.
Proof.
  apply (Decode_two_fragments
           (codec := Instances.frameCodec) (clock := Instances.timeDecoding)
           (Instances.audioPacket ([x00; x00; x00; x00] ++ Instances.firstHalf))
           (Instances.audioPacket ([x00; x00; x00; x64] ++ Instances.secondHalf))
           Instances.firstHalf Instances.secondHalf 200);
    reflexivity.
Defined.

Lemma Decode_error_resets_witness :
  Decode Instances.midFrame
    (Instances.audioPacket [x00; x00; x00; x09; x05]) =
  Done (discard Instances.midFrame, Failed (ErrUnexpectedOffset 9 0)) /\
  fragments (discard Instances.midFrame) = [] /\
  fragmentsSize (discard Instances.midFrame) = 0.
Proof.
  split; [reflexivity |].
  apply (Decode_error_resets Instances.midFrame (discard Instances.midFrame)
           (Instances.audioPacket [x00; x00; x00; x09; x05])
           (ErrUnexpectedOffset 9 0)).
  - reflexivity.
  - right. left. exact I.
Defined.

Lemma Decode_too_short_witness :
  Decode Instances.midFrame (Instances.audioPacket [x00; x00; x00]) =
  Done (discard Instances.midFrame, Failed ErrPayloadTooShort) /\
  fragments (discard Instances.midFrame) = [] /\
  fragmentsSize (discard Instances.midFrame) = 0.
Proof.
  apply (proj1 (Decode_too_short Instances.midFrame
                  (Instances.audioPacket [x00; x00; x00]))).
  reflexivity.
Defined.

(** C7, as stated, fails on a payload that is the 4 header bytes and
    nothing else: its reserved bytes are zero and its length is 4, and
    [Decode] rejects it as too short. *)
Lemma Decode_rejects_bare_header :
  len (Payload (Instances.audioPacket [x00; x00; x00; x00])) = 4 /\
  be16 x00 x00 = 0 /\
  Decode (Init zero) (Instances.audioPacket [x00; x00; x00; x00]) =
  Done (Init zero, Failed ErrPayloadTooShort).
Proof. repeat split. Qed.

Lemma Decode_offset_mismatch_witness :
  Decode (Init zero) (Instances.audioPacket [x00; x00; x00; x07; x05]) =
  Done (Init zero, Failed ErrNonStartingPacketAndNoPrevious) /\
  Decode Instances.midFrame
    (Instances.audioPacket [x00; x00; x00; x09; x05]) =
  Done (discard Instances.midFrame, Failed (ErrUnexpectedOffset 9 0)).
Proof.
  split.
  - apply (proj1 (Decode_offset_mismatch (Init zero)
                    (Instances.audioPacket [x00; x00; x00; x07; x05])
                    x00 x00 x00 x07 x05 [] eq_refl eq_refl
                    ltac:(discriminate) ltac:(discriminate))).
    reflexivity.
  - apply (proj2 (Decode_offset_mismatch Instances.midFrame
                    (Instances.audioPacket [x00; x00; x00; x09; x05])
                    x00 x00 x00 x09 x05 [] eq_refl eq_refl
                    ltac:(discriminate) ltac:(discriminate))).
    left. reflexivity.
Defined.

(** C3, as stated, fails in two ways.

    On a payload that is a valid 4-byte header and nothing else.  The
    offset, 7, is neither zero nor the accumulated size, and the decoder
    never received a packet; [Decode] answers that the payload is too
    short, not that a starting fragment is missing.

    On a decoder that received whole frames only.  A first packet, of
    offset zero, holds one complete frame of 4 bytes: [Decode] returns the
    frame and buffers nothing, no fragment is pending before or after the
    call, so no reassembly ever started.  A second packet has offset 7,
    which is neither zero nor the accumulated size, 0.  [Decode] answers
    with the unexpected-offset error and not with
    [ErrNonStartingPacketAndNoPrevious]: what it tests is the flag
    [firstPacketReceived], which every packet of offset zero sets, whether
    or not it starts a reassembly. *)
Lemma Decode_offset_mismatch_off :
  (be16 x00 x00 = 0 /\
   be16 x00 x07 <> 0 /\
   be16 x00 x07 <> fragmentsSize (Init zero) /\
   firstPacketReceived (Init zero) = false /\
   Decode (Init zero) (Instances.audioPacket [x00; x00; x00; x07]) =
   Done (Init zero, Failed ErrPayloadTooShort) /\
   Decode (Init zero) (Instances.audioPacket [x00; x00; x00; x07]) <>
   Done (Init zero, Failed ErrNonStartingPacketAndNoPrevious)) /\
  (fragments (Init zero) = [] /\
   Decode (Init zero)
     (Instances.audioPacket [x00; x00; x00; x00; xff; x00; x04; x03]) =
   Done (mkDecoder (Some (Some 0)) true [] 0 0,
         Frames [[xff; x00; x04; x03]] 0) /\
   be16 x00 x07 <> 0 /\
   be16 x00 x07 <> fragmentsSize (mkDecoder (Some (Some 0)) true [] 0 0) /\
   Decode (mkDecoder (Some (Some 0)) true [] 0 0)
     (Instances.audioPacket [x00; x00; x00; x07; x05]) =
   Done (mkDecoder (Some (Some 0)) true [] 0 0,
         Failed (ErrUnexpectedOffset 7 0)) /\
   Decode (mkDecoder (Some (Some 0)) true [] 0 0)
     (Instances.audioPacket [x00; x00; x00; x07; x05]) <>
   Done (mkDecoder (Some (Some 0)) true [] 0 0,
         Failed ErrNonStartingPacketAndNoPrevious)).
Proof. repeat split; discriminate. Qed.

Lemma Decode_preserves_invariant_witness :
  invariant
    (mkDecoder (Some (Instances.timeDecoding.(NewDecoder) 90000)) true
               [Instances.firstHalf] 100 100).
Proof.
  apply (Decode_preserves_invariant (Init zero) _
           (Instances.audioPacket ([x00; x00; x00; x00] ++ Instances.firstHalf))
           (Failed ErrMorePacketsNeeded)).
  - apply invariant_Init.
  - reflexivity.
Defined.

End Mpeg2AudioFacts.

(** ** The RTP/AV1 encoder *)

Module Av1Facts.

Import Av1.

Section Encoder.

Context {codec : ObuCodec} {clock : TimeEncoding}.

Variable e : Encoder.
Variable ts ssrc : Z.
Hypothesis HSSRC : ESSRC e = Some ssrc.

(** The state after [finalizeCurPacket(true); createNewPacket(true)]: the
    current packet is closed with bit 6 set, and a packet that holds the
    flag byte [0x80] alone becomes the current one. *)
Definition roll (st : encState) : encState :=
  let cur := curPacket st in
  let flags := z2b (Z.lor (b2z (hd x00 (Payload cur))) 64) in
  mkState (closed st ++ [setPayload (flags :: tl (Payload cur)) cur])
          (mkPacket rtpVersion false (EPayloadType e) (seqNum st) ts ssrc
                    [x80])
          1 ((seqNum st + 1) mod 65536).

(** The state after an OBU, or what is left of one, went whole into the
    current packet. *)
Definition fit (st : encState) (obu : list byte) : encState :=
  addPayloadLen (len (LEB128Marshal (len obu)) + len obu)
    (appendPayload obu (appendPayload (LEB128Marshal (len obu)) st)).

(** The state after the current packet took the first [n] bytes of an
    OBU. *)
Definition fill (st : encState) (n : Z) (obu : list byte) : encState :=
  appendPayload (firstn (Z.to_nat n) obu)
    (appendPayload (LEB128Marshal n) st).

Lemma roll_run (B : Type) (k : encState -> run B) (st : encState) :
  Payload (curPacket st) <> [] ->
  (st1 <- finalizeCurPacket true st ;;
   st2 <- createNewPacket e ts true (packets st1) (seqNum st1) ;;
   k st2) =
  k (roll st).
Proof.
  intros Hne. unfold finalizeCurPacket, orFlag, orFirst.
  destruct (Payload (curPacket st)) as [| b t] eqn:Ep; [contradiction |].
  rewrite index_0. cbn [bind].
  unfold createNewPacket. rewrite HSSRC. cbn [deref bind].
  unfold orFlag, orFirst. cbn [Payload]. rewrite index_0. cbn [bind].
  unfold roll, packets. rewrite Ep. reflexivity.
Qed.

(** One iteration of the inner loop. *)
Lemma placeOBU_step (fuel : nat) (st : encState) (obu : list byte) :
  Payload (curPacket st) <> [] ->
  placeOBU (S fuel) e ts st obu =
  let avail := PayloadMaxSize e - curPayloadLen st in
  if len obu + 2 <=? avail then Done (fit st obu)
  else if 2 <? avail then
    placeOBU fuel e ts (roll (fill st (avail - 2) obu))
             (skipn (Z.to_nat (avail - 2)) obu)
  else placeOBU fuel e ts (roll st) obu.
Proof.
  intros Hne. cbn [placeOBU]. cbv zeta.
  destruct (len obu + 2 <=? PayloadMaxSize e - curPayloadLen st) eqn:Efit;
    [reflexivity |].
  apply Z.leb_gt in Efit.
  destruct (2 <? PayloadMaxSize e - curPayloadLen st) eqn:Eav.
  - apply Z.ltb_lt in Eav.
    rewrite sliceTo_ok, sliceFrom_ok by lia. cbn [bind].
    fold (fill st (PayloadMaxSize e - curPayloadLen st - 2) obu).
    apply roll_run.
    unfold fill, appendPayload. cbn [curPacket setPayload Payload].
    destruct (Payload (curPacket st)); [contradiction | discriminate].
  - cbn [bind]. apply roll_run. exact Hne.
Qed.

(** Reasoning rule for the inner loop: [P] holds of the state and of what
    is left of the OBU at the start of every iteration, [Q] of the state
    the loop returns. *)
Lemma placeOBU_rule (P : encState -> list byte -> Prop)
  (Q : encState -> Prop) :
  (forall st obu, P st obu -> Payload (curPacket st) <> []) ->
  (forall st obu,
      P st obu ->
      len obu + 2 <= PayloadMaxSize e - curPayloadLen st ->
      Q (fit st obu)) ->
  (forall st obu,
      P st obu ->
      PayloadMaxSize e - curPayloadLen st < len obu + 2 ->
      2 < PayloadMaxSize e - curPayloadLen st ->
      P (roll (fill st (PayloadMaxSize e - curPayloadLen st - 2) obu))
        (skipn (Z.to_nat (PayloadMaxSize e - curPayloadLen st - 2)) obu)) ->
  (forall st obu,
      P st obu ->
      PayloadMaxSize e - curPayloadLen st < len obu + 2 ->
      PayloadMaxSize e - curPayloadLen st <= 2 ->
      P (roll st) obu) ->
  forall (fuel : nat) (st : encState) (obu : list byte) (st' : encState),
    P st obu -> placeOBU fuel e ts st obu = Done st' -> Q st'.
Proof.
  intros Hne Hfit Hfill Hroll.
  induction fuel as [| fuel IH]; intros st obu st' HP H; [discriminate H |].
  rewrite placeOBU_step in H by (eapply Hne; exact HP). cbv zeta in H.
  destruct (len obu + 2 <=? PayloadMaxSize e - curPayloadLen st) eqn:Efit.
  - apply Z.leb_le in Efit. inversion H; subst. apply Hfit; assumption.
  - apply Z.leb_gt in Efit.
    destruct (2 <? PayloadMaxSize e - curPayloadLen st) eqn:Eav.
    + apply Z.ltb_lt in Eav. eapply IH; [| exact H].
      apply Hfill; assumption.
    + apply Z.ltb_ge in Eav. eapply IH; [| exact H].
      apply Hroll; assumption.
Qed.

(** The same rule for the outer loop, with an invariant [I] of the state
    between two OBUs. *)
Lemma placeAll_rule (I : encState -> Prop)
  (P : encState -> list byte -> Prop) :
  (forall st obu, I st -> P st obu) ->
  (forall st obu, P st obu -> Payload (curPacket st) <> []) ->
  (forall st obu,
      P st obu ->
      len obu + 2 <= PayloadMaxSize e - curPayloadLen st ->
      I (fit st obu)) ->
  (forall st obu,
      P st obu ->
      PayloadMaxSize e - curPayloadLen st < len obu + 2 ->
      2 < PayloadMaxSize e - curPayloadLen st ->
      P (roll (fill st (PayloadMaxSize e - curPayloadLen st - 2) obu))
        (skipn (Z.to_nat (PayloadMaxSize e - curPayloadLen st - 2)) obu)) ->
  (forall st obu,
      P st obu ->
      PayloadMaxSize e - curPayloadLen st < len obu + 2 ->
      PayloadMaxSize e - curPayloadLen st <= 2 ->
      P (roll st) obu) ->
  forall (obus : list (list byte)) (st st' : encState),
    I st -> placeAll e ts st obus = Done st' -> I st'.
Proof.
  intros HIP Hne Hfit Hfill Hroll.
  induction obus as [| obu rest IH]; intros st st' HI H; cbn [placeAll] in H.
  - inversion H; subst. exact HI.
  - destruct (placeOBU (length obu + 2) e ts st obu) as [st1 | |] eqn:E1;
      cbn [bind] in H; try discriminate H.
    eapply IH; [| exact H].
    eapply (placeOBU_rule P I); eauto.
Qed.

(** *** Headers and sequence numbers *)

(** A packet without its payload and its marker. *)
Definition hdr (p : Packet) : Packet :=
  mkPacket (Version p) false (PayloadType p) (SequenceNumber p)
           (Timestamp p) (SSRC p) [].

(** The header of the packet number [k] of a call that starts with the
    sequence counter at [s0]. *)
Definition hdrAt (s0 : Z) (k : nat) : Packet :=
  mkPacket rtpVersion false (EPayloadType e)
           ((s0 + Z.of_nat k) mod 65536) ts ssrc [].

Variable s0 : Z.

Definition headed (st : encState) : Prop :=
  map hdr (packets st) = map (hdrAt s0) (seq 0 (length (packets st))) /\
  seqNum st = (s0 + len (packets st)) mod 65536.

Lemma headed_append (bytes : list byte) (st : encState) :
  headed st -> headed (appendPayload bytes st).
Proof.
  unfold headed, appendPayload, packets. cbn [closed curPacket seqNum].
  rewrite !map_app, !length_app, !len_app. cbn [map length]. tauto.
Qed.

Lemma headed_fit (st : encState) (obu : list byte) :
  headed st -> headed (fit st obu).
Proof.
  intros H. unfold fit.
  apply (headed_append (LEB128Marshal (len obu))), (headed_append obu) in H.
  exact H.
Qed.

Lemma headed_roll (st : encState) : headed st -> headed (roll st).
Proof.
  unfold headed, roll, packets. cbn [closed curPacket seqNum].
  rewrite !map_app, !length_app, !len_app. cbn [map length].
  intros [Hm Hs]. split.
  - replace (length (closed st) + 1 + 1)%nat
      with (S (length (closed st) + 1)) by lia.
    rewrite seq_S, map_app. cbn [map]. f_equal.
    + exact Hm.
    + unfold hdr, hdrAt. cbn [Version PayloadType SequenceNumber Timestamp
                               SSRC]. rewrite Hs.
      do 2 f_equal. unfold len. cbn [length]. f_equal. lia.
  - rewrite Hs, Zplus_mod_idemp_l. f_equal. unfold len. cbn [length]. lia.
Qed.

(** *** Flag bytes *)

Definition closedFlag (k : nat) : byte := if Nat.eqb k 0 then x40 else xc0.
Definition curFlag (k : nat) : byte := if Nat.eqb k 0 then x00 else x80.

(** Every packet starts with its flag byte: bit 7 on all packets but the
    first, bit 6 on all packets but the current one. *)
Definition flagged (st : encState) : Prop :=
  Forall2 (fun k p => exists t, Payload p = closedFlag k :: t)
          (seq 0 (length (closed st))) (closed st) /\
  exists t, Payload (curPacket st) = curFlag (length (closed st)) :: t.

Lemma flagged_append (bytes : list byte) (st : encState) :
  flagged st -> flagged (appendPayload bytes st).
Proof.
  unfold flagged, appendPayload. cbn [closed curPacket setPayload Payload].
  intros [Hc [t Ht]]. split; [exact Hc |].
  exists (t ++ bytes). rewrite Ht. reflexivity.
Qed.

Lemma flagged_fit (st : encState) (obu : list byte) :
  flagged st -> flagged (fit st obu).
Proof.
  intros H. unfold fit.
  apply (flagged_append (LEB128Marshal (len obu))), (flagged_append obu) in H.
  exact H.
Qed.

Lemma flagged_roll (st : encState) : flagged st -> flagged (roll st).
Proof.
  unfold flagged, roll. cbn [closed curPacket Payload].
  intros [Hc [t Ht]]. rewrite length_app. cbn [length]. split.
  - replace (length (closed st) + 1)%nat with (S (length (closed st)))
      by lia.
    rewrite seq_S. apply Forall2_app; [exact Hc |].
    constructor; [| constructor].
    exists t. cbn [setPayload Payload]. rewrite Ht. cbn [hd tl].
    unfold curFlag, closedFlag. cbn [Nat.add].
    destruct (Nat.eqb (length (closed st)) 0); reflexivity.
  - exists []. unfold curFlag.
    replace (length (closed st) + 1)%nat with (S (length (closed st)))
      by lia.
    reflexivity.
Qed.

Lemma flagged_nonempty (st : encState) :
  flagged st -> Payload (curPacket st) <> [].
Proof. intros [_ [t Ht]]. rewrite Ht. discriminate. Qed.

(** *** The encoding state between two iterations *)

Definition wf (st : encState) : Prop := headed st /\ flagged st.

Lemma wf_placeAll (obus : list (list byte)) (st st' : encState) :
  wf st -> placeAll e ts st obus = Done st' -> wf st'.
Proof.
  apply (placeAll_rule wf (fun st _ => wf st)).
  - intros ? ? H. exact H.
  - intros ? ? [_ H]. apply flagged_nonempty. exact H.
  - intros ? ? [H1 H2] _. split; [apply headed_fit | apply flagged_fit];
      assumption.
  - intros ? ? [H1 H2] _ _. unfold fill. split.
    + apply headed_roll. do 2 apply headed_append. exact H1.
    + apply flagged_roll. do 2 apply flagged_append. exact H2.
  - intros ? ? [H1 H2] _ _. split;
      [apply headed_roll | apply flagged_roll]; assumption.
Qed.

Lemma flagged_placeAll (obus : list (list byte)) (st st' : encState) :
  flagged st -> placeAll e ts st obus = Done st' -> flagged st'.
Proof.
  apply (placeAll_rule flagged (fun st _ => flagged st)).
  - intros ? ? H. exact H.
  - intros ? ? H. apply flagged_nonempty. exact H.
  - intros ? ? H _. apply flagged_fit. exact H.
  - intros ? ? H _ _. unfold fill. apply flagged_roll.
    do 2 apply flagged_append. exact H.
  - intros ? ? H _ _. apply flagged_roll. exact H.
Qed.

(** The first packet of the list starts with a flag byte. *)
Lemma flagged_first (st : encState) :
  flagged st ->
  exists p rest b t, packets st = p :: rest /\ Payload p = b :: t.
Proof.
  intros [Hc [t Ht]]. unfold packets.
  destruct (closed st) as [| c cs].
  - exists (curPacket st), []. eauto.
  - cbn [length] in Hc. rewrite <- cons_seq in Hc.
    inversion Hc as [| ? ? ? ? [t' Ht'] _]; subst.
    exists c, (cs ++ [curPacket st]). eauto.
Qed.

(** *** Termination of the inner loop *)

Lemma roll_nonempty (st : encState) : Payload (curPacket (roll st)) <> [].
Proof. discriminate. Qed.

(** In a packet that holds its flag byte alone, with a maximum payload size
    of 3 or less, an OBU that does not fit never will: the loop opens
    packet after packet. *)
Lemma placeOBU_diverges (obu : list byte) :
  PayloadMaxSize e - 1 <= 2 ->
  PayloadMaxSize e - 1 < len obu + 2 ->
  forall (fuel : nat) (st : encState),
    Payload (curPacket st) <> [] ->
    curPayloadLen st = 1 ->
    placeOBU fuel e ts st obu = Timeout.
Proof.
  intros Hsmall Hbig.
  induction fuel as [| fuel IH]; intros st Hne Hcur; [reflexivity |].
  rewrite placeOBU_step by exact Hne. cbv zeta. rewrite Hcur.
  destruct (len obu + 2 <=? PayloadMaxSize e - 1) eqn:E1;
    [apply Z.leb_le in E1; lia |].
  destruct (2 <? PayloadMaxSize e - 1) eqn:E2;
    [apply Z.ltb_lt in E2; lia |].
  apply IH; [apply roll_nonempty | reflexivity].
Qed.

(** Iterations the inner loop can use on an OBU. *)
Definition budget (st : encState) (obu : list byte) : nat :=
  length obu + (if curPayloadLen st =? 1 then 1 else 2).

(** The fuel [placeAll] gives to the inner loop is enough: more fuel gives
    the same outcome, be it a state, a panic or no return at all. *)
Lemma placeOBU_fuel (n : nat) :
  forall (st : encState) (obu : list byte),
    Payload (curPacket st) <> [] ->
    (budget st obu <= n)%nat ->
    forall m : nat, (n <= m)%nat ->
      placeOBU m e ts st obu = placeOBU n e ts st obu.
Proof.
  unfold budget.
  induction n as [| n IH]; intros st obu Hne Hb m Hm.
  - destruct (curPayloadLen st =? 1); lia.
  - destruct m as [| m]; [lia |].
    rewrite !placeOBU_step by exact Hne. cbv zeta.
    destruct (len obu + 2 <=? PayloadMaxSize e - curPayloadLen st) eqn:E1;
      [reflexivity |].
    apply Z.leb_gt in E1.
    destruct (2 <? PayloadMaxSize e - curPayloadLen st) eqn:E2.
    + apply Z.ltb_lt in E2.
      apply IH; [apply roll_nonempty | | lia].
      cbn [roll curPayloadLen Z.eqb Pos.eqb]. rewrite length_skipn.
      unfold len in E1. destruct (curPayloadLen st =? 1); lia.
    + apply Z.ltb_ge in E2.
      destruct (curPayloadLen st =? 1) eqn:E3.
      * apply Z.eqb_eq in E3. rewrite E3 in E1, E2.
        rewrite !(placeOBU_diverges obu E2 E1);
          [reflexivity | apply roll_nonempty | reflexivity
          | apply roll_nonempty | reflexivity].
      * apply IH; [apply roll_nonempty | | lia].
        cbn [roll curPayloadLen Z.eqb Pos.eqb]. lia.
Qed.

(** With a maximum payload size of 4 or more the inner loop returns. *)
Lemma placeOBU_returns (fuel : nat) :
  4 <= PayloadMaxSize e ->
  forall (st : encState) (obu : list byte),
    Payload (curPacket st) <> [] ->
    (budget st obu <= fuel)%nat ->
    exists st', placeOBU fuel e ts st obu = Done st'.
Proof.
  intros Hmax. unfold budget.
  induction fuel as [| fuel IH]; intros st obu Hne Hb.
  - destruct (curPayloadLen st =? 1); lia.
  - rewrite placeOBU_step by exact Hne. cbv zeta.
    destruct (len obu + 2 <=? PayloadMaxSize e - curPayloadLen st) eqn:E1;
      [eauto |].
    apply Z.leb_gt in E1.
    destruct (2 <? PayloadMaxSize e - curPayloadLen st) eqn:E2.
    + apply Z.ltb_lt in E2.
      apply IH; [apply roll_nonempty |].
      cbn [roll curPayloadLen Z.eqb Pos.eqb]. rewrite length_skipn.
      unfold len in E1. destruct (curPayloadLen st =? 1); lia.
    + apply Z.ltb_ge in E2.
      destruct (curPayloadLen st =? 1) eqn:E3;
        [apply Z.eqb_eq in E3; lia |].
      apply IH; [apply roll_nonempty |].
      cbn [roll curPayloadLen Z.eqb Pos.eqb]. lia.
Qed.

Lemma placeAll_nonempty (obus : list (list byte)) (st st' : encState) :
  Payload (curPacket st) <> [] ->
  placeAll e ts st obus = Done st' ->
  Payload (curPacket st') <> [].
Proof.
  apply (placeAll_rule (fun st => Payload (curPacket st) <> [])
                       (fun st _ => Payload (curPacket st) <> [])).
  - intros ? ? H. exact H.
  - intros ? ? H. exact H.
  - intros st1 obu H _. unfold fit, appendPayload.
    cbn [addPayloadLen curPacket setPayload Payload].
    destruct (Payload (curPacket st1)); [contradiction | discriminate].
  - intros ? ? _ _ _. apply roll_nonempty.
  - intros ? ? _ _ _. apply roll_nonempty.
Qed.

Lemma placeAll_returns (obus : list (list byte)) :
  4 <= PayloadMaxSize e ->
  forall st : encState,
    Payload (curPacket st) <> [] ->
    exists st', placeAll e ts st obus = Done st'.
Proof.
  intros Hmax.
  induction obus as [| obu rest IH]; intros st Hne; cbn [placeAll];
    [eauto |].
  destruct (placeOBU_returns (length obu + 2) Hmax st obu Hne) as [st1 H1].
  { unfold budget. destruct (curPayloadLen st =? 1); lia. }
  rewrite H1. cbn [bind]. apply IH.
  apply (placeAll_nonempty [obu] st st1 Hne).
  cbn [placeAll]. rewrite H1. reflexivity.
Qed.

(** *** Payload sizes *)

Lemma len_retag (b : byte) (payload : list byte) :
  payload <> [] -> len (b :: tl payload) = len payload.
Proof.
  destruct payload; [contradiction |]. intros _. rewrite !len_cons.
  reflexivity.
Qed.

Lemma len_closing (st : encState) :
  Payload (curPacket st) <> [] ->
  exists p,
    closed (roll st) = closed st ++ [p] /\
    len (Payload p) = len (Payload (curPacket st)).
Proof.
  intros Hne. eexists. split; [reflexivity |].
  cbn [setPayload Payload]. apply len_retag. exact Hne.
Qed.

Lemma len_fill (st : encState) (n : Z) (obu : list byte) :
  0 <= n <= len obu ->
  len (Payload (curPacket (fill st n obu))) =
  len (Payload (curPacket st)) + len (LEB128Marshal n) + n.
Proof.
  intros Hn. unfold fill, appendPayload.
  cbn [curPacket setPayload Payload].
  rewrite !len_app, len_firstn by lia. lia.
Qed.

Lemma fill_nonempty (st : encState) (n : Z) (obu : list byte) :
  Payload (curPacket st) <> [] ->
  Payload (curPacket (fill st n obu)) <> [].
Proof.
  unfold fill, appendPayload. cbn [curPacket setPayload Payload].
  destruct (Payload (curPacket st)); [contradiction | discriminate].
Qed.

Section Sizes.

(** The size prefix of a length below [2^14] takes at most 2 bytes. *)
Hypothesis prefix_le_2 :
  forall v : Z, 0 <= v < 16384 -> len (LEB128Marshal v) <= 2.

Hypothesis max_range : 1 <= PayloadMaxSize e <= 16386.

Definition sized (st : encState) : Prop :=
  Forall (fun p => len (Payload p) <= PayloadMaxSize e) (closed st) /\
  len (Payload (curPacket st)) = curPayloadLen st /\
  1 <= curPayloadLen st <= PayloadMaxSize e.

Lemma sized_nonempty (st : encState) :
  sized st -> Payload (curPacket st) <> [].
Proof.
  intros (_ & Hl & Hc) Hnil. rewrite Hnil, len_nil in Hl. lia.
Qed.

Lemma sized_roll (st : encState) :
  Forall (fun p => len (Payload p) <= PayloadMaxSize e) (closed st) ->
  Payload (curPacket st) <> [] ->
  len (Payload (curPacket st)) <= PayloadMaxSize e ->
  sized (roll st).
Proof.
  intros Hc Hne Hl.
  destruct (len_closing st Hne) as (p & Hp & Hlp).
  unfold sized. rewrite Hp. repeat split.
  - apply Forall_app. split; [exact Hc |].
    constructor; [lia | constructor].
  - cbn. lia.
  - cbn [roll curPayloadLen]. lia.
Qed.

Lemma sized_placeAll (obus : list (list byte)) (st st' : encState) :
  sized st -> placeAll e ts st obus = Done st' -> sized st'.
Proof.
  apply (placeAll_rule sized (fun st _ => sized st)).
  - intros ? ? H. exact H.
  - intros ? ? H. apply sized_nonempty. exact H.
  - intros st1 obu (Hc & Hl & Hr) Hfit.
    pose proof (len_nonneg _ obu) as Ho.
    pose proof (prefix_le_2 (len obu)) as Hp.
    pose proof (len_nonneg _ (LEB128Marshal (len obu))) as Hq.
    unfold sized, fit, addPayloadLen, appendPayload.
    cbn [closed curPacket curPayloadLen setPayload Payload].
    rewrite !len_app. repeat split; [exact Hc | lia | lia | lia].
  - intros st1 obu (Hc & Hl & Hr) Hnofit Hav.
    pose proof (prefix_le_2 (PayloadMaxSize e - curPayloadLen st1 - 2)) as Hp.
    apply sized_roll.
    + exact Hc.
    + apply fill_nonempty, sized_nonempty. repeat split; assumption || lia.
    + rewrite len_fill by lia. lia.
  - intros st1 obu (Hc & Hl & Hr) _ _.
    apply sized_roll; [exact Hc | | lia].
    apply sized_nonempty. repeat split; assumption || lia.
Qed.

End Sizes.

(** A packet that holds its flag byte, the size prefix of a fragment and a
    fragment of [PayloadMaxSize - 3] bytes: what the loop closes when it
    cuts an OBU that started in a fresh packet. *)
Definition full (p : Packet) : Prop :=
  len (Payload p) =
  1 + len (LEB128Marshal (PayloadMaxSize e - 3)) + (PayloadMaxSize e - 3).

Lemma full_placeOBU (fuel : nat) (st st' : encState) (obu : list byte) :
  4 <= PayloadMaxSize e ->
  Forall full (closed st) ->
  curPayloadLen st = 1 ->
  len (Payload (curPacket st)) = 1 ->
  placeOBU fuel e ts st obu = Done st' ->
  Forall full (closed st').
Proof.
  intros Hmax Hc Hcur Hl.
  apply (placeOBU_rule
           (fun st _ => Forall full (closed st) /\ curPayloadLen st = 1 /\
                        len (Payload (curPacket st)) = 1)
           (fun st => Forall full (closed st))).
  - intros st1 ? (_ & _ & H1) Hnil. rewrite Hnil, len_nil in H1. lia.
  - intros st1 ? (H & _ & _) _. exact H.
  - intros st1 obu1 (H & H1 & H2) Hnofit Hav.
    assert (Hne : Payload (curPacket st1) <> []).
    { intros Hnil. rewrite Hnil, len_nil in H2. lia. }
    destruct (len_closing (fill st1 (PayloadMaxSize e - curPayloadLen st1 - 2)
                             obu1)) as (p & Hp & Hlp);
      [apply fill_nonempty; exact Hne |].
    rewrite Hp. repeat split; try reflexivity.
    apply Forall_app. split; [exact H |].
    constructor; [| constructor].
    unfold full. rewrite Hlp, len_fill, H1, H2 by lia.
    replace (PayloadMaxSize e - 1 - 2) with (PayloadMaxSize e - 3) by lia.
    lia.
  - intros st1 obu1 (_ & H1 & _) _ Hav. lia.
  - repeat split; assumption.
Qed.

End Encoder.

(** *** The end of [Encode] *)

(** The packets once bit 3 is set in the flag byte of the first one. *)
Definition tagFirst (l : list Packet) : list Packet :=
  match l with
  | [] => []
  | p :: rest =>
      setPayload (z2b (Z.lor (b2z (hd x00 (Payload p))) 8) :: tl (Payload p))
                 p :: rest
  end.

(** The packets once the marker of the last one is set. *)
Definition marked (l : list Packet) (d : Packet) : list Packet :=
  removelast l ++ [setMarker (last l d)].

Lemma flagFirst_run (p : Packet) (rest : list Packet) :
  Payload p <> [] -> flagFirst (p :: rest) = Done (tagFirst (p :: rest)).
Proof.
  intros Hne. unfold flagFirst, orFlag, orFirst. rewrite index_0.
  cbn [bind]. destruct (Payload p) as [| b t] eqn:Ep; [contradiction |].
  rewrite index_0. cbn [bind tl hd tagFirst]. rewrite Ep. reflexivity.
Qed.

Lemma index_last (A : Type) (l : list A) (d : A) :
  l <> [] -> index l (len l - 1) = Done (last l d).
Proof.
  intros Hne. unfold index.
  assert (Hl : 0 < len l).
  { destruct l; [contradiction |]. rewrite len_cons.
    pose proof (len_nonneg _ l). lia. }
  destruct (len l - 1 <? 0) eqn:E; [apply Z.ltb_lt in E; lia |].
  rewrite (app_removelast_last d Hne) at 1.
  rewrite nth_error_app2.
  - replace (Z.to_nat (len l - 1) - length (removelast l))%nat with 0%nat.
    + reflexivity.
    + rewrite (app_removelast_last d Hne) at 1.
      rewrite len_app. unfold len. cbn [length]. lia.
  - rewrite (app_removelast_last d Hne) at 2.
    rewrite len_app. unfold len. cbn [length]. lia.
Qed.

Lemma markLast_run (l : list Packet) (d : Packet) :
  l <> [] -> markLast l = Done (marked l d).
Proof.
  intros Hne. unfold markLast. rewrite (index_last _ l d Hne). reflexivity.
Qed.

Lemma tagFirst_length (l : list Packet) : length (tagFirst l) = length l.
Proof. destruct l; reflexivity. Qed.

Lemma marked_length (l : list Packet) (d : Packet) :
  l <> [] -> length (marked l d) = length l.
Proof.
  intros Hne. unfold marked.
  rewrite (app_removelast_last d Hne) at 3.
  rewrite !length_app. reflexivity.
Qed.

Lemma hdr_tagFirst (l : list Packet) : map hdr (tagFirst l) = map hdr l.
Proof. destruct l; reflexivity. Qed.

Lemma hdr_marked (l : list Packet) (d : Packet) :
  l <> [] -> map hdr (marked l d) = map hdr l.
Proof.
  intros Hne. unfold marked.
  rewrite (app_removelast_last d Hne) at 3.
  rewrite !map_app. reflexivity.
Qed.

Lemma sizes_tagFirst (p : Packet) (rest : list Packet) :
  Payload p <> [] -> sizes (tagFirst (p :: rest)) = sizes (p :: rest).
Proof.
  intros Hne. unfold sizes. cbn [tagFirst map setPayload Payload].
  rewrite len_retag by exact Hne. reflexivity.
Qed.

Lemma sizes_marked (l : list Packet) (d : Packet) :
  l <> [] -> sizes (marked l d) = sizes l.
Proof.
  intros Hne. unfold marked, sizes.
  rewrite (app_removelast_last d Hne) at 3.
  rewrite !map_app. reflexivity.
Qed.

Section Encode.

Context {codec : ObuCodec} {clock : TimeEncoding}.

(** The state after the first call of [createNewPacket]. *)
Definition start (e : Encoder) (ts ssrc : Z) : encState :=
  mkState []
          (mkPacket rtpVersion false (EPayloadType e) (sequenceNumber e) ts
                    ssrc [x00])
          1 ((sequenceNumber e + 1) mod 65536).

Lemma flagged_start (e : Encoder) (ts ssrc : Z) : flagged (start e ts ssrc).
Proof. split; [constructor | exists []; reflexivity]. Qed.

(** A call of [Encode] that returns packets, step by step. *)
Lemma Encode_done (e e' : Encoder) (obus : list (list byte)) (pts : Z)
  (pkts : list Packet) :
  Encode e obus pts = Done (e', inl pkts) ->
  exists (kf : bool) (te : TimeEncoder) (ssrc : Z) (st : encState),
    ContainsKeyFrame obus = inl kf /\
    timeEncoder e = Some te /\
    ESSRC e = Some ssrc /\
    placeAll e (timeEncode te pts) (start e (timeEncode te pts) ssrc) obus =
    Done st /\
    pkts = marked (if kf then tagFirst (packets st) else packets st)
                  (curPacket st) /\
    e' = mkEncoder (EPayloadType e) (ESSRC e) (InitialSequenceNumber e)
                   (InitialTimestamp e) (PayloadMaxSize e) (seqNum st)
                   (timeEncoder e).
Proof.
  intros H. unfold Encode in H.
  destruct (ContainsKeyFrame obus) as [kf | err] eqn:Ekf; [| discriminate H].
  destruct (timeEncoder e) as [te |] eqn:Ete; [| discriminate H].
  cbn [deref bind] in H. unfold createNewPacket in H.
  destruct (ESSRC e) as [ssrc |] eqn:Ess; [| discriminate H].
  cbn [deref bind] in H.
  fold (start e (timeEncode te pts) ssrc) in H.
  destruct (placeAll e (timeEncode te pts) (start e (timeEncode te pts) ssrc)
              obus) as [st | |] eqn:Est; cbn [bind finalizeCurPacket] in H;
    try discriminate H.
  exists kf, te, ssrc, st.
  pose proof (flagged_placeAll e (timeEncode te pts) ssrc Ess obus _ _
                (flagged_start e _ ssrc) Est) as Hfl.
  destruct (flagged_first st Hfl) as (p & rest & b & t & Hp & Hb).
  assert (Hrun : (if kf then flagFirst (packets st) else Done (packets st)) =
                 Done (if kf then tagFirst (packets st) else packets st)).
  { destruct kf; [| reflexivity]. rewrite Hp. apply flagFirst_run.
    rewrite Hb. discriminate. }
  rewrite Hrun in H. cbn [bind] in H.
  rewrite (markLast_run _ (curPacket st)) in H.
  - cbn [bind] in H. inversion H; subst.
    repeat split; (assumption || reflexivity).
  - destruct kf; rewrite Hp; discriminate.
Qed.

Lemma headed_start (e : Encoder) (ts ssrc : Z) :
  0 <= sequenceNumber e < 65536 ->
  headed e ts ssrc (sequenceNumber e) (start e ts ssrc).
Proof.
  intros Hr. unfold headed, start, packets, hdr, hdrAt. cbn.
  rewrite Z.add_0_r, Z.mod_small by lia. split; reflexivity.
Qed.

Lemma map_seq_nth (A B : Type) (f : A -> B) (g : nat -> B) (l : list A) :
  forall (a k : nat) (x : A),
    map f l = map g (seq a (length l)) ->
    nth_error l k = Some x ->
    f x = g (a + k)%nat.
Proof.
  induction l as [| y l IH]; intros a k x Hm Hk.
  - destruct k; discriminate Hk.
  - cbn [map length seq] in Hm. inversion Hm as [[Hy Hl]].
    destruct k as [| k]; cbn [nth_error] in Hk.
    + inversion Hk; subst. rewrite Nat.add_0_r. exact Hy.
    + rewrite (IH (S a) k x Hl Hk). f_equal. lia.
Qed.

Lemma map_removelast (A B : Type) (f : A -> B) (l : list A) :
  map f (removelast l) = removelast (map f l).
Proof.
  induction l as [| x [| y l] IH]; [reflexivity | reflexivity |].
  cbn [removelast map] in *. rewrite IH. reflexivity.
Qed.

Lemma packets_nonempty (st : encState) : packets st <> [].
Proof. unfold packets. destruct (closed st); discriminate. Qed.

Lemma final_nonempty (kf : bool) (st : encState) :
  (if kf then tagFirst (packets st) else packets st) <> [].
Proof.
  pose proof (packets_nonempty st) as H.
  destruct kf; [| exact H]. destruct (packets st); [contradiction |].
  discriminate.
Qed.

Lemma final_length (kf : bool) (st : encState) :
  length (marked (if kf then tagFirst (packets st) else packets st)
                 (curPacket st)) =
  length (packets st).
Proof.
  rewrite marked_length by apply final_nonempty.
  destruct kf; [apply tagFirst_length | reflexivity].
Qed.

Lemma final_hdr (kf : bool) (st : encState) :
  map hdr (marked (if kf then tagFirst (packets st) else packets st)
                  (curPacket st)) =
  map hdr (packets st).
Proof.
  rewrite hdr_marked by apply final_nonempty.
  destruct kf; [apply hdr_tagFirst | reflexivity].
Qed.

Lemma final_sizes (kf : bool) (st : encState) :
  flagged st ->
  sizes (marked (if kf then tagFirst (packets st) else packets st)
                (curPacket st)) =
  sizes (packets st).
Proof.
  intros Hfl. rewrite sizes_marked by apply final_nonempty.
  destruct kf; [| reflexivity].
  destruct (flagged_first st Hfl) as (p & rest & b & t & Hp & Hb).
  rewrite Hp. apply sizes_tagFirst. rewrite Hb. discriminate.
Qed.

(** [Init] sets the sequence counter to the initial sequence number, and
    the maximum payload size to 1460 when it is not set. *)
Lemma Init_sequenceNumber (r1 r2 r3 : Z) (e : Encoder) :
  InitialSequenceNumber (Init r1 r2 r3 e) =
  Some (sequenceNumber (Init r1 r2 r3 e)).
Proof. reflexivity. Qed.

Lemma Init_PayloadMaxSize (r1 r2 r3 : Z) (e : Encoder) :
  PayloadMaxSize (Init r1 r2 r3 e) =
  if PayloadMaxSize e =? 0 then 1460 else PayloadMaxSize e.
Proof. reflexivity. Qed.

(** C10.  A call of [Encode] that returns packets returns at least one.
    The packet number [k] of the call carries the sequence number
    [(s + k) mod 2^16], where [s] is the sequence counter of the encoder
    before the call; the counter after the call is [s] plus the number of
    packets, modulo [2^16], and [Init] sets it to the initial sequence
    number.  All the packets carry the timestamp that the time encoder gives
    for [pts], the SSRC and the payload type of the encoder, and version
    2. *)
Theorem Encode_headers (e e' : Encoder) (obus : list (list byte)) (pts : Z)
  (pkts : list Packet) :
  0 <= sequenceNumber e < 65536 ->
  Encode e obus pts = Done (e', inl pkts) ->
  pkts <> [] /\
  sequenceNumber e' = (sequenceNumber e + len pkts) mod 65536 /\
  (exists (te : TimeEncoder) (ssrc : Z),
      timeEncoder e = Some te /\
      ESSRC e = Some ssrc /\
      forall (k : nat) (p : Packet),
        nth_error pkts k = Some p ->
        SequenceNumber p = (sequenceNumber e + Z.of_nat k) mod 65536 /\
        Timestamp p = timeEncode te pts /\
        SSRC p = ssrc /\
        PayloadType p = EPayloadType e /\
        Version p = 2) /\
  (forall (r1 r2 r3 : Z) (e0 : Encoder),
      InitialSequenceNumber (Init r1 r2 r3 e0) =
      Some (sequenceNumber (Init r1 r2 r3 e0))).
Proof.
  intros Hr H.
  destruct (Encode_done e e' obus pts pkts H)
    as (kf & te & ssrc & st & Hkf & Hte & Hss & Hst & Hp & He).
  assert (Hwf : wf e (timeEncode te pts) ssrc (sequenceNumber e) st).
  { apply (wf_placeAll e _ ssrc Hss _ obus (start e (timeEncode te pts) ssrc));
      [| exact Hst].
    split; [apply headed_start; exact Hr | apply flagged_start]. }
  destruct Hwf as [[Hm Hs] _].
  assert (Hlen : length pkts = length (packets st))
    by (rewrite Hp; apply final_length).
  assert (Hhdr : map hdr pkts = map hdr (packets st))
    by (rewrite Hp; apply final_hdr).
  split; [| split; [| split]].
  - intros Hnil. rewrite Hnil in Hlen. symmetry in Hlen.
    apply length_zero_iff_nil in Hlen. exact (packets_nonempty st Hlen).
  - rewrite He. cbn [sequenceNumber]. rewrite Hs. unfold len.
    rewrite Hlen. reflexivity.
  - exists te, ssrc. split; [exact Hte |]. split; [exact Hss |].
    intros k p Hk. rewrite <- Hhdr, <- Hlen in Hm.
    pose proof (map_seq_nth _ _ _ _ pkts 0 k p Hm Hk) as Hf.
    unfold hdr, hdrAt in Hf. cbn [Nat.add] in Hf.
    injection Hf as Hv Hpt Hsn Hts Hsr.
    repeat split; assumption.
  - intros. apply Init_sequenceNumber.
Qed.

Lemma closed_grows (e : Encoder) (ts ssrc : Z) (fuel : nat)
  (st st' : encState) (obu : list byte) :
  ESSRC e = Some ssrc ->
  Payload (curPacket st) <> [] ->
  placeOBU fuel e ts st obu = Done st' ->
  (length (closed st) <= length (closed st'))%nat.
Proof.
  intros Hss Hne.
  apply (placeOBU_rule e ts ssrc Hss
           (fun st1 _ => Payload (curPacket st1) <> [] /\
                         (length (closed st) <= length (closed st1))%nat)
           (fun st1 => (length (closed st) <= length (closed st1))%nat)).
  - intros ? ? [H _]. exact H.
  - intros ? ? [_ H] _. exact H.
  - intros st1 ? [_ H] _ _. split; [apply roll_nonempty |].
    cbn [roll closed fill appendPayload]. rewrite length_app. lia.
  - intros st1 ? [_ H] _ _. split; [apply roll_nonempty |].
    cbn [roll closed]. rewrite length_app. lia.
  - split; [exact Hne | lia].
Qed.

Lemma sized_start (e : Encoder) (ts ssrc : Z) :
  1 <= PayloadMaxSize e -> sized e (start e ts ssrc).
Proof.
  intros Hmax. unfold sized, start. cbn. repeat split; try lia.
  constructor.
Qed.

Lemma sizes_packets (st : encState) :
  sizes (packets st) =
  sizes (closed st) ++ [len (Payload (curPacket st))].
Proof. unfold sizes, packets. rewrite map_app. reflexivity. Qed.

(** C4, amended.  With a maximum payload size from 1 to 16386, the default
    of 1460 included, no packet that [Encode] returns has a payload longer
    than the maximum.  When the call is given one OBU longer than the
    maximum, it returns more than one packet, and every packet but the last
    has a payload of exactly the maximum size if the maximum is 131 or
    more, and of one byte less if the maximum is below 131, where the size
    prefix of a fragment takes one byte of the two the encoder reserves. *)
Theorem Encode_payload_bound (e e' : Encoder) (obus : list (list byte))
  (pts : Z) (pkts : list Packet) :
  (forall v : Z, 0 <= v < 16384 ->
                 len (LEB128Marshal v) = if v <? 128 then 1 else 2) ->
  1 <= PayloadMaxSize e <= 16386 ->
  Encode e obus pts = Done (e', inl pkts) ->
  Forall (fun p => len (Payload p) <= PayloadMaxSize e) pkts /\
  (forall obu : list byte,
      obus = [obu] ->
      PayloadMaxSize e < len obu ->
      removelast pkts <> [] /\
      Forall (fun p => len (Payload p) =
                       if PayloadMaxSize e <? 131 then PayloadMaxSize e - 1
                       else PayloadMaxSize e)
             (removelast pkts)) /\
  (forall (r1 r2 r3 : Z) (e0 : Encoder),
      PayloadMaxSize e0 = 0 -> PayloadMaxSize (Init r1 r2 r3 e0) = 1460).
Proof.
  intros Hleb Hmax H.
  destruct (Encode_done e e' obus pts pkts H)
    as (kf & te & ssrc & st & Hkf & Hte & Hss & Hst & Hp & He).
  set (ts := timeEncode te pts) in *.
  pose proof (flagged_placeAll e ts ssrc Hss obus _ _
                (flagged_start e ts ssrc) Hst) as Hfl.
  assert (Hsz : sizes pkts = sizes (packets st))
    by (rewrite Hp; apply final_sizes; exact Hfl).
  assert (Hle2 : forall v : Z, 0 <= v < 16384 -> len (LEB128Marshal v) <= 2).
  { intros v Hv. rewrite (Hleb v Hv). destruct (v <? 128); lia. }
  split; [| split].
  - pose proof (sized_placeAll e ts ssrc Hss Hle2 Hmax obus _ _
                  (sized_start e ts ssrc (proj1 Hmax)) Hst)
      as (Hc & Hl & Hr).
    apply (Forall_map (fun p => len (Payload p))
                      (fun n => n <= PayloadMaxSize e)).
    fold (sizes pkts). rewrite Hsz, sizes_packets.
    apply Forall_app. split.
    + apply Forall_map. exact Hc.
    + constructor; [lia | constructor].
  - intros obu -> Hbig.
    cbn [placeAll] in Hst.
    destruct (placeOBU (length obu + 2) e ts (start e ts ssrc) obu)
      as [st1 | |] eqn:E1; cbn [bind] in Hst; try discriminate Hst.
    inversion Hst; subst st1; clear Hst.
    assert (H4 : 4 <= PayloadMaxSize e).
    { destruct (Z_lt_le_dec (PayloadMaxSize e) 4) as [Hlt | Hge];
        [| exact Hge].
      rewrite (placeOBU_diverges e ts ssrc Hss obu) in E1;
        [discriminate E1 | lia | lia | discriminate | reflexivity]. }
    assert (Hfull : Forall (full e) (closed st)).
    { apply (full_placeOBU e ts ssrc Hss (length obu + 2)
               (start e ts ssrc) st obu H4);
        [constructor | reflexivity | reflexivity | exact E1]. }
    assert (Hgrow : (1 <= length (closed st))%nat).
    { replace (length obu + 2)%nat with (S (length obu + 1)) in E1 by lia.
      rewrite (placeOBU_step e ts ssrc Hss) in E1 by discriminate.
      cbv zeta in E1. cbn [start curPayloadLen] in E1.
      destruct (len obu + 2 <=? PayloadMaxSize e - 1) eqn:F1;
        [apply Z.leb_le in F1; lia |].
      destruct (2 <? PayloadMaxSize e - 1) eqn:F2;
        [| apply Z.ltb_ge in F2; lia].
      apply (closed_grows e ts ssrc _ _ _ _ Hss (roll_nonempty _ _ _ _)) in E1.
      cbn [roll closed fill appendPayload] in E1.
      rewrite length_app in E1. cbn [length] in E1. lia. }
    assert (Hrl : sizes (removelast pkts) = sizes (closed st)).
    { unfold sizes at 1. rewrite map_removelast. fold (sizes pkts).
      rewrite Hsz, sizes_packets. apply removelast_last. }
    split.
    + intros Hnil. rewrite Hnil in Hrl. cbn in Hrl.
      destruct (closed st); [cbn in Hgrow; lia | discriminate Hrl].
    + apply (Forall_map (fun p => len (Payload p))
               (fun n => n = if PayloadMaxSize e <? 131
                             then PayloadMaxSize e - 1
                             else PayloadMaxSize e)).
      fold (sizes (removelast pkts)). rewrite Hrl.
      apply Forall_map. revert Hfull. apply Forall_impl.
      intros p Hp'. unfold full in Hp'. rewrite Hp'.
      rewrite (Hleb (PayloadMaxSize e - 3)) by lia.
      destruct (PayloadMaxSize e - 3 <? 128) eqn:G1;
        destruct (PayloadMaxSize e <? 131) eqn:G2;
        try apply Z.ltb_lt in G1; try apply Z.ltb_ge in G1;
        try apply Z.ltb_lt in G2; try apply Z.ltb_ge in G2; lia.
  - intros r1 r2 r3 e0 H0. rewrite Init_PayloadMaxSize, H0. reflexivity.
Qed.

(** With a maximum payload size of 4 or more, [Encode] returns packets
    whenever the keyframe test succeeds and the encoder went through
    [Init]. *)
Lemma Encode_returns (e : Encoder) (obus : list (list byte)) (pts : Z)
  (kf : bool) (te : TimeEncoder) (ssrc : Z) :
  4 <= PayloadMaxSize e ->
  ContainsKeyFrame obus = inl kf ->
  timeEncoder e = Some te ->
  ESSRC e = Some ssrc ->
  exists e' pkts, Encode e obus pts = Done (e', inl pkts).
Proof.
  intros Hmax Hkf Hte Hss. unfold Encode. rewrite Hkf, Hte.
  cbn [deref bind]. unfold createNewPacket. rewrite Hss.
  cbn [deref bind].
  fold (start e (timeEncode te pts) ssrc).
  destruct (placeAll_returns e (timeEncode te pts) ssrc Hss obus Hmax
              (start e (timeEncode te pts) ssrc)) as [st Hst];
    [discriminate |].
  rewrite Hst. cbn [bind finalizeCurPacket].
  pose proof (flagged_placeAll e _ ssrc Hss obus _ _
                (flagged_start e _ ssrc) Hst) as Hfl.
  destruct (flagged_first st Hfl) as (p & rest & b & t & Hp & Hb).
  assert (Hrun : (if kf then flagFirst (packets st) else Done (packets st)) =
                 Done (if kf then tagFirst (packets st) else packets st)).
  { destruct kf; [| reflexivity]. rewrite Hp. apply flagFirst_run.
    rewrite Hb. discriminate. }
  rewrite Hrun. cbn [bind].
  rewrite (markLast_run _ (curPacket st)) by apply final_nonempty.
  cbn [bind]. eauto.
Qed.

(** *** Marker and flag bytes *)

Lemma unmarked_placeAll (e : Encoder) (ts ssrc : Z)
  (obus : list (list byte)) (st st' : encState) :
  ESSRC e = Some ssrc ->
  Payload (curPacket st) <> [] ->
  Forall (fun p => Marker p = false) (packets st) ->
  placeAll e ts st obus = Done st' ->
  Forall (fun p => Marker p = false) (packets st').
Proof.
  intros Hss Hne Hm H.
  cut (Payload (curPacket st') <> [] /\
       Forall (fun p => Marker p = false) (packets st')); [tauto |].
  revert H.
  apply (placeAll_rule e ts ssrc Hss
           (fun st => Payload (curPacket st) <> [] /\
                      Forall (fun p => Marker p = false) (packets st))
           (fun st _ => Payload (curPacket st) <> [] /\
                        Forall (fun p => Marker p = false) (packets st))).
  - intros ? ? H. exact H.
  - intros ? ? [H _]. exact H.
  - intros st1 obu [H1 H2] _. split.
    + unfold fit, appendPayload.
      cbn [addPayloadLen curPacket setPayload Payload].
      destruct (Payload (curPacket st1)); [contradiction | discriminate].
    + unfold packets in *. apply Forall_app in H2. destruct H2 as [Hc Hl].
      apply Forall_app. split; [exact Hc |].
      inversion Hl; subst. constructor; [assumption | constructor].
  - intros st1 obu [H1 H2] _ _. split; [apply roll_nonempty |].
    unfold packets in *. apply Forall_app in H2. destruct H2 as [Hc Hl].
    inversion Hl; subst.
    cbn [roll closed curPacket fill appendPayload].
    repeat (apply Forall_app; split); try assumption;
      (constructor; [assumption || reflexivity | constructor]).
  - intros st1 obu [H1 H2] _ _. split; [apply roll_nonempty |].
    unfold packets in *. apply Forall_app in H2. destruct H2 as [Hc Hl].
    inversion Hl; subst. cbn [roll closed curPacket].
    repeat (apply Forall_app; split); try assumption;
      (constructor; [assumption || reflexivity | constructor]).
  - split; assumption.
Qed.

Lemma marked_snoc (l : list Packet) (x d : Packet) :
  marked (l ++ [x]) d = l ++ [setMarker x].
Proof. unfold marked. rewrite removelast_last, last_last. reflexivity. Qed.

Lemma Forall2_seq_impl (R R' : nat -> Packet -> Prop) (l : list Packet) :
  forall a : nat,
    (forall k p, (a <= k < a + length l)%nat -> R k p -> R' k p) ->
    Forall2 R (seq a (length l)) l ->
    Forall2 R' (seq a (length l)) l.
Proof.
  induction l as [| x l IH]; intros a Himp H; cbn [length seq] in *.
  - constructor.
  - inversion H; subst. constructor.
    + apply Himp; [lia | assumption].
    + apply IH; [| assumption].
      intros k p Hk. apply Himp. lia.
Qed.

(** X11.  What [Encode] does with the marker and the flag byte: the marker
    is set on the last packet alone, bit 3 on the first packet alone and
    only for a keyframe, bit 6 on every packet but the last and bit 7 on
    every packet but the first, whether or not an OBU was cut at the packet
    boundary. *)
Lemma Encode_flag_bytes (e e' : Encoder) (obus : list (list byte)) (pts : Z)
  (pkts : list Packet) (kf : bool) :
  Encode e obus pts = Done (e', inl pkts) ->
  ContainsKeyFrame obus = inl kf ->
  map Marker pkts =
  map (fun k => Nat.eqb k (length pkts - 1)) (seq 0 (length pkts)) /\
  Forall2 (fun k p =>
             exists t, Payload p =
                       flagByte kf (Nat.eqb k 0)
                                (Nat.eqb k (length pkts - 1)) :: t)
          (seq 0 (length pkts)) pkts.
Proof.
  intros H Hkf.
  destruct (Encode_done e e' obus pts pkts H)
    as (kf' & te & ssrc & st & Hkf' & Hte & Hss & Hst & Hp & He).
  rewrite Hkf in Hkf'. inversion Hkf'; subst kf'. clear Hkf'.
  set (ts := timeEncode te pts) in *.
  pose proof (flagged_placeAll e ts ssrc Hss obus _ _
                (flagged_start e ts ssrc) Hst) as [Hfc [t Hft]].
  assert (Hum : Forall (fun p => Marker p = false) (packets st)).
  { apply (unmarked_placeAll e ts ssrc obus (start e ts ssrc) st Hss);
      [discriminate | | exact Hst].
    constructor; [reflexivity | constructor]. }
  unfold packets in Hum. apply Forall_app in Hum. destruct Hum as [Hmc Hml].
  inversion Hml as [| ? ? Hmcur _]; subst.
  (* the packets returned: the closed ones and the current one, marked *)
  assert (Hshape :
    exists (c : list Packet) (x : Packet) (tx : list byte),
      marked (if kf then tagFirst (packets st) else packets st)
             (curPacket st) = c ++ [setMarker x] /\
      length c = length (closed st) /\
      Forall (fun p => Marker p = false) c /\
      Payload x = flagByte kf (Nat.eqb (length c) 0) true :: tx /\
      Forall2 (fun k p =>
                 exists t, Payload p = flagByte kf (Nat.eqb k 0) false :: t)
              (seq 0 (length c)) c).
  { unfold packets. destruct kf.
    - destruct (closed st) as [| c0 cs] eqn:Ec.
      + exists [], (setPayload
                     (z2b (Z.lor (b2z (hd x00 (Payload (curPacket st)))) 8)
                      :: tl (Payload (curPacket st))) (curPacket st)), t.
        cbn [app tagFirst].
        split; [reflexivity |]. repeat split; try constructor.
        cbn [setPayload Payload]. rewrite Hft. reflexivity.
      + cbn [length] in Hfc. rewrite <- cons_seq in Hfc.
        inversion Hfc as [| ? ? ? ? [t0 Ht0] Hrest]; subst.
        exists (setPayload (z2b (Z.lor (b2z (hd x00 (Payload c0))) 8)
                            :: tl (Payload c0)) c0 :: cs),
               (curPacket st), t.
        cbn [app tagFirst].
        inversion Hmc; subst.
        split; [apply (marked_snoc (_ :: cs)) |].
        repeat split.
        * constructor; [cbn; assumption | assumption].
        * rewrite Hft. reflexivity.
        * cbn [length]. rewrite <- cons_seq. constructor.
          -- exists t0. cbn [setPayload Payload]. rewrite Ht0. reflexivity.
          -- revert Hrest. apply Forall2_seq_impl.
             intros k p Hk [t1 Ht1]. exists t1. rewrite Ht1.
             unfold closedFlag, flagByte.
             destruct k; [lia | reflexivity].
    - exists (closed st), (curPacket st), t.
      rewrite marked_snoc. repeat split; try assumption.
      + rewrite Hft. unfold curFlag, flagByte.
        destruct (Nat.eqb (length (closed st)) 0); reflexivity.
      + replace (seq 0 (length (closed st)))
          with (seq 0 (length (closed st))) by reflexivity.
        revert Hfc. apply Forall2_seq_impl.
        intros k p Hk [t1 Ht1]. exists t1. rewrite Ht1.
        unfold closedFlag, flagByte. destruct (Nat.eqb k 0); reflexivity. }
  destruct Hshape as (c & x & tx & Hpk & Hlc & Hmc' & Hx & Hc).
  rewrite Hpk, length_app. cbn [length].
  replace (length c + 1 - 1)%nat with (length c) by lia.
  replace (length c + 1)%nat with (S (length c)) by lia.
  rewrite seq_S. cbn [Nat.add]. split.
  - rewrite !map_app. cbn [map setMarker Marker].
    rewrite Nat.eqb_refl. f_equal.
    assert (Hgen : forall (l : list Packet) (n a : nat),
               (a + length l <= n)%nat ->
               Forall (fun p => Marker p = false) l ->
               map Marker l =
               map (fun k => Nat.eqb k n) (seq a (length l))).
    { induction l as [| y l IH]; intros n a Hn Hf; [reflexivity |].
      inversion Hf as [| ? ? Hy Hl']; subst. cbn [map length seq] in *.
      f_equal.
      - rewrite Hy. symmetry. apply Nat.eqb_neq. lia.
      - apply IH; [lia | assumption]. }
    apply Hgen; [lia | assumption].
  - apply Forall2_app.
    + revert Hc. apply Forall2_seq_impl.
      intros k p Hk [t1 Ht1]. exists t1. rewrite Ht1.
      replace (Nat.eqb k (length c)) with false; [reflexivity |].
      symmetry. apply Nat.eqb_neq. lia.
    + constructor; [| constructor].
      exists tx. cbn [setMarker Payload]. rewrite Hx, Nat.eqb_refl.
      reflexivity.
Qed.

End Encode.

(** *** The size prefix of the instances *)

Lemma leb128_length (v : Z) :
  0 <= v < 16384 ->
  len (Instances.leb128 v) = if v <? 128 then 1 else 2.
Proof.
  intros Hv. unfold Instances.leb128.
  cbn [Instances.leb128_from].
  rewrite !Z.shiftr_div_pow2 by lia. change (2 ^ 7) with 128.
  destruct (v <? 128) eqn:E.
  - apply Z.ltb_lt in E. rewrite Z.div_small by lia. reflexivity.
  - apply Z.ltb_ge in E.
    destruct (v / 128 <=? 0) eqn:E1.
    + apply Z.leb_le in E1.
      assert (1 <= v / 128) by (apply Z.div_le_lower_bound; lia). lia.
    + rewrite Z.div_div by lia. rewrite Z.div_small by lia. reflexivity.
Qed.

(** *** The theorems above on concrete calls *)

#[local] Existing Instance Instances.obuCodec.
#[local] Existing Instance Instances.timeEncoding.

(** Runs [Encode] on a concrete call and names the equation [Hr]. *)
Ltac run_encode e obus pts Hr :=
  let r := fresh "r" in
  pose (r := Encode e obus pts);
  assert (Hr : Encode e obus pts = r) by (vm_compute; reflexivity);
  vm_compute in r; subst r.

Lemma Encode_headers_witness :
  exists (e' : Encoder) (pkts : list Packet),
    Encode (Instances.encoder 65535 10) [Instances.frame 20] 7 =
    Done (e', inl pkts) /\
    pkts <> [] /\
    sequenceNumber e' = (65535 + len pkts) mod 65536 /\
    map SequenceNumber pkts = [65535; 0; 1] /\
    map Timestamp pkts = [10; 10; 10].
Proof.
  run_encode (Instances.encoder 65535 10) [Instances.frame 20] 7 Hr.
  match type of Hr with
  | _ = Done (?e', inl ?pkts) =>
      exists e', pkts; split; [exact Hr |];
      destruct (Encode_headers (Instances.encoder 65535 10) e'
                  [Instances.frame 20] 7 pkts ltac:(cbn; lia) Hr)
        as (Hne & Hseq & _)
  end.
  split; [exact Hne |]. split; [exact Hseq |]. split; reflexivity.
Defined.

Lemma Encode_payload_bound_witness :
  exists (e' : Encoder) (pkts : list Packet),
    Encode (Instances.encoder 2 0) [Instances.sequenceHeader 3000] 0 =
    Done (e', inl pkts) /\
    Forall (fun p => len (Payload p) <= 1460) pkts /\
    removelast pkts <> [] /\
    Forall (fun p => len (Payload p) = 1460) (removelast pkts) /\
    sizes pkts = [1460; 1460; 88].
Proof.
  run_encode (Instances.encoder 2 0) [Instances.sequenceHeader 3000] 0 Hr.
  match type of Hr with
  | _ = Done (?e', inl ?pkts) =>
      exists e', pkts; split; [exact Hr |];
      destruct (Encode_payload_bound (codec := Instances.obuCodec)
                  (Instances.encoder 2 0) e'
                  [Instances.sequenceHeader 3000] 0 pkts leb128_length
                  ltac:(cbn; lia) Hr)
        as (Hall & Hone & _)
  end.
  split; [exact Hall |].
  destruct (Hone (Instances.sequenceHeader 3000) eq_refl
              ltac:(vm_compute; reflexivity)) as (Hne & Hfull).
  split; [exact Hne |]. split; [exact Hfull | vm_compute; reflexivity].
Defined.

(** C4, as stated, fails for small and for large maximum payload sizes.
    With a maximum of 100, an OBU of 200 bytes goes into packets of 99, 99
    and 8 bytes: the size prefix of a fragment of 97 bytes takes one byte
    and the encoder reserved two.  With a maximum of 16387, an OBU of 16384
    bytes goes into one packet of 16388 bytes: its size prefix takes three
    bytes. *)
Lemma Encode_payload_sizes_off :
  (exists (e' : Encoder) (pkts : list Packet),
      Encode (Instances.encoder 2 100) [Instances.frame 200] 0 =
      Done (e', inl pkts) /\
      len (Instances.frame 200) = 200 /\
      sizes pkts = [99; 99; 8]) /\
  (exists (e' : Encoder) (pkts : list Packet),
      Encode (Instances.encoder 2 16387) [Instances.frame 16384] 0 =
      Done (e', inl pkts) /\
      len (Instances.frame 16384) = 16384 /\
      sizes pkts = [16388]).
Proof.
  split; eexists; eexists; (split; [vm_compute; reflexivity |]);
    split; vm_compute; reflexivity.
Qed.

(** C6 on two OBUs of 1456 and 10 bytes, with the default maximum payload
    size.  The first OBU and its size prefix leave one byte free in the
    first packet, which is not enough for a fragment of the second OBU: the
    second OBU goes whole into the second packet.  The first packet is
    nevertheless closed with bit 6 set ([0x48] is [0x40 | 0x08]) and the
    second packet opened with bit 7 set, as if the second OBU continued
    the first. *)
Theorem Encode_flags_without_fragment :
  Encode (Instances.encoder 2 0)
         [Instances.sequenceHeader 1456; Instances.frame 10] 0 =
  Done (mkEncoder 96 (Some 1) (Some 2) (Some 3) 1460 4 (Some 3),
        inl [mkPacket 2 false 96 2 3 1
               (x48 :: Instances.leb128 1456 ++ Instances.sequenceHeader 1456);
             mkPacket 2 true 96 3 3 1
               (x80 :: Instances.leb128 10 ++ Instances.frame 10)]).
Proof. vm_compute. reflexivity. Qed.

End Av1Facts.

(** ** Streams of audio packets *)

Module Mpeg2AudioStreamFacts.

Import Mpeg2Audio Mpeg2AudioStream Mpeg2AudioFacts.

Lemma b2z_z2b (z : Z) : b2z (z2b z) = z mod 256.
Proof.
  unfold b2z, z2b.
  pose proof (Z.mod_pos_bound z 256 ltac:(lia)) as Hm.
  destruct (Byte.of_N (Z.to_N (z mod 256))) as [b |] eqn:E.
  - apply Byte.to_of_N in E. rewrite E. lia.
  - apply Byte.of_N_None_iff in E. lia.
Qed.

(** The two offset bytes of [header] read back as the offset. *)
Lemma be16_header (offset : Z) :
  0 <= offset < 65536 ->
  be16 (z2b (Z.shiftr offset 8)) (z2b offset) = offset.
Proof.
  intros Hr. unfold be16. rewrite !b2z_z2b.
  assert (Hhi : 0 <= Z.shiftr offset 8 < 256).
  { rewrite Z.shiftr_div_pow2 by lia. change (2 ^ 8) with 256.
    split; [apply Z.div_pos; lia | apply Z.div_lt_upper_bound; lia]. }
  rewrite (Z.mod_small (Z.shiftr offset 8)) by lia.
  change 256 with (2 ^ 8).
  apply Z.bits_inj'. intros n Hn.
  rewrite Z.lor_spec.
  destruct (Z_lt_le_dec n 8) as [Hlt | Hge].
  - rewrite Z.shiftl_spec_low by lia.
    rewrite Z.mod_pow2_bits_low by lia. reflexivity.
  - rewrite Z.shiftl_spec by lia.
    rewrite Z.mod_pow2_bits_high by lia.
    rewrite Z.shiftr_spec by lia. rewrite orb_false_r. f_equal. lia.
Qed.

Lemma header_0 : header 0 = [x00; x00; x00; x00].
Proof. reflexivity. Qed.

Section Stream.

Context {codec : FrameCodec} {clock : TimeDecoding}.

(** *** [joinFragments] *)

Lemma firstn_exact (A : Type) (l1 l2 : list A) (n : nat) :
  n = length l1 -> firstn n (l1 ++ l2) = l1.
Proof.
  intros ->. replace (length l1) with (length l1 + 0)%nat by lia.
  rewrite firstn_app_2, firstn_O, app_nil_r. reflexivity.
Qed.

Lemma skipn_exact (A : Type) (l1 l2 : list A) (n k : nat) :
  n = (length l1 + k)%nat -> skipn n (l1 ++ l2) = skipn k l2.
Proof.
  intros ->. rewrite skipn_app, skipn_all2 by lia.
  cbn [app]. f_equal. lia.
Qed.

Lemma joinLoop_spec (frags : list (list byte)) :
  forall (ret : list byte) (n : nat),
    (n <= length ret)%nat ->
    joinLoop frags ret (Z.of_nat n) =
    Done (firstn (length ret)
            (firstn n ret ++ concat frags ++
             skipn (n + length (concat frags)) ret)).
Proof.
  induction frags as [| p rest IH]; intros ret n Hn; cbn [joinLoop concat].
  - cbn [app length]. rewrite Nat.add_0_r, firstn_skipn, firstn_all.
    reflexivity.
  - rewrite sliceFrom_ok by (unfold len; lia). cbn [bind].
    rewrite Nat2Z.id. unfold copy.
    remember (Nat.min (length ret - n) (length p)) as c eqn:Hc.
    assert (Hmin : Z.min (len (skipn n ret)) (len p) = Z.of_nat c).
    { unfold len. rewrite length_skipn. lia. }
    rewrite Hmin, Nat2Z.id, <- Nat2Z.inj_add.
    assert (HA : length (firstn n ret) = n) by (rewrite length_firstn; lia).
    assert (HB : length (firstn c p) = c) by (rewrite length_firstn; lia).
    assert (Hlen : length (firstn n ret ++ firstn c p ++
                           skipn c (skipn n ret)) = length ret).
    { rewrite !length_app, HA, HB, !length_skipn. lia. }
    rewrite IH by lia. rewrite Hlen. f_equal.
    rewrite (app_assoc (firstn n ret) (firstn c p)) at 1.
    rewrite (firstn_exact _ (firstn n ret ++ firstn c p))
      by (rewrite length_app; lia).
    rewrite (app_assoc (firstn n ret) (firstn c p)
               (skipn c (skipn n ret))).
    rewrite (skipn_exact _ (firstn n ret ++ firstn c p) _ _
               (length (concat rest)))
      by (rewrite length_app; lia).
    rewrite !skipn_skipn, length_app.
    destruct (Nat.le_gt_cases (length p) (length ret - n)) as [Hfit | Hcut].
    + (* the fragment fits *)
      assert (Hcp : c = length p) by lia.
      rewrite Hcp, (firstn_all2 p) by lia.
      replace (length (concat rest) + length p + n)%nat
        with (n + (length p + length (concat rest)))%nat by lia.
      rewrite <- !app_assoc. reflexivity.
    + (* the fragment is cut at the end of the buffer *)
      assert (Hcp : c = (length ret - n)%nat) by lia.
      rewrite (firstn_exact _ (firstn n ret ++ firstn c p))
        by (rewrite length_app; lia).
      replace (length ret) with (length (firstn n ret) + c)%nat by lia.
      rewrite firstn_app_2. f_equal.
      rewrite <- app_assoc, firstn_app.
      replace (c - length p)%nat with 0%nat by lia.
      rewrite firstn_O, app_nil_r. reflexivity.
Qed.

Lemma firstn_repeat_le (a b : nat) :
  (a <= b)%nat -> firstn a (repeat x00 b) = repeat x00 a.
Proof.
  intros Hab. replace b with (a + (b - a))%nat by lia.
  rewrite repeat_app. apply firstn_exact. rewrite repeat_length. reflexivity.
Qed.

Lemma skipn_repeat_le (a b : nat) :
  (a <= b)%nat -> skipn a (repeat x00 b) = repeat x00 (b - a).
Proof.
  intros Hab. replace b with (a + (b - a))%nat at 1 by lia.
  rewrite repeat_app.
  rewrite (skipn_exact _ (repeat x00 a) _ a 0)
    by (rewrite repeat_length; lia).
  reflexivity.
Qed.

(** The buffer [joinFragments] returns, in closed form. *)
Lemma joinFragments_buffer (frags : list (list byte)) (size : Z) :
  joinFragments frags size =
  if size <? 0 then Panic
  else Done (firstn (Z.to_nat size)
               (concat frags ++ repeat x00 (Z.to_nat size))).
Proof.
  unfold joinFragments, make.
  destruct (size <? 0) eqn:E; [reflexivity |].
  apply Z.ltb_ge in E. cbn [bind].
  pose proof (joinLoop_spec frags (repeat x00 (Z.to_nat size)) 0
                ltac:(lia)) as Hj.
  cbn [Z.of_nat] in Hj. rewrite Hj.
  rewrite repeat_length. cbn [firstn app Nat.add]. f_equal.
  set (k := Z.to_nat size).
  destruct (Nat.le_gt_cases k (length (concat frags))) as [Hle | Hgt].
  - rewrite !firstn_app.
    replace (k - length (concat frags))%nat with 0%nat by lia.
    rewrite !firstn_O. reflexivity.
  - transitivity (concat frags ++ repeat x00 (k - length (concat frags))).
    + cbn [Nat.add]. rewrite skipn_repeat_le by lia.
      apply firstn_all2. rewrite length_app, repeat_length. lia.
    + symmetry. rewrite firstn_app, (firstn_all2 (concat frags)) by lia.
      f_equal. apply firstn_repeat_le. lia.
Qed.

(** X1.  [joinFragments] returns a buffer of [size] bytes that holds the
    fragments one after the other, cut at [size] bytes or followed by zero
    bytes up to [size]; it panics on a negative size. *)
Theorem joinFragments_spec (frags : list (list byte)) (size : Z) :
  joinFragments frags size =
  if size <? 0 then Panic
  else Done (firstn (Z.to_nat size)
               (concat frags ++ repeat x00 (Z.to_nat size))).
Proof. exact (joinFragments_buffer frags size). Qed.

Lemma nonempty_len_aux (l : list byte) : l <> [] -> 0 < len l.
Proof.
  destruct l; [contradiction |]. intros _. rewrite len_cons.
  pose proof (len_nonneg _ l). lia.
Qed.

(** *** Fragments at the expected offset *)

Lemma consistent_Init : consistent (Init zero).
Proof. reflexivity. Qed.

Lemma Decode_consistent (d d' : Decoder) (pkt : Packet) (r : result) :
  consistent d -> Decode d pkt = Done (d', r) -> consistent d'.
Proof.
  unfold consistent. intros Hc H. apply Decode_post in H.
  destruct H as [_ -> | _ _ [Hf Hs] | part h _ _ _ Hf Hs _ _
                 | part _ _ Hf Hs _ _ _].
  - exact Hc.
  - rewrite Hf, Hs. reflexivity.
  - rewrite Hf, Hs. cbn [concat]. rewrite app_nil_r. reflexivity.
  - rewrite Hf, Hs, concat_app, len_app, Hc. cbn [concat].
    rewrite app_nil_r. reflexivity.
Qed.

Lemma header_payload (offset : Z) (e0 : byte) (es : list byte) :
  header offset ++ e0 :: es =
  x00 :: x00 :: z2b (Z.shiftr offset 8) :: z2b offset :: e0 :: es.
Proof. reflexivity. Qed.

(** A fragment at the expected offset, by the number of bytes it brings. *)
Lemma Decode_expected_offset (d : Decoder) (pkt : Packet) (td : TimeDecoder)
  (offset : Z) (e0 : byte) (es : list byte) :
  Payload pkt = header offset ++ e0 :: es ->
  0 < offset < 65536 ->
  offset = fragmentsSize d ->
  timeDecoder d = Some td ->
  consistent d ->
  Decode d pkt =
  let bl := len (e0 :: es) in
  let left := fragmentsExpected d - bl in
  if left <? 0 then
    Done (mkDecoder (Some td) (firstPacketReceived d) [] 0 left,
          Failed ErrFragmentTooBig)
  else if 0 <? left then
    Done (mkDecoder (Some td) (firstPacketReceived d)
                    (fragments d ++ [e0 :: es]) (offset + bl) left,
          Failed ErrMorePacketsNeeded)
  else
    Done (mkDecoder (Some (fst (timeDecode td (Timestamp pkt))))
                    (firstPacketReceived d) [] 0 left,
          Frames [concat (fragments d) ++ e0 :: es]
                 (snd (timeDecode td (Timestamp pkt)))).
Proof.
  intros Hp Ho Hs Htd Hc. rewrite header_payload in Hp.
  rewrite (Decode_header d pkt _ _ _ _ e0 es Hp eq_refl).
  rewrite (be16_header offset) by lia.
  destruct (offset =? 0) eqn:E0; [apply Z.eqb_eq in E0; lia |].
  rewrite <- Hs, Z.eqb_refl. cbn [negb]. cbv zeta. rewrite Htd.
  destruct (fragmentsExpected d - len (e0 :: es) <? 0); [reflexivity |].
  destruct (0 <? fragmentsExpected d - len (e0 :: es)); [reflexivity |].
  rewrite joinFragments_exact.
  - cbn [bind]. unfold finish. cbn [timeDecoder discard].
    rewrite concat_app. cbn [concat]. rewrite app_nil_r.
    destruct (timeDecode td (Timestamp pkt)). reflexivity.
  - rewrite concat_app, len_app. cbn [concat]. rewrite app_nil_r.
    unfold consistent in Hc. lia.
Qed.

(** X2.  In a decoder whose accumulated size is the size of its pending
    fragments, a packet whose offset is that size is handled by the number
    of bytes it brings: more than expected, the reassembly is dropped with
    [ErrFragmentTooBig]; fewer, the bytes are appended and
    [ErrMorePacketsNeeded] is returned; exactly as many, one frame is
    returned, the pending fragments followed by these bytes, and nothing is
    left pending. *)
Theorem Decode_at_offset (d : Decoder) (pkt : Packet) (td : TimeDecoder)
  (offset : Z) (e0 : byte) (es : list byte) :
  Payload pkt = header offset ++ e0 :: es ->
  0 < offset < 65536 ->
  offset = fragmentsSize d ->
  timeDecoder d = Some td ->
  consistent d ->
  Decode d pkt =
  let bl := len (e0 :: es) in
  let left := fragmentsExpected d - bl in
  if left <? 0 then
    Done (mkDecoder (Some td) (firstPacketReceived d) [] 0 left,
          Failed ErrFragmentTooBig)
  else if 0 <? left then
    Done (mkDecoder (Some td) (firstPacketReceived d)
                    (fragments d ++ [e0 :: es]) (offset + bl) left,
          Failed ErrMorePacketsNeeded)
  else
    Done (mkDecoder (Some (fst (timeDecode td (Timestamp pkt))))
                    (firstPacketReceived d) [] 0 left,
          Frames [concat (fragments d) ++ e0 :: es]
                 (snd (timeDecode td (Timestamp pkt)))).
Proof. exact (Decode_expected_offset d pkt td offset e0 es). Qed.

(** *** Packets of offset zero *)

Lemma Decode_start (d : Decoder) (pkt : Packet) (buf : list byte) :
  Payload pkt = header 0 ++ buf ->
  buf <> [] ->
  Decode d pkt =
  r <- frameLoop (S (length buf))
         (mkDecoder (timeDecoder d) true [] 0 (fragmentsExpected d)) buf [] ;;
  match r with
  | (d, inl err) => Done (d, Failed err)
  | (d, inr frames) => finish d frames pkt
  end.
Proof.
  intros Hp Hne. destruct buf as [| e0 es]; [contradiction |].
  rewrite header_0 in Hp.
  rewrite (Decode_header d pkt x00 x00 x00 x00 e0 es Hp eq_refl).
  reflexivity.
Qed.

Lemma framedBefore_length (tail : list byte) (frames : list (list byte)) :
  framedBefore tail frames -> (length frames <= length (concat frames))%nat.
Proof.
  induction frames as [| f rest IH]; intros H; [cbn; lia |].
  destruct H as (Hne & _ & Hrest). cbn [concat length].
  rewrite length_app. specialize (IH Hrest).
  destruct f; [contradiction |]. cbn [length]. lia.
Qed.

(** The loop on a buffer that starts with complete frames: it takes them
    one by one, and returns them when nothing follows. *)
Lemma frameLoop_frames (tail : list byte) (frames : list (list byte)) :
  forall (acc : list (list byte)) (fuel : nat) (d : Decoder),
    frames <> [] ->
    framedBefore tail frames ->
    (length (concat frames ++ tail) < fuel)%nat ->
    frameLoop fuel d (concat frames ++ tail) acc =
    if len tail =? 0 then Done (d, inr (acc ++ frames))
    else frameLoop (fuel - length frames) d tail (acc ++ frames).
Proof.
  induction frames as [| f rest IH]; intros acc fuel d Hne Hfr Hfuel;
    [contradiction |].
  destruct Hfr as (Hf & (h & Hh & Hfl) & Hrest).
  destruct fuel as [| fuel]; [lia |].
  cbn [concat] in *. rewrite <- app_assoc in *.
  cbn [frameLoop]. rewrite Hh, Hfl.
  pose proof (len_nonneg _ f) as Hf0.
  pose proof (len_nonneg _ (concat rest ++ tail)) as Hx0.
  destruct (len f <=? len (f ++ concat rest ++ tail)) eqn:E;
    [| apply Z.leb_gt in E; rewrite len_app in E; lia].
  rewrite sliceTo_ok, sliceFrom_ok by (rewrite len_app; lia).
  cbn [bind].
  rewrite (firstn_exact _ f) by (unfold len; lia).
  rewrite (skipn_exact _ f _ _ 0) by (unfold len; lia).
  cbn [skipn].
  destruct rest as [| f2 rest2].
  - cbn [concat app length Nat.sub]. rewrite Nat.sub_0_r.
    destruct (len tail =? 0); reflexivity.
  - assert (Hpos : 0 < len (concat (f2 :: rest2) ++ tail)).
    { destruct Hrest as (Hf2 & _). cbn [concat].
      rewrite !len_app. pose proof (nonempty_len_aux f2 Hf2).
      pose proof (len_nonneg _ (concat rest2)).
      pose proof (len_nonneg _ tail). lia. }
    destruct (len (concat (f2 :: rest2) ++ tail) =? 0) eqn:E0;
      [apply Z.eqb_eq in E0; lia |].
    rewrite IH.
    + rewrite <- app_assoc. reflexivity.
    + discriminate.
    + exact Hrest.
    + rewrite length_app in Hfuel. destruct f; [contradiction |].
      cbn [length] in Hfuel. lia.
Qed.

(** A packet of offset zero made of complete frames. *)
Lemma Decode_whole_frames (d : Decoder) (td : TimeDecoder) (pkt : Packet)
  (frames : list (list byte)) :
  timeDecoder d = Some td ->
  frames <> [] ->
  framedBefore [] frames ->
  Payload pkt = header 0 ++ concat frames ->
  Decode d pkt =
  Done (mkDecoder (Some (fst (timeDecode td (Timestamp pkt)))) true [] 0
                  (fragmentsExpected d),
        Frames frames (snd (timeDecode td (Timestamp pkt)))).
Proof.
  intros Htd Hne Hfr Hp.
  assert (Hbuf : concat frames <> []).
  { pose proof (framedBefore_length _ _ Hfr) as Hl.
    destruct frames; [contradiction |].
    intros Hnil. rewrite Hnil in Hl. cbn in Hl. lia. }
  rewrite (Decode_start d pkt (concat frames) Hp Hbuf).
  pose proof (frameLoop_frames [] frames [] (S (length (concat frames)))
                (mkDecoder (timeDecoder d) true [] 0 (fragmentsExpected d))
                Hne Hfr) as Hloop.
  rewrite app_nil_r in Hloop. rewrite Hloop by lia.
  cbn [len length Z.of_nat Z.eqb app bind].
  unfold finish. cbn [timeDecoder firstPacketReceived fragments
                      fragmentsSize fragmentsExpected].
  rewrite Htd. destruct (timeDecode td (Timestamp pkt)). reflexivity.
Qed.

(** X4.  A packet of offset zero whose elementary stream is a sequence of
    complete frames, each starting with a header that declares its length:
    [Decode] returns these frames, in order, whatever the decoder held
    before, and leaves nothing pending. *)
Theorem Decode_frames (d : Decoder) (td : TimeDecoder) (pkt : Packet)
  (frames : list (list byte)) :
  timeDecoder d = Some td ->
  frames <> [] ->
  framedBefore [] frames ->
  Payload pkt = header 0 ++ concat frames ->
  Decode d pkt =
  Done (mkDecoder (Some (fst (timeDecode td (Timestamp pkt)))) true [] 0
                  (fragmentsExpected d),
        Frames frames (snd (timeDecode td (Timestamp pkt)))).
Proof. exact (Decode_whole_frames d td pkt frames). Qed.

(** X5.  A packet of offset zero gives all its frames or none.  When
    complete frames are followed by bytes in which no header is found,
    [Decode] returns the error of the header parser; when they are followed
    by the beginning of a frame, it returns [ErrInvalidPacket].  In both
    cases the complete frames are not returned and nothing is left
    pending. *)
Theorem Decode_frames_then_rest (d : Decoder) (pkt : Packet)
  (frames : list (list byte)) (tail : list byte) (r : result) :
  frames <> [] ->
  framedBefore tail frames ->
  tail <> [] ->
  Payload pkt = header 0 ++ concat frames ++ tail ->
  match Unmarshal tail with
  | inr err => r = Failed (ErrFrameHeader err)
  | inl h => len tail < FrameLen h /\ r = Failed ErrInvalidPacket
  end ->
  Decode d pkt =
  Done (mkDecoder (timeDecoder d) true [] 0 (fragmentsExpected d), r).
Proof.
  intros Hne Hfr Htail Hp Hr.
  rewrite (Decode_start d pkt (concat frames ++ tail) Hp)
    by (destruct (concat frames); [exact Htail | discriminate]).
  rewrite (frameLoop_frames tail frames) by (assumption || lia).
  pose proof (nonempty_len_aux tail Htail) as Ht.
  destruct (len tail =? 0) eqn:E0; [apply Z.eqb_eq in E0; lia |].
  pose proof (framedBefore_length _ _ Hfr) as Hl.
  rewrite length_app.
  destruct (S (length (concat frames) + length tail) - length frames)%nat
    as [| k] eqn:Ek; [lia |].
  cbn [frameLoop].
  destruct (Unmarshal tail) as [h | err].
  - destruct Hr as [Hlt ->].
    destruct (FrameLen h <=? len tail) eqn:Efl;
      [apply Z.leb_le in Efl; lia |].
    destruct frames as [| f rest]; [contradiction |].
    cbn [app len length]. reflexivity.
  - subst r. reflexivity.
Qed.

(** *** A frame in pieces *)

Lemma nonempty_len (A : Type) (l : list A) : l <> [] -> 0 < len l.
Proof.
  destruct l; [contradiction |]. intros _. rewrite len_cons.
  pose proof (len_nonneg _ l). lia.
Qed.

Lemma concat_nonempty_len (chunks : list (list byte)) :
  chunks <> [] -> Forall (fun c => c <> []) chunks ->
  0 < len (concat chunks).
Proof.
  destruct chunks as [| c rest]; [contradiction |]. intros _ Hf.
  inversion Hf; subst. cbn [concat]. rewrite len_app.
  pose proof (nonempty_len _ c H1). pose proof (len_nonneg _ (concat rest)).
  lia.
Qed.

(** The pieces after the first one. *)
Lemma decodeAll_continue (td : TimeDecoder) (more : list (list byte)) :
  forall (d : Decoder) (pkts : list Packet),
    more <> [] ->
    Forall (fun c => c <> []) more ->
    timeDecoder d = Some td ->
    consistent d ->
    0 < fragmentsSize d ->
    fragmentsExpected d = len (concat more) ->
    fragmentsSize d + len (concat more) < 65536 ->
    Forall2 carries pkts (combine (offsets (fragmentsSize d) more) more) ->
    exists d' pts,
      decodeAll d pkts =
      Done (d', repeat (Failed ErrMorePacketsNeeded) (length more - 1) ++
                [Frames [concat (fragments d) ++ concat more] pts]) /\
      fragments d' = [] /\ fragmentsSize d' = 0.
Proof.
  induction more as [| c rest IH]; intros d pkts Hne Hall Htd Hc Hpos He Hlt Hp;
    [contradiction |].
  inversion Hall as [| ? ? Hcne Hrest]; subst.
  cbn [offsets combine] in Hp.
  inversion Hp as [| pkt ? ps ? Hcar Hps]; subst.
  unfold carries in Hcar. cbn [fst snd] in Hcar.
  destruct c as [| e0 es]; [contradiction |].
  cbn [concat] in He, Hlt. rewrite len_app in He, Hlt.
  pose proof (len_nonneg _ (concat rest)) as Hr0.
  pose proof (nonempty_len _ (e0 :: es) Hcne) as Hc0.
  cbn [decodeAll].
  rewrite (Decode_expected_offset d pkt td (fragmentsSize d) e0 es Hcar
             ltac:(lia) eq_refl Htd Hc).
  cbv zeta. rewrite He.
  replace (len (e0 :: es) + len (concat rest) - len (e0 :: es))
    with (len (concat rest)) by lia.
  destruct (len (concat rest) <? 0) eqn:E1; [apply Z.ltb_lt in E1; lia |].
  destruct rest as [| c2 rest2].
  - (* the last piece *)
    cbn [concat len length Z.of_nat Z.ltb Z.compare bind fst snd].
    inversion Hps; subst. cbn [decodeAll bind fst snd length Nat.sub repeat app].
    rewrite app_nil_r. eexists. eexists. repeat split.
  - (* a piece in the middle *)
    assert (Hpos2 : 0 < len (concat (c2 :: rest2)))
      by (apply concat_nonempty_len; [discriminate | assumption]).
    destruct (0 <? len (concat (c2 :: rest2))) eqn:E2;
      [| apply Z.ltb_ge in E2; lia].
    cbn [bind fst snd].
    edestruct (IH (mkDecoder (Some td) (firstPacketReceived d)
                     (fragments d ++ [e0 :: es])
                     (fragmentsSize d + len (e0 :: es))
                     (len (concat (c2 :: rest2)))) ps)
      as (d' & pts & Hrun & Hf & Hs).
    + discriminate.
    + assumption.
    + reflexivity.
    + unfold consistent in *. cbn [fragments fragmentsSize].
      rewrite concat_app, len_app. cbn [concat]. rewrite app_nil_r. lia.
    + cbn [fragmentsSize]. lia.
    + reflexivity.
    + cbn [fragmentsSize]. lia.
    + exact Hps.
    + rewrite Hrun. cbn [bind fst snd]. exists d', pts.
      cbn [fragments] in *. split; [| split; assumption].
      do 2 f_equal.
      cbn [length Nat.sub]. rewrite Nat.sub_0_r.
      rewrite concat_app. cbn [concat]. rewrite app_nil_r, <- !app_assoc.
      cbn [app repeat]. reflexivity.
Qed.

(** X3.  A frame cut in any number of non-empty pieces and sent in packets
    with zero reserved bytes and the offsets of the pieces, the first piece
    starting with a header that declares the length of the frame: whatever
    the decoder held before, [Decode] returns [ErrMorePacketsNeeded] on
    every packet but the last and the frame on the last, byte for byte, and
    leaves nothing pending. *)
Theorem decodeAll_reassembles (d : Decoder) (td : TimeDecoder)
  (pkts : list Packet) (first : list byte) (more : list (list byte))
  (h : FrameHeader) :
  timeDecoder d = Some td ->
  Forall (fun c => c <> []) (first :: more) ->
  Unmarshal first = inl h ->
  FrameLen h = len (concat (first :: more)) ->
  len (concat (first :: more)) < 65536 ->
  Forall2 carries pkts (combine (offsets 0 (first :: more)) (first :: more)) ->
  exists d' pts,
    decodeAll d pkts =
    Done (d', repeat (Failed ErrMorePacketsNeeded) (length more) ++
              [Frames [concat (first :: more)] pts]) /\
    fragments d' = [] /\ fragmentsSize d' = 0.
Proof.
  intros Htd Hall Hh Hfl Hlt Hp.
  inversion Hall as [| ? ? Hfne Hmore]; subst.
  cbn [offsets combine] in Hp.
  inversion Hp as [| pkt ? ps ? Hcar Hps]; subst.
  unfold carries in Hcar. cbn [fst snd] in Hcar.
  destruct first as [| e0 es]; [contradiction |].
  rewrite header_0 in Hcar.
  cbn [concat] in Hfl, Hlt. rewrite len_app in Hfl, Hlt.
  pose proof (len_nonneg _ (concat more)) as Hm0.
  destruct more as [| c2 rest2].
  - (* one piece: the whole frame *)
    inversion Hps; subst.
    assert (Hfr : framedBefore [] [e0 :: es]).
    { cbn [framedBefore concat app]. rewrite app_nil_r.
      split; [discriminate |]. split; [| exact I].
      exists h. split; [exact Hh |].
      rewrite Hfl. change (len (@concat byte [])) with 0. lia. }
    assert (Hpay : Payload pkt = header 0 ++ concat [e0 :: es]).
    { cbn [concat]. rewrite app_nil_r. exact Hcar. }
    cbn [decodeAll].
    rewrite (Decode_whole_frames d td pkt [e0 :: es] Htd ltac:(discriminate)
               Hfr Hpay).
    cbn [bind fst snd decodeAll repeat app length concat].
    rewrite app_nil_r. eexists. eexists. repeat split.
  - (* several pieces *)
    assert (Hpos2 : 0 < len (concat (c2 :: rest2)))
      by (apply concat_nonempty_len; [discriminate | assumption]).
    assert (HD1 : Decode d pkt =
                  Done (mkDecoder (Some td) true [e0 :: es] (len (e0 :: es))
                                  (len (concat (c2 :: rest2))),
                        Failed ErrMorePacketsNeeded)).
    { rewrite (Decode_header d pkt x00 x00 x00 x00 e0 es Hcar eq_refl).
      change (be16 x00 x00 =? 0) with true. cbv iota.
      cbn [frameLoop]. rewrite Hh, Hfl.
      destruct (len (e0 :: es) + len (concat (c2 :: rest2))
                <=? len (e0 :: es)) eqn:E1; [apply Z.leb_le in E1; lia |].
      change (len (@nil (list byte)) =? 0) with true.
      cbn [negb app fragments timeDecoder firstPacketReceived bind].
      rewrite Htd. do 3 f_equal. lia. }
    cbn [decodeAll]. rewrite HD1. cbn [bind fst snd].
    edestruct (decodeAll_continue td (c2 :: rest2)
                 (mkDecoder (Some td) true [e0 :: es] (len (e0 :: es))
                    (len (concat (c2 :: rest2)))) ps)
      as (d' & pts & Hrun & Hf & Hs).
    + discriminate.
    + assumption.
    + reflexivity.
    + unfold consistent. cbn [fragments fragmentsSize concat].
      rewrite app_nil_r. reflexivity.
    + cbn [fragmentsSize]. apply nonempty_len. discriminate.
    + reflexivity.
    + cbn [fragmentsSize]. lia.
    + cbn [fragmentsSize]. exact Hps.
    + rewrite Hrun. cbn [bind fst snd]. exists d', pts.
      split; [| split; assumption].
      cbn [fragments concat length Nat.sub repeat app].
      rewrite Nat.sub_0_r, app_nil_r. reflexivity.
Qed.

(** *** What a packet of offset zero returns *)

(** The loop returns frames only when the buffer is made of complete
    frames. *)
Lemma frameLoop_framed (fuel : nat) :
  forall (d d' : Decoder) (buf : list byte) (acc out : list (list byte)),
    buf <> [] ->
    frameLoop fuel d buf acc = Done (d', inr out) ->
    exists frames : list (list byte),
      out = acc ++ frames /\ buf = concat frames /\
      frames <> [] /\ framedBefore [] frames.
Proof.
  induction fuel as [| fuel IH]; intros d d' buf acc out Hne H;
    [discriminate H |].
  cbn [frameLoop] in H.
  destruct (Unmarshal buf) as [h | err] eqn:Eh; [| discriminate H].
  destruct (FrameLen h <=? len buf) eqn:Efl.
  2:{ destruct (negb (len acc =? 0)); discriminate H. }
  apply Z.leb_le in Efl.
  destruct (Z.lt_trichotomy (FrameLen h) 0) as [Hneg | [Hz | Hpos]].
  - unfold sliceTo in H. apply Z.ltb_lt in Hneg. rewrite Hneg in H.
    discriminate H.
  - cbn [frameLoop] in H.
    pose proof (frameLoop_stuck buf h Eh Hz Hne (S fuel) d acc) as Hs.
    cbn [frameLoop] in Hs. rewrite Eh in Hs.
    replace (FrameLen h <=? len buf) with true in Hs
      by (symmetry; apply Z.leb_le; exact Efl).
    rewrite Hs in H. discriminate H.
  - rewrite sliceTo_ok, sliceFrom_ok in H by lia. cbn [bind] in H.
    set (frame := firstn (Z.to_nat (FrameLen h)) buf) in *.
    set (rest := skipn (Z.to_nat (FrameLen h)) buf) in *.
    assert (Hbuf : buf = frame ++ rest)
      by (symmetry; apply firstn_skipn).
    assert (Hlf : len frame = FrameLen h)
      by (apply len_firstn; lia).
    assert (Hfne : frame <> []).
    { intros Hnil. rewrite Hnil, len_nil in Hlf. lia. }
    destruct (len rest =? 0) eqn:E0.
    + apply Z.eqb_eq, len_zero in E0. inversion H; subst d' out.
      exists [frame]. cbn [concat framedBefore]. rewrite !app_nil_r.
      rewrite E0, app_nil_r in Hbuf.
      split; [reflexivity |]. split; [exact Hbuf |].
      split; [discriminate |]. split; [exact Hfne |].
      split; [| exact I].
      exists h. split; [rewrite <- Hbuf; exact Eh | symmetry; exact Hlf].
    + assert (Hrne : rest <> []).
      { intros Hnil. rewrite Hnil in E0. discriminate E0. }
      destruct (IH d d' rest (acc ++ [frame]) out Hrne H)
        as (frames & Hout & Hrest & Hfs & Hfr).
      exists (frame :: frames). cbn [concat framedBefore].
      split; [rewrite Hout, <- app_assoc; reflexivity |].
      split; [rewrite <- Hrest; exact Hbuf |].
      split; [discriminate |]. split; [exact Hfne |].
      split; [| exact Hfr].
      exists h. rewrite app_nil_r, <- Hrest, <- Hbuf.
      split; [exact Eh | symmetry; exact Hlf].
Qed.

(** X21.  The converse of X4: when [Decode] returns frames for a packet
    with zero reserved bytes and offset zero, the elementary stream of the
    packet is exactly these frames one after the other, none of them
    empty, each starting with a header that declares its length.  Nothing
    of the packet is dropped and nothing is added. *)
Theorem Decode_frames_inv (d d' : Decoder) (pkt : Packet) (e0 : byte)
  (es : list byte) (frames : list (list byte)) (pts : Z) :
  Payload pkt = header 0 ++ e0 :: es ->
  Decode d pkt = Done (d', Frames frames pts) ->
  Payload pkt = header 0 ++ concat frames /\
  frames <> [] /\
  framedBefore [] frames.
Proof.
  intros Hp H.
  rewrite (Decode_start d pkt (e0 :: es) Hp) in H by discriminate.
  destruct (frameLoop _ _ (e0 :: es) []) as [[d1 [err | out]] | |] eqn:E;
    cbn [bind] in H; try discriminate H.
  apply frameLoop_framed in E; [| discriminate].
  destruct E as (fs & Hout & Hbuf & Hne & Hfr). cbn [app] in Hout.
  subst out. unfold finish in H.
  destruct (timeDecoder d1); [| discriminate H].
  destruct (timeDecode _ _). inversion H; subst.
  split; [rewrite Hp, Hbuf; reflexivity |].
  split; assumption.
Qed.

(** X22.  [Decode] never returns an empty list of frames nor an empty
    frame, whatever the decoder, the packet and the header parser. *)
Theorem Decode_frames_nonempty (d d' : Decoder) (pkt : Packet)
  (frames : list (list byte)) (pts : Z) :
  Decode d pkt = Done (d', Frames frames pts) ->
  frames <> [] /\ Forall (fun f => f <> []) frames.
Proof.
  intros H.
  destruct (len (Payload pkt) <? 5) eqn:E5;
    [unfold Decode in H; rewrite E5 in H; discriminate H |].
  apply Z.ltb_ge in E5.
  destruct (Payload pkt) as [| r0 [| r1 [| o0 [| o1 [| e0 es]]]]] eqn:Hp;
    try (cbn in E5; lia).
  destruct (be16 r0 r1 =? 0) eqn:Ez.
  2:{ unfold Decode in H. rewrite Hp in H.
      replace (len (r0 :: r1 :: o0 :: o1 :: e0 :: es) <? 5) with false in H
        by (symmetry; apply Z.ltb_ge; exact E5).
      rewrite index_0, index_1 in H. cbn [bind] in H. rewrite Ez in H.
      discriminate H. }
  apply Z.eqb_eq in Ez.
  rewrite (Decode_header d pkt r0 r1 o0 o1 e0 es Hp Ez) in H.
  destruct (be16 o0 o1 =? 0) eqn:Eo.
  - destruct (frameLoop _ _ (e0 :: es) []) as [[d1 [err | out]] | |] eqn:E;
      cbn [bind] in H; try discriminate H.
    apply frameLoop_framed in E; [| discriminate].
    destruct E as (fs & Hout & _ & Hne & Hfr). cbn [app] in Hout.
    subst out. unfold finish in H.
    destruct (timeDecoder d1); [| discriminate H].
    destruct (timeDecode _ _). inversion H; subst.
    split; [exact Hne |].
    clear - Hfr. induction frames as [| f rest IH]; constructor.
    + exact (proj1 Hfr).
    + apply IH. exact (proj2 (proj2 Hfr)).
  - apply Z.eqb_neq in Eo.
    destruct (negb (be16 o0 o1 =? fragmentsSize d)) eqn:Es.
    + destruct (negb (firstPacketReceived d)); discriminate H.
    + apply negb_false_iff, Z.eqb_eq in Es. cbv zeta in H.
      destruct (fragmentsExpected d - len (e0 :: es) <? 0);
        [discriminate H |].
      destruct (0 <? fragmentsExpected d - len (e0 :: es));
        [discriminate H |].
      rewrite joinFragments_buffer in H.
      pose proof (be16_range o0 o1) as Hr.
      assert (Hpos : 0 < fragmentsSize d + len (e0 :: es)).
      { rewrite len_cons. pose proof (len_nonneg _ es). lia. }
      destruct (fragmentsSize d + len (e0 :: es) <? 0) eqn:En;
        [discriminate H |].
      cbn [bind] in H. unfold finish in H. cbn [timeDecoder discard] in H.
      destruct (timeDecoder d); [| discriminate H].
      destruct (timeDecode _ _). inversion H; subst.
      split; [discriminate |].
      constructor; [| constructor].
      intros Hnil. apply (f_equal (@length byte)) in Hnil.
      rewrite length_firstn, length_app, repeat_length in Hnil.
      cbn [length] in Hnil. lia.
Qed.

(** X23.  From [Init] on, across any stream of packets, the accumulated
    size is the number of bytes held in the pending fragments: the two
    fields of the reassembly state never drift apart. *)
Theorem decodeAll_consistent (pkts : list Packet) (d' : Decoder)
  (rs : list result) :
  decodeAll (Init zero) pkts = Done (d', rs) ->
  consistent d'.
Proof.
  assert (Hgen : forall (l : list Packet) (d0 d1 : Decoder)
                        (rs0 : list result),
             consistent d0 -> decodeAll d0 l = Done (d1, rs0) ->
             consistent d1).
  { induction l as [| pkt rest IH]; intros d0 d1 rs0 Hc H;
      cbn [decodeAll] in H.
    - inversion H; subst. exact Hc.
    - destruct (Decode d0 pkt) as [[d2 r] | |] eqn:E1; cbn [bind fst snd] in H;
        try discriminate H.
      destruct (decodeAll d2 rest) as [[d3 rs3] | |] eqn:E2;
        cbn [bind fst snd] in H; try discriminate H.
      inversion H; subst.
      apply (IH d2 d1 rs3); [| exact E2].
      exact (Decode_consistent d0 d2 pkt r Hc E1). }
  intros H. exact (Hgen pkts (Init zero) d' rs consistent_Init H).
Qed.

(** *** Termination *)

(** [Decode] keeps the clock that [Init] created. *)
Lemma Decode_clock (d d' : Decoder) (pkt : Packet) (r : result) :
  Decode d pkt = Done (d', r) ->
  timeDecoder d <> None -> timeDecoder d' <> None.
Proof.
  intros H Htd. unfold Decode in H.
  run_step H; [done_inv H; exact Htd |].
  run_step H. run_step H.
  run_step H; [done_inv H; exact Htd |].
  run_step H. run_step H. run_step H.
  - run_step H. run_step H.
    match goal with
    | HL : frameLoop _ _ _ _ = Done ?p |- _ =>
        destruct p as [d1 [err | frames]]; apply frameLoop_exit in HL;
        destruct HL as [[-> Hr] | (part & h & Hr & Hh & Hlt & ->)]
    end.
    + done_inv H. exact Htd.
    + done_inv H. exact Htd.
    + unfold finish in H. cbn [timeDecoder] in H.
      destruct (timeDecoder d); [| discriminate H].
      destruct (timeDecode _ _). done_inv H. discriminate.
    + inversion Hr.
  - run_step H.
    + run_step H; done_inv H; exact Htd.
    + run_step H. cbn [fragmentsExpected fragments fragmentsSize] in H.
      run_step H; [done_inv H; exact Htd |].
      run_step H; [done_inv H; exact Htd |].
      run_step H. unfold finish in H. cbn [timeDecoder discard] in H.
      destruct (timeDecoder d); [| discriminate H].
      destruct (timeDecode _ _). done_inv H. discriminate.
Qed.

(** X6.  When the header parser only returns frames of positive length, an
    initialised decoder returns on every packet of every stream: no call
    panics and no call loops for ever, and each call gives its frames or its
    error. *)
Theorem decodeAll_returns (pkts : list Packet) (d : Decoder) :
  (forall (buf : list byte) (h : FrameHeader),
      Unmarshal buf = inl h -> 0 < FrameLen h) ->
  timeDecoder d <> None ->
  exists (d' : Decoder) (rs : list result),
    decodeAll d pkts = Done (d', rs) /\ length rs = length pkts.
Proof.
  intros Hpos. revert d.
  induction pkts as [| pkt rest IH]; intros d Htd; cbn [decodeAll].
  - exists d, []. split; reflexivity.
  - destruct (Decode_returns Hpos d pkt Htd) as (d1 & r & H1).
    rewrite H1. cbn [bind fst snd].
    destruct (IH d1 (Decode_clock d d1 pkt r H1 Htd)) as (d' & rs & H2 & Hl).
    rewrite H2. cbn [bind fst snd]. exists d', (r :: rs).
    split; [reflexivity |]. cbn [length]. rewrite Hl. reflexivity.
Qed.

(** The loop on complete frames followed by a header of length zero. *)
Lemma frameLoop_zero_length (tail : list byte) (h : FrameHeader) :
  Unmarshal tail = inl h ->
  FrameLen h = 0 ->
  tail <> [] ->
  forall (frames : list (list byte)),
    framedBefore tail frames ->
    forall (fuel : nat) (d : Decoder) (acc : list (list byte)),
      frameLoop fuel d (concat frames ++ tail) acc = Timeout.
Proof.
  intros Hh Hz Hne.
  induction frames as [| f rest IH]; intros Hfr fuel d acc.
  - apply (frameLoop_stuck tail h Hh Hz Hne).
  - destruct Hfr as (Hf & (hf & Hhf & Hfl) & Hrest).
    destruct fuel as [| fuel]; [reflexivity |].
    cbn [concat]. rewrite <- app_assoc.
    cbn [frameLoop]. rewrite Hhf, Hfl.
    pose proof (len_nonneg _ f) as Hf0.
    pose proof (len_nonneg _ (concat rest ++ tail)) as Hx0.
    destruct (len f <=? len (f ++ concat rest ++ tail)) eqn:E;
      [| apply Z.leb_gt in E; rewrite len_app in E; lia].
    rewrite sliceTo_ok, sliceFrom_ok by (rewrite len_app; lia).
    cbn [bind].
    rewrite (skipn_exact _ f _ _ 0) by (unfold len; lia).
    cbn [skipn].
    assert (Hpos : 0 < len (concat rest ++ tail)).
    { rewrite len_app. pose proof (nonempty_len_aux tail Hne).
      pose proof (len_nonneg _ (concat rest)). lia. }
    destruct (len (concat rest ++ tail) =? 0) eqn:E0;
      [apply Z.eqb_eq in E0; lia |].
    apply IH. exact Hrest.
Qed.

(** X7.  Nothing in [Decode] guards against a frame of length zero.  On a
    packet of offset zero in which complete frames, possibly none, are
    followed by bytes whose header declares a length of zero, the loop over
    the frames makes no progress: it does not end, however many iterations
    it is given, and [Decode] does not return. *)
Theorem Decode_zero_length_frame (d : Decoder) (pkt : Packet)
  (frames : list (list byte)) (tail : list byte) (h : FrameHeader) :
  framedBefore tail frames ->
  tail <> [] ->
  Unmarshal tail = inl h ->
  FrameLen h = 0 ->
  Payload pkt = header 0 ++ concat frames ++ tail ->
  Decode d pkt = Timeout /\
  forall (fuel : nat) (d0 : Decoder) (acc : list (list byte)),
    frameLoop fuel d0 (concat frames ++ tail) acc = Timeout.
Proof.
  intros Hfr Hne Hh Hz Hp.
  split; [| exact (frameLoop_zero_length tail h Hh Hz Hne frames Hfr)].
  rewrite (Decode_start d pkt (concat frames ++ tail) Hp)
    by (destruct (concat frames); [exact Hne | discriminate]).
  rewrite (frameLoop_zero_length tail h Hh Hz Hne frames Hfr).
  reflexivity.
Qed.

(** *** The range of the offset field *)

(** X8.  The offset field of a packet has 16 bits, the accumulated size is
    an [int].  Once a decoder that received a starting packet holds 65536
    bytes or more, no packet can continue the reassembly: every packet with
    zero reserved bytes and a non-zero offset is answered with the
    unexpected-offset error, and the pending fragments are dropped. *)
Theorem Decode_size_beyond_offsets (d : Decoder) (pkt : Packet)
  (r0 r1 o0 o1 e0 : byte) (es : list byte) :
  Payload pkt = r0 :: r1 :: o0 :: o1 :: e0 :: es ->
  be16 r0 r1 = 0 ->
  be16 o0 o1 <> 0 ->
  firstPacketReceived d = true ->
  65536 <= fragmentsSize d ->
  Decode d pkt =
  Done (discard d, Failed (ErrUnexpectedOffset (be16 o0 o1) 0)) /\
  fragments (discard d) = [] /\ fragmentsSize (discard d) = 0.
Proof.
  intros Hp Hz Ho Hf Hs.
  split; [| split; reflexivity].
  rewrite (Decode_header d pkt r0 r1 o0 o1 e0 es Hp Hz).
  pose proof (be16_range o0 o1) as Hr.
  destruct (be16 o0 o1 =? 0) eqn:E0; [apply Z.eqb_eq in E0; contradiction |].
  destruct (be16 o0 o1 =? fragmentsSize d) eqn:E1;
    [apply Z.eqb_eq in E1; lia |].
  cbn [negb]. rewrite Hf. reflexivity.
Qed.

End Stream.

(** *** The theorems above on concrete packets *)

#[local] Existing Instance Instances.frameCodec.
#[local] Existing Instance Instances.timeDecoding.

(** The last 6 bytes of the frame of which [Instances.midFrame] holds the
    first 4. *)
Lemma Decode_at_offset_witness :
  Decode Instances.midFrame
    (Instances.audioPacket
       (header 4 ++ [x02; x03; x04; x05; x06; x07])) =
  Done (mkDecoder (Some (Some 0)) true [] 0 0,
        Frames [[xff; x00; x0a; x01; x02; x03; x04; x05; x06; x07]] 0).
Proof.
  apply (Decode_at_offset
           (codec := Instances.frameCodec) (clock := Instances.timeDecoding)
           Instances.midFrame
           (Instances.audioPacket
              (header 4 ++ [x02; x03; x04; x05; x06; x07]))
           None 4 x02 [x03; x04; x05; x06; x07]).
  - reflexivity.
  - lia.
  - reflexivity.
  - reflexivity.
  - reflexivity.
Defined.

(** A frame of 10 bytes sent in pieces of 4, 3 and 3 bytes. *)
Lemma decodeAll_reassembles_witness :
  exists (d' : Decoder) (pts : Z),
    decodeAll (Init zero)
      [Instances.audioPacket (header 0 ++ [xff; x00; x0a; x01]);
       Instances.audioPacket (header 4 ++ [x02; x03; x04]);
       Instances.audioPacket (header 7 ++ [x05; x06; x07])] =
    Done (d', [Failed ErrMorePacketsNeeded; Failed ErrMorePacketsNeeded;
               Frames [[xff; x00; x0a; x01; x02; x03; x04; x05; x06; x07]]
                      pts]) /\
    fragments d' = [] /\ fragmentsSize d' = 0.
Proof.
  apply (decodeAll_reassembles
           (codec := Instances.frameCodec) (clock := Instances.timeDecoding)
           (Init zero) None _
           [xff; x00; x0a; x01] [[x02; x03; x04]; [x05; x06; x07]] 10).
  - reflexivity.
  - repeat constructor; discriminate.
  - reflexivity.
  - reflexivity.
  - reflexivity.
  - repeat constructor.
Defined.

Lemma Decode_frames_witness :
  Decode Instances.midFrame
    (Instances.audioPacket
       (header 0 ++ concat [[xff; x00; x05; x01; x02]; [xff; x00; x04; x03]])) =
  Done (mkDecoder (Some (Some 0)) true [] 0 6,
        Frames [[xff; x00; x05; x01; x02]; [xff; x00; x04; x03]] 0).
Proof.
  apply (Decode_frames
           (codec := Instances.frameCodec) (clock := Instances.timeDecoding)
           Instances.midFrame None
           (Instances.audioPacket
              (header 0 ++
               concat [[xff; x00; x05; x01; x02]; [xff; x00; x04; x03]]))
           [[xff; x00; x05; x01; x02]; [xff; x00; x04; x03]]).
  - reflexivity.
  - discriminate.
  - cbn [framedBefore].
    repeat (split; [discriminate |]).
    split; [exists 5; split; reflexivity |].
    split; [discriminate |].
    split; [exists 4; split; reflexivity | exact I].
  - reflexivity.
Defined.

(** A frame of 5 bytes followed by the first 3 bytes of a frame of 4. *)
Lemma Decode_frames_then_rest_witness :
  Decode Instances.midFrame
    (Instances.audioPacket
       (header 0 ++ concat [[xff; x00; x05; x01; x02]] ++ [xff; x00; x04])) =
  Done (mkDecoder (Some None) true [] 0 6, Failed ErrInvalidPacket).
Proof.
  apply (Decode_frames_then_rest
           (codec := Instances.frameCodec) (clock := Instances.timeDecoding)
           Instances.midFrame
           (Instances.audioPacket
              (header 0 ++ concat [[xff; x00; x05; x01; x02]] ++
               [xff; x00; x04]))
           [[xff; x00; x05; x01; x02]] [xff; x00; x04]
           (Failed ErrInvalidPacket)).
  - discriminate.
  - cbn [framedBefore].
    split; [discriminate |].
    split; [exists 5; split; reflexivity | exact I].
  - discriminate.
  - reflexivity.
  - split; reflexivity.
Defined.

(** A packet of offset zero that holds two frames, of 5 and 4 bytes. *)
Lemma Decode_frames_inv_witness :
  Payload (Instances.audioPacket
             (header 0 ++ [xff; x00; x05; x01; x02; xff; x00; x04; x03])) =
  header 0 ++ concat [[xff; x00; x05; x01; x02]; [xff; x00; x04; x03]] /\
  [[xff; x00; x05; x01; x02]; [xff; x00; x04; x03]] <> [] /\
  framedBefore [] [[xff; x00; x05; x01; x02]; [xff; x00; x04; x03]].
Proof.
  apply (Decode_frames_inv
           (codec := Instances.frameCodec) (clock := Instances.timeDecoding)
           (Init zero)
           (@mkDecoder Instances.timeDecoding (Some (Some 0)) true [] 0 0)
           (Instances.audioPacket
              (header 0 ++ [xff; x00; x05; x01; x02; xff; x00; x04; x03]))
           xff [x00; x05; x01; x02; xff; x00; x04; x03]
           [[xff; x00; x05; x01; x02]; [xff; x00; x04; x03]] 0).
  - reflexivity.
  - reflexivity.
Defined.

(** The frame completed by the last fragment of [Instances.midFrame]. *)
Lemma Decode_frames_nonempty_witness :
  [[xff; x00; x0a; x01; x02; x03; x04; x05; x06; x07]] <> [] /\
  Forall (fun f : list byte => f <> [])
         [[xff; x00; x0a; x01; x02; x03; x04; x05; x06; x07]].
Proof.
  apply (Decode_frames_nonempty
           (codec := Instances.frameCodec) (clock := Instances.timeDecoding)
           Instances.midFrame
           (@mkDecoder Instances.timeDecoding (Some (Some 0)) true [] 0 0)
           (Instances.audioPacket
              (header 4 ++ [x02; x03; x04; x05; x06; x07]))
           [[xff; x00; x0a; x01; x02; x03; x04; x05; x06; x07]] 0).
  reflexivity.
Defined.

(** A stream that stops in the middle of a frame of 10 bytes. *)
Lemma decodeAll_consistent_witness :
  consistent (@mkDecoder Instances.timeDecoding (Some (Some 0)) true
                [[xff; x00; x0a; x01]; [x02; x03]] 6 4).
Proof.
  apply (decodeAll_consistent
           (codec := Instances.frameCodec) (clock := Instances.timeDecoding)
           [Instances.audioPacket (header 0 ++ [xff; x00; x04; x03]);
            Instances.audioPacket [x00; x00; x00];
            Instances.audioPacket (header 0 ++ [xff; x00; x0a; x01]);
            Instances.audioPacket (header 4 ++ [x02; x03])]
           (@mkDecoder Instances.timeDecoding (Some (Some 0)) true
              [[xff; x00; x0a; x01]; [x02; x03]] 6 4)
           [Frames [[xff; x00; x04; x03]] 0; Failed ErrPayloadTooShort;
            Failed ErrMorePacketsNeeded; Failed ErrMorePacketsNeeded]).
  reflexivity.
Defined.

Lemma frameCodec_FrameLen_pos (buf : list byte) (h : FrameHeader) :
  Unmarshal buf = inl h -> 0 < FrameLen h.
Proof.
  destruct buf as [| s [| b1 [| b2 rest]]]; try discriminate.
  cbn [Unmarshal FrameLen Instances.frameCodec Instances.unmarshalLength].
  destruct (b2z s =? 255); [| discriminate].
  destruct (3 <=? be16 b1 b2) eqn:E; [| discriminate].
  cbn [andb]. intros H. inversion H; subst. apply Z.leb_le in E. lia.
Qed.

(** A packet that is too short, the start of a frame of 10 bytes, a packet
    at a wrong offset and a whole frame. *)
Lemma decodeAll_returns_witness :
  exists (d' : Decoder) (rs : list result),
    decodeAll (Init zero)
      [Instances.audioPacket [x00; x00; x00];
       Instances.audioPacket (header 0 ++ [xff; x00; x0a; x01]);
       Instances.audioPacket (header 9 ++ [x02]);
       Instances.audioPacket (header 0 ++ [xff; x00; x04; x03])] =
    Done (d', rs) /\
    length rs = 4%nat.
Proof.
  apply (decodeAll_returns
           (codec := Instances.frameCodec) (clock := Instances.timeDecoding)
           [Instances.audioPacket [x00; x00; x00];
            Instances.audioPacket (header 0 ++ [xff; x00; x0a; x01]);
            Instances.audioPacket (header 9 ++ [x02]);
            Instances.audioPacket (header 0 ++ [xff; x00; x04; x03])]
           (Init zero)).
  - exact frameCodec_FrameLen_pos.
  - discriminate.
Defined.

(** A frame of 2 bytes followed by a header that declares a length of
    zero, with the codec of one-byte headers. *)
Lemma Decode_zero_length_frame_witness :
  Decode (codec := LoopInstances.byteCodec) (Init zero)
    (Instances.audioPacket (header 0 ++ concat [[x02; x01]] ++ [x00; x05])) =
  Timeout /\
  forall (fuel : nat) (d0 : Decoder) (acc : list (list byte)),
    frameLoop (codec := LoopInstances.byteCodec) fuel d0
      (concat [[x02; x01]] ++ [x00; x05]) acc = Timeout.
Proof.
  apply (Decode_zero_length_frame
           (codec := LoopInstances.byteCodec) (clock := Instances.timeDecoding)
           (Init zero)
           (Instances.audioPacket
              (header 0 ++ concat [[x02; x01]] ++ [x00; x05]))
           [[x02; x01]] [x00; x05] 0).
  - cbn [framedBefore].
    split; [discriminate |].
    split; [exists 2; split; reflexivity | exact I].
  - discriminate.
  - reflexivity.
  - reflexivity.
  - reflexivity.
Defined.

Lemma Decode_size_beyond_offsets_witness :
  Decode LoopInstances.longFrame
    (Instances.audioPacket [x00; x00; x00; x01; x02]) =
  Done (discard LoopInstances.longFrame, Failed (ErrUnexpectedOffset 1 0)) /\
  fragments (discard LoopInstances.longFrame) = [] /\
  fragmentsSize (discard LoopInstances.longFrame) = 0.
Proof.
  apply (Decode_size_beyond_offsets
           (codec := Instances.frameCodec) (clock := Instances.timeDecoding)
           LoopInstances.longFrame
           (Instances.audioPacket [x00; x00; x00; x01; x02])
           x00 x00 x00 x01 x02 []).
  - reflexivity.
  - reflexivity.
  - discriminate.
  - reflexivity.
  - cbn [fragmentsSize LoopInstances.longFrame]. lia.
Defined.

End Mpeg2AudioStreamFacts.

(** ** Payloads and series of calls of the encoder *)

Module Av1PayloadFacts.

Import Av1 Av1Payload Av1Facts.

Section Payload.

Context {codec : ObuCodec} {clock : TimeEncoding}.

(** *** What the payloads hold *)

Section Layout.

Variable e : Encoder.
Variable ts ssrc : Z.
Hypothesis HSSRC : ESSRC e = Some ssrc.

(** The packets of a state of the loops hold the chunks [cs], in order. *)
Definition layout (st : encState) (cs : list (list byte)) : Prop :=
  exists (chunkss : list (list (list byte))) (cur : list (list byte)),
    Forall2 holds (closed st) chunkss /\
    holds (curPacket st) cur /\
    concat chunkss ++ cur = cs.

Lemma layout_nonempty (st : encState) (cs : list (list byte)) :
  layout st cs -> Payload (curPacket st) <> [].
Proof.
  intros (chunkss & cur & _ & (b & Hb) & _). rewrite Hb. discriminate.
Qed.

Lemma holds_snoc (p : Packet) (cur : list (list byte)) (chunk : list byte) :
  holds p cur ->
  holds (setPayload (Payload p ++ element chunk) p) (cur ++ [chunk]).
Proof.
  intros (b & Hb). exists b. cbn [Payload setPayload]. rewrite Hb.
  rewrite map_app, concat_app. cbn [map concat]. rewrite app_nil_r.
  reflexivity.
Qed.

Lemma layout_fit (st : encState) (cs : list (list byte)) (obu : list byte) :
  layout st cs -> layout (fit st obu) (cs ++ [obu]).
Proof.
  intros (chunkss & cur & Hc & Hp & <-).
  exists chunkss, (cur ++ [obu]). split; [exact Hc |].
  split; [| rewrite app_assoc; reflexivity].
  pose proof (holds_snoc _ _ obu Hp) as (b & Hb). exists b.
  unfold fit, addPayloadLen, appendPayload.
  cbn [curPacket closed Payload setPayload] in *.
  rewrite <- Hb. unfold element. rewrite app_assoc. reflexivity.
Qed.

Lemma layout_fill (st : encState) (cs : list (list byte)) (n : Z)
  (obu : list byte) :
  0 <= n <= len obu ->
  layout st cs ->
  layout (fill st n obu) (cs ++ [firstn (Z.to_nat n) obu]).
Proof.
  intros Hn (chunkss & cur & Hc & Hp & <-).
  exists chunkss, (cur ++ [firstn (Z.to_nat n) obu]). split; [exact Hc |].
  split; [| rewrite app_assoc; reflexivity].
  pose proof (holds_snoc _ _ (firstn (Z.to_nat n) obu) Hp) as (b & Hb).
  exists b. unfold fill, appendPayload.
  cbn [curPacket closed Payload setPayload] in *.
  rewrite <- Hb. unfold element. rewrite len_firstn by exact Hn.
  rewrite app_assoc. reflexivity.
Qed.

Lemma layout_roll (st : encState) (cs : list (list byte)) :
  layout st cs -> layout (roll e ts ssrc st) cs.
Proof.
  intros (chunkss & cur & Hc & (b & Hb) & <-).
  exists (chunkss ++ [cur]), []. unfold roll. cbn [closed curPacket].
  split; [| split].
  - apply Forall2_app; [exact Hc |]. constructor; [| constructor].
    eexists. cbn [Payload setPayload]. rewrite Hb. cbn [tl]. reflexivity.
  - exists x80. reflexivity.
  - rewrite concat_app. cbn [concat]. rewrite !app_nil_r. reflexivity.
Qed.

(** The inner loop cuts the OBU in pieces and appends them, in order, to
    what the packets hold. *)
Lemma placeOBU_content (obu0 : list byte) (cs : list (list byte)) :
  forall (fuel : nat) (st : encState) (st' : encState),
    layout st cs ->
    placeOBU fuel e ts st obu0 = Done st' ->
    exists ps, layout st' (cs ++ ps) /\ concat ps = obu0.
Proof.
  intros fuel st st' Hl H.
  apply (placeOBU_rule e ts ssrc HSSRC
           (fun st obu => exists ps, layout st (cs ++ ps) /\
                                     concat ps ++ obu = obu0)
           (fun st' => exists ps, layout st' (cs ++ ps) /\ concat ps = obu0))
    with (fuel := fuel) (st := st) (obu := obu0); [| | | | | exact H].
  - intros st1 obu (ps & Hps & _). exact (layout_nonempty _ _ Hps).
  - intros st1 obu (ps & Hps & Hcat) _.
    exists (ps ++ [obu]). split.
    + rewrite app_assoc. apply layout_fit. exact Hps.
    + rewrite concat_app. cbn [concat]. rewrite app_nil_r. exact Hcat.
  - intros st1 obu (ps & Hps & Hcat) Hlt Hgt.
    set (n := PayloadMaxSize e - curPayloadLen st1 - 2) in *.
    exists (ps ++ [firstn (Z.to_nat n) obu]). split.
    + rewrite app_assoc. apply layout_roll. apply layout_fill; [lia |].
      exact Hps.
    + rewrite concat_app. cbn [concat]. rewrite app_nil_r, <- app_assoc.
      rewrite firstn_skipn. exact Hcat.
  - intros st1 obu (ps & Hps & Hcat) _ _.
    exists ps. split; [apply layout_roll; exact Hps | exact Hcat].
  - exists []. rewrite app_nil_r. split; [exact Hl | reflexivity].
Qed.

Lemma placeAll_content (obus : list (list byte)) :
  forall (st st' : encState) (cs : list (list byte)),
    layout st cs ->
    placeAll e ts st obus = Done st' ->
    exists parts : list (list (list byte)),
      layout st' (cs ++ concat parts) /\ map (@concat byte) parts = obus.
Proof.
  induction obus as [| obu rest IH]; intros st st' cs Hl H;
    cbn [placeAll] in H.
  - inversion H; subst. exists []. cbn [concat map]. rewrite app_nil_r.
    split; [exact Hl | reflexivity].
  - destruct (placeOBU (length obu + 2) e ts st obu) as [st1 | |] eqn:E1;
      cbn [bind] in H; try discriminate H.
    destruct (placeOBU_content obu cs _ st st1 Hl E1) as (ps & Hps & Hcat).
    destruct (IH st1 st' (cs ++ ps) Hps H) as (parts & Hparts & Hmap).
    exists (ps :: parts). cbn [concat map]. split.
    + rewrite app_assoc. exact Hparts.
    + rewrite Hcat, Hmap. reflexivity.
Qed.

End Layout.

Lemma holds_tagFirst (l : list Packet) (chunkss : list (list (list byte))) :
  Forall2 holds l chunkss -> Forall2 holds (tagFirst l) chunkss.
Proof.
  intros H. destruct H as [| p c l' cs' (b & Hb) Hrest]; [constructor |].
  cbn [tagFirst]. constructor; [| exact Hrest].
  eexists. cbn [Payload setPayload]. rewrite Hb. cbn [tl]. reflexivity.
Qed.

Lemma holds_marked (l : list Packet) (d : Packet)
  (chunkss : list (list (list byte))) :
  l <> [] -> Forall2 holds l chunkss -> Forall2 holds (marked l d) chunkss.
Proof.
  intros Hne H.
  destruct (exists_last Hne) as (l' & x & ->).
  rewrite marked_snoc.
  apply Forall2_app_inv_l in H.
  destruct H as (cs1 & cs2 & H1 & H2 & ->).
  apply Forall2_app; [exact H1 |].
  inversion H2 as [| ? c ? cs' Hx Hnil]; subst.
  inversion Hnil; subst. constructor; [| constructor].
  exact Hx.
Qed.

(** X12.  The packets [Encode] returns hold the OBUs and nothing else.
    Every OBU is cut into consecutive pieces; every payload is one byte of
    flags followed by elements, each a piece after its LEB128 length; and
    the pieces of all OBUs, in order, are the elements of all payloads, in
    order.  No byte is lost, repeated or moved. *)
Theorem Encode_content (e e' : Encoder) (obus : list (list byte)) (pts : Z)
  (pkts : list Packet) :
  Encode e obus pts = Done (e', inl pkts) ->
  exists (parts chunkss : list (list (list byte))),
    map (@concat byte) parts = obus /\
    Forall2 holds pkts chunkss /\
    concat chunkss = concat parts.
Proof.
  intros H.
  destruct (Encode_done e e' obus pts pkts H)
    as (kf & te & ssrc & st & Hkf & Hte & Hss & Hst & Hp & He).
  assert (Hl0 : layout (start e (timeEncode te pts) ssrc) []).
  { exists [], []. split; [constructor |]. split; [| reflexivity].
    exists x00. reflexivity. }
  destruct (placeAll_content e _ ssrc Hss obus _ st [] Hl0 Hst)
    as (parts & (chunkss & cur & Hc & Hcur & Hcat) & Hmap).
  exists parts, (chunkss ++ [cur]).
  split; [exact Hmap |]. split.
  - rewrite Hp. apply holds_marked; [apply final_nonempty |].
    assert (Hall : Forall2 holds (packets st) (chunkss ++ [cur])).
    { unfold packets. apply Forall2_app; [exact Hc |].
      constructor; [exact Hcur | constructor]. }
    destruct kf; [apply holds_tagFirst |]; exact Hall.
  - rewrite concat_app. cbn [concat]. rewrite app_nil_r. exact Hcat.
Qed.

(** *** Series of calls *)

(** A call that returns an error leaves the encoder as it was. *)
Lemma Encode_failed (e e' : Encoder) (obus : list (list byte)) (pts : Z)
  (err : KeyFrameError) :
  Encode e obus pts = Done (e', inr err) -> e' = e.
Proof.
  intros H. unfold Encode in H.
  destruct (ContainsKeyFrame obus) as [kf | err'];
    [| inversion H; reflexivity].
  exfalso.
  repeat match type of H with
         | bind ?m _ = _ =>
             destruct m; cbn [bind] in H; try discriminate H
         end.
Qed.

(** The sequence numbers of the packets of one call. *)
Lemma Encode_numbering (e e' : Encoder) (obus : list (list byte)) (pts : Z)
  (pkts : list Packet) :
  0 <= sequenceNumber e < 65536 ->
  Encode e obus pts = Done (e', inl pkts) ->
  map SequenceNumber pkts =
  map (fun k => (sequenceNumber e + Z.of_nat k) mod 65536)
      (seq 0 (length pkts)) /\
  sequenceNumber e' = (sequenceNumber e + len pkts) mod 65536.
Proof.
  intros Hr H.
  destruct (Encode_done e e' obus pts pkts H)
    as (kf & te & ssrc & st & Hkf & Hte & Hss & Hst & Hp & He).
  assert (Hwf : wf e (timeEncode te pts) ssrc (sequenceNumber e) st).
  { apply (wf_placeAll e _ ssrc Hss _ obus (start e (timeEncode te pts) ssrc));
      [| exact Hst].
    split; [apply headed_start; exact Hr | apply flagged_start]. }
  destruct Hwf as [[Hm Hs] _].
  assert (Hlen : length pkts = length (packets st))
    by (rewrite Hp; apply final_length).
  assert (Hhdr : map hdr pkts = map hdr (packets st))
    by (rewrite Hp; apply final_hdr).
  split.
  - rewrite <- Hhdr, <- Hlen in Hm.
    apply (f_equal (map SequenceNumber)) in Hm.
    rewrite !map_map in Hm. exact Hm.
  - rewrite He. cbn [sequenceNumber]. rewrite Hs. unfold len.
    rewrite Hlen. reflexivity.
Qed.

Lemma map_seq_from (B : Type) (n : nat) :
  forall (f : nat -> B) (a : nat),
    map f (seq a n) = map (fun k => f (a + k)%nat) (seq 0 n).
Proof.
  induction n as [| n IH]; intros f a; cbn [seq map]; [reflexivity |].
  rewrite Nat.add_0_r. f_equal.
  rewrite (IH f (S a)), (IH (fun k => f (a + k)%nat) 1%nat).
  apply map_ext. intros k. f_equal. lia.
Qed.

Lemma sent_packets (pkts : list Packet)
  (rs : list (list Packet + KeyFrameError)) :
  sent (inl pkts :: rs) = pkts ++ sent rs.
Proof. reflexivity. Qed.

Lemma sent_error (err : KeyFrameError)
  (rs : list (list Packet + KeyFrameError)) :
  sent (inr err :: rs) = sent rs.
Proof. reflexivity. Qed.

(** X13.  Over any series of calls of [Encode], the sequence numbers of the
    packets returned are consecutive modulo 65536, from the sequence number
    the encoder had before the first call, across the calls: a call that
    fails consumes no number, and the encoder ends at the number after the
    last packet. *)
Theorem encodeAll_numbering (units : list (list (list byte) * Z)) :
  forall (e e' : Encoder) (rs : list (list Packet + KeyFrameError)),
    0 <= sequenceNumber e < 65536 ->
    encodeAll e units = Done (e', rs) ->
    map SequenceNumber (sent rs) =
    map (fun k => (sequenceNumber e + Z.of_nat k) mod 65536)
        (seq 0 (length (sent rs))) /\
    sequenceNumber e' = (sequenceNumber e + len (sent rs)) mod 65536.
Proof.
  induction units as [| [obus pts] rest IH]; intros e e' rs Hr H;
    cbn [encodeAll] in H.
  - inversion H; subst. cbn. rewrite Z.add_0_r, Z.mod_small by lia.
    split; reflexivity.
  - destruct (Encode e obus pts) as [[e1 r] | |] eqn:E1; cbn [bind fst snd] in H;
      try discriminate H.
    destruct (encodeAll e1 rest) as [[e2 rs'] | |] eqn:E2;
      cbn [bind fst snd] in H; try discriminate H.
    inversion H; subst. clear H.
    destruct r as [pkts | err].
    + destruct (Encode_numbering e e1 obus pts pkts Hr E1) as [Hn Hs].
      assert (Hr1 : 0 <= sequenceNumber e1 < 65536)
        by (rewrite Hs; apply Z.mod_pos_bound; lia).
      destruct (IH e1 e' rs' Hr1 E2) as [Hn' Hs'].
      rewrite sent_packets.
      split.
      * rewrite map_app, length_app, seq_app, map_app, Hn, Hn'.
        f_equal. cbn [Nat.add]. rewrite (map_seq_from _ _ _ (length pkts)).
        apply map_ext. intros k.
        rewrite Hs, Zplus_mod_idemp_l. f_equal. unfold len. lia.
      * rewrite Hs', Hs, len_app, Zplus_mod_idemp_l. f_equal. lia.
    + apply Encode_failed in E1. subst e1.
      rewrite sent_error. exact (IH e e' rs' Hr E2).
Qed.

(** An encoder on which [Encode] cannot panic or loop. *)
Definition ready (e : Encoder) : Prop :=
  4 <= PayloadMaxSize e /\ timeEncoder e <> None /\ ESSRC e <> None.

Lemma Encode_ready (e : Encoder) (obus : list (list byte)) (pts : Z) :
  ready e ->
  exists e' r, Encode e obus pts = Done (e', r) /\ ready e'.
Proof.
  intros (Hmax & Hte & Hss).
  destruct (ContainsKeyFrame obus) as [kf | err] eqn:Ekf.
  - destruct (timeEncoder e) as [te |] eqn:Ete; [| contradiction].
    destruct (ESSRC e) as [ssrc |] eqn:Ess; [| contradiction].
    destruct (Encode_returns e obus pts kf te ssrc Hmax Ekf Ete Ess)
      as (e' & pkts & H).
    exists e', (inl pkts). split; [exact H |].
    destruct (Encode_done e e' obus pts pkts H)
      as (_ & _ & _ & st & _ & _ & _ & _ & _ & ->).
    unfold ready. cbn [PayloadMaxSize timeEncoder ESSRC].
    rewrite Ete, Ess. repeat split; (exact Hmax || discriminate).
  - exists e, (inr err). unfold Encode. rewrite Ekf.
    split; [reflexivity |]. repeat split; assumption.
Qed.

Lemma ready_Init (r1 r2 r3 : Z) (e0 : Encoder) :
  PayloadMaxSize e0 = 0 \/ 4 <= PayloadMaxSize e0 ->
  ready (Init r1 r2 r3 e0).
Proof.
  intros Hmax. unfold ready. rewrite Init_PayloadMaxSize.
  split; [| split; discriminate].
  destruct (PayloadMaxSize e0 =? 0) eqn:E; [lia |].
  apply Z.eqb_neq in E. lia.
Qed.

Lemma encodeAll_ready (units : list (list (list byte) * Z)) :
  forall e : Encoder,
    ready e ->
    exists (e' : Encoder) (rs : list (list Packet + KeyFrameError)),
      encodeAll e units = Done (e', rs) /\ length rs = length units.
Proof.
  induction units as [| [obus pts] rest IH]; intros e Hr; cbn [encodeAll].
  - exists e, []. split; reflexivity.
  - destruct (Encode_ready e obus pts Hr) as (e1 & r & H1 & Hr1).
    rewrite H1. cbn [bind fst snd].
    destruct (IH e1 Hr1) as (e' & rs & H2 & Hl).
    rewrite H2. cbn [bind fst snd]. exists e', (r :: rs).
    split; [reflexivity |]. cbn [length]. rewrite Hl. reflexivity.
Qed.

(** X9.  After [Init], with the default maximum payload size or one of 4
    bytes or more, every call of [Encode] in every series of calls returns,
    with packets or with the error of the keyframe test: none panics and
    none loops for ever, whatever the OBUs and the random draws of
    [Init]. *)
Theorem encodeAll_returns (units : list (list (list byte) * Z))
  (r1 r2 r3 : Z) (e0 : Encoder) :
  PayloadMaxSize e0 = 0 \/ 4 <= PayloadMaxSize e0 ->
  exists (e' : Encoder) (rs : list (list Packet + KeyFrameError)),
    encodeAll (Init r1 r2 r3 e0) units = Done (e', rs) /\
    length rs = length units.
Proof.
  intros Hmax. apply encodeAll_ready. apply ready_Init. exact Hmax.
Qed.

(** X10.  Nothing in [Encode] guards against a maximum payload size of 3 or
    less, which [Init] leaves as it is unless it is zero.  With such a size,
    an OBU that does not fit in a fresh packet, as is every OBU that is not
    empty, is never placed: the inner loop opens packet after packet without
    consuming a byte, however many iterations it is given, and [Encode] does
    not return. *)
Theorem Encode_small_payload_size (e : Encoder) (obu : list byte)
  (rest : list (list byte)) (pts : Z) (kf : bool) (te : TimeEncoder)
  (ssrc : Z) :
  PayloadMaxSize e <= 3 ->
  PayloadMaxSize e < len obu + 3 ->
  ContainsKeyFrame (obu :: rest) = inl kf ->
  timeEncoder e = Some te ->
  ESSRC e = Some ssrc ->
  Encode e (obu :: rest) pts = Timeout /\
  forall fuel : nat,
    placeOBU fuel e (timeEncode te pts)
             (start e (timeEncode te pts) ssrc) obu = Timeout.
Proof.
  intros Hmax Hobu Hkf Hte Hss.
  assert (Hloop : forall fuel : nat,
             placeOBU fuel e (timeEncode te pts)
                      (start e (timeEncode te pts) ssrc) obu = Timeout).
  { intros fuel.
    apply (placeOBU_diverges e (timeEncode te pts) ssrc Hss obu);
      [lia | lia | discriminate | reflexivity]. }
  split; [| exact Hloop].
  unfold Encode. rewrite Hkf, Hte. cbn [deref bind].
  unfold createNewPacket. rewrite Hss. cbn [deref bind].
  fold (start e (timeEncode te pts) ssrc).
  cbn [placeAll]. rewrite Hloop. reflexivity.
Qed.

(** *** OBUs that fit in one packet *)

Lemma reserved_nonneg (obus : list (list byte)) : 0 <= reserved obus.
Proof.
  induction obus as [| obu rest IH]; cbn [reserved fold_right]; [lia |].
  fold (reserved rest). pose proof (len_nonneg _ obu). lia.
Qed.

Lemma placeAll_fits (e : Encoder) (ts : Z) (obus : list (list byte)) :
  forall st : encState,
    Forall (fun obu => len (LEB128Marshal (len obu)) <= 2) obus ->
    curPayloadLen st + reserved obus <= PayloadMaxSize e ->
    placeAll e ts st obus =
    Done (mkState (closed st)
            (setPayload (Payload (curPacket st) ++ concat (map element obus))
                        (curPacket st))
            (curPayloadLen st + len (concat (map element obus)))
            (seqNum st)).
Proof.
  induction obus as [| obu rest IH]; intros st Hle Hfit.
  - cbn [placeAll map concat]. rewrite app_nil_r, len_nil, Z.add_0_r.
    destruct st as [cl [v m pt sn t ss pl] cpl sq]. reflexivity.
  - inversion Hle as [| ? ? Hobu Hrest]; subst.
    cbn [reserved fold_right] in Hfit. fold (reserved rest) in Hfit.
    pose proof (reserved_nonneg rest) as Hres.
    cbn [placeAll]. replace (length obu + 2)%nat with (S (length obu + 1))
      by lia.
    cbn [placeOBU].
    destruct (len obu + 2 <=? PayloadMaxSize e - curPayloadLen st) eqn:E;
      [| apply Z.leb_gt in E; lia].
    cbn [bind]. rewrite IH; [| exact Hrest |].
    + unfold addPayloadLen, appendPayload, setPayload, element.
      cbn [closed curPacket curPayloadLen seqNum Payload
           Version Marker PayloadType SequenceNumber Timestamp SSRC
           map concat].
      rewrite !len_app, <- !app_assoc.
      do 2 f_equal. lia.
    + unfold addPayloadLen, appendPayload. cbn [curPayloadLen]. lia.
Qed.

(** X14.  When the LEB128 length of every OBU of a temporal unit takes at
    most 2 bytes, as it does for OBUs shorter than 16384 bytes, and the
    OBUs fit together in one payload, two bytes being reserved for the size
    of each, [Encode] returns a single packet: its payload is the flag byte,
    with bit 3 set for a keyframe and bits 6 and 7 clear, followed by every
    OBU after its LEB128 length, in order; the marker is set, and one
    sequence number is consumed.  ([Encode_long_prefix] below shows that
    the condition on the lengths cannot be dropped.) *)
Theorem Encode_single_packet (e : Encoder) (obus : list (list byte))
  (pts : Z) (kf : bool) (te : TimeEncoder) (ssrc : Z) :
  Forall (fun obu => len (LEB128Marshal (len obu)) <= 2) obus ->
  1 + reserved obus <= PayloadMaxSize e ->
  ContainsKeyFrame obus = inl kf ->
  timeEncoder e = Some te ->
  ESSRC e = Some ssrc ->
  Encode e obus pts =
  Done (mkEncoder (EPayloadType e) (ESSRC e) (InitialSequenceNumber e)
                  (InitialTimestamp e) (PayloadMaxSize e)
                  ((sequenceNumber e + 1) mod 65536) (timeEncoder e),
        inl [mkPacket rtpVersion true (EPayloadType e) (sequenceNumber e)
               (timeEncode te pts) ssrc
               (flagByte kf true true :: concat (map element obus))]).
Proof.
  intros Hle Hfit Hkf Hte Hss.
  unfold Encode. rewrite Hkf, Hte. cbn [deref bind].
  unfold createNewPacket. rewrite Hss. cbn [deref bind].
  rewrite placeAll_fits; [| exact Hle | cbn [curPayloadLen]; lia].
  unfold packets, setPayload.
  cbn [bind finalizeCurPacket closed curPacket curPayloadLen seqNum
       Payload Version Marker PayloadType SequenceNumber Timestamp SSRC app].
  assert (Hmark : forall p : Packet, markLast [p] = Done [setMarker p]).
  { intros p. unfold markLast. change (len [p] - 1) with 0.
    rewrite index_0. reflexivity. }
  destruct kf.
  - unfold flagFirst. rewrite index_0. cbn [bind].
    unfold orFlag, orFirst, setPayload. cbn [Payload]. rewrite index_0.
    cbn [bind tl]. rewrite Hmark. reflexivity.
  - cbn [bind]. rewrite Hmark. reflexivity.
Qed.

(** *** The sequence number after [Init] *)

Lemma randUint32_low (b0 b1 b2 b3 : byte) :
  randUint32 b0 b1 b2 b3 mod 65536 = be16 b2 b3.
Proof.
  change 65536 with (2 ^ 16).
  apply Z.bits_inj'. intros n Hn.
  destruct (Z_lt_le_dec n 16) as [Hlt | Hge].
  - rewrite Z.mod_pow2_bits_low by lia.
    unfold randUint32, be16. rewrite !Z.lor_spec.
    rewrite (Z.shiftl_spec_low _ 24), (Z.shiftl_spec_low _ 16) by lia.
    reflexivity.
  - rewrite Z.mod_pow2_bits_high by lia. symmetry.
    pose proof (be16_range b2 b3) as Hr.
    destruct (Z.eq_dec (be16 b2 b3) 0) as [-> | Hnz];
      [apply Z.bits_0 |].
    apply Z.bits_above_log2; [lia |].
    assert (Hl : Z.log2 (be16 b2 b3) < 16)
      by (apply Z.log2_lt_pow2; lia).
    lia.
Qed.

(** X24.  After [Init] the sequence number of the encoder is a 16-bit
    number, whether the caller gave the initial one, within the range of
    its type, or [Init] drew it; a drawn one is the low half of what
    [randUint32] returned, the big-endian number of the last two of the
    four random bytes. *)
Theorem Init_sequence_number (r1 r3 : Z) (b0 b1 b2 b3 : byte)
  (e : Encoder) :
  (forall v : Z, InitialSequenceNumber e = Some v -> 0 <= v < 65536) ->
  0 <= sequenceNumber (Init r1 (randUint32 b0 b1 b2 b3) r3 e) < 65536 /\
  (InitialSequenceNumber e = None ->
   sequenceNumber (Init r1 (randUint32 b0 b1 b2 b3) r3 e) = be16 b2 b3).
Proof.
  intros Hv. unfold Init. cbn [sequenceNumber].
  destruct (InitialSequenceNumber e) as [v |].
  - split; [apply Hv; reflexivity | discriminate].
  - rewrite randUint32_low. split; [apply be16_range | reflexivity].
Qed.

(** *** A second [Init] *)

Lemma Encode_config (e e' : Encoder) (obus : list (list byte)) (pts : Z)
  (r : list Packet + KeyFrameError) :
  Encode e obus pts = Done (e', r) ->
  e' = mkEncoder (EPayloadType e) (ESSRC e) (InitialSequenceNumber e)
                 (InitialTimestamp e) (PayloadMaxSize e) (sequenceNumber e')
                 (timeEncoder e).
Proof.
  intros H. destruct r as [pkts | err].
  - destruct (Encode_done e e' obus pts pkts H)
      as (_ & _ & _ & st & _ & _ & _ & _ & _ & ->).
    reflexivity.
  - apply Encode_failed in H. subst e'. destruct e. reflexivity.
Qed.

Lemma encodeAll_config (units : list (list (list byte) * Z)) :
  forall (e e' : Encoder) (rs : list (list Packet + KeyFrameError)),
    encodeAll e units = Done (e', rs) ->
    e' = mkEncoder (EPayloadType e) (ESSRC e) (InitialSequenceNumber e)
                   (InitialTimestamp e) (PayloadMaxSize e)
                   (sequenceNumber e') (timeEncoder e).
Proof.
  induction units as [| [obus pts] rest IH]; intros e e' rs H;
    cbn [encodeAll] in H.
  - inversion H; subst. destruct e'. reflexivity.
  - destruct (Encode e obus pts) as [[e1 r] | |] eqn:E1; cbn [bind fst snd] in H;
      try discriminate H.
    destruct (encodeAll e1 rest) as [[e2 rs'] | |] eqn:E2;
      cbn [bind fst snd] in H; try discriminate H.
    inversion H; subst. clear H.
    rewrite (IH e1 e' rs' E2). rewrite (Encode_config e e1 obus pts r E1).
    reflexivity.
Qed.

(** X15.  [Init] stores what it draws in the exported fields of the
    encoder, and [Encode] changes none of them.  So a second [Init], after
    any series of calls of [Encode], draws nothing: whatever the random
    source gives, it returns the encoder the first [Init] returned, with the
    same SSRC, the sequence number back at the initial one and a clock
    created anew from the same initial timestamp. *)
Theorem Init_again (r1 r2 r3 r1' r2' r3' : Z) (e0 e' : Encoder)
  (units : list (list (list byte) * Z))
  (rs : list (list Packet + KeyFrameError)) :
  encodeAll (Init r1 r2 r3 e0) units = Done (e', rs) ->
  Init r1' r2' r3' e' = Init r1 r2 r3 e0.
Proof.
  intros H. rewrite (encodeAll_config units _ e' rs H).
  unfold Init.
  cbn [EPayloadType ESSRC InitialSequenceNumber InitialTimestamp
       PayloadMaxSize sequenceNumber timeEncoder].
  destruct (PayloadMaxSize e0 =? 0) eqn:E0.
  - reflexivity.
  - rewrite E0. reflexivity.
Qed.

End Payload.

(** *** The theorems above on concrete temporal units *)

#[local] Existing Instance Instances.obuCodec.
#[local] Existing Instance Instances.timeEncoding.

Ltac run_encodeAll e units Hr :=
  let r := fresh "r" in
  pose (r := encodeAll e units);
  assert (Hr : encodeAll e units = r) by (vm_compute; reflexivity);
  vm_compute in r; subst r.

(** A frame of 20 bytes with a maximum payload size of 10: three
    packets. *)
Lemma Encode_content_witness :
  exists (e' : Encoder) (pkts : list Packet),
    Encode (Instances.encoder 2 10) [Instances.frame 20] 0 =
    Done (e', inl pkts) /\
    length pkts = 3%nat /\
    exists (parts chunkss : list (list (list byte))),
      map (@concat byte) parts = [Instances.frame 20] /\
      Forall2 holds pkts chunkss /\
      concat chunkss = concat parts.
Proof.
  run_encode (Instances.encoder 2 10) [Instances.frame 20] 0 Hr.
  match type of Hr with
  | _ = Done (?e', inl ?pkts) =>
      exists e', pkts; split; [exact Hr |]; split; [reflexivity |];
      exact (Encode_content (Instances.encoder 2 10) e'
               [Instances.frame 20] 0 pkts Hr)
  end.
Defined.

(** Three calls, the second of which fails: the keyframe test of the
    stand-in rejects an empty list of OBUs. *)
Lemma encodeAll_numbering_witness :
  exists (e' : Encoder) (rs : list (list Packet + unit)),
    encodeAll (Instances.encoder 65534 10)
      [([Instances.frame 20], 0); ([], 1); ([Instances.sequenceHeader 5], 2)] =
    Done (e', rs) /\
    map SequenceNumber (sent rs) =
    map (fun k => (65534 + Z.of_nat k) mod 65536)
        (seq 0 (length (sent rs))) /\
    sequenceNumber e' = (65534 + len (sent rs)) mod 65536 /\
    map SequenceNumber (sent rs) = [65534; 65535; 0; 1].
Proof.
  run_encodeAll (Instances.encoder 65534 10)
    [([Instances.frame 20], 0); ([], 1); ([Instances.sequenceHeader 5], 2)] Hr.
  match type of Hr with
  | _ = Done (?e', ?rs) =>
      exists e', rs; split; [exact Hr |];
      destruct (encodeAll_numbering
                  [([Instances.frame 20], 0); ([], 1);
                   ([Instances.sequenceHeader 5], 2)]
                  (Instances.encoder 65534 10) e' rs
                  ltac:(cbn; lia) Hr) as [Hn Hs]
  end.
  split; [exact Hn |]. split; [exact Hs | reflexivity].
Defined.

Lemma encodeAll_returns_witness :
  exists (e' : Encoder) (rs : list (list Packet + unit)),
    encodeAll (Instances.encoder 65534 10)
      [([Instances.frame 20], 0); ([], 1); ([Instances.sequenceHeader 5], 2)] =
    Done (e', rs) /\
    length rs = 3%nat.
Proof.
  apply (encodeAll_returns
           (codec := Instances.obuCodec) (clock := Instances.timeEncoding)
           [([Instances.frame 20], 0); ([], 1);
            ([Instances.sequenceHeader 5], 2)]
           0 0 0
           (@mkEncoder Instances.timeEncoding 96 (Some 1) (Some 65534)
              (Some 3) 10 0 None)).
  right. cbn [PayloadMaxSize]. lia.
Defined.

(** A frame of 5 bytes with a maximum payload size of 3. *)
Lemma Encode_small_payload_size_witness :
  Encode (Instances.encoder 2 3) [Instances.frame 5] 0 = Timeout /\
  forall fuel : nat,
    placeOBU fuel (Instances.encoder 2 3) 3
             (start (Instances.encoder 2 3) 3 1) (Instances.frame 5) =
    Timeout.
Proof.
  apply (Encode_small_payload_size
           (codec := Instances.obuCodec) (clock := Instances.timeEncoding)
           (Instances.encoder 2 3) (Instances.frame 5) [] 0 false 3 1).
  - cbn. lia.
  - vm_compute. reflexivity.
  - reflexivity.
  - reflexivity.
  - reflexivity.
Defined.

(** A sequence header of 10 bytes and a frame of 20 with the default
    maximum payload size. *)
Lemma Encode_single_packet_witness :
  Encode (Instances.encoder 2 0)
    [Instances.sequenceHeader 10; Instances.frame 20] 0 =
  Done (mkEncoder 96 (Some 1) (Some 2) (Some 3) 1460 3 (Some 3),
        inl [mkPacket 2 true 96 2 3 1
               (x08 :: (x0a :: Instances.sequenceHeader 10) ++
                       (x14 :: Instances.frame 20))]).
Proof.
  apply (Encode_single_packet
           (codec := Instances.obuCodec) (clock := Instances.timeEncoding)
           (Instances.encoder 2 0)
           [Instances.sequenceHeader 10; Instances.frame 20] 0 true 3 1).
  - repeat constructor; vm_compute; discriminate.
  - vm_compute. discriminate.
  - reflexivity.
  - reflexivity.
  - reflexivity.
Defined.

(** The condition of [Encode_single_packet] on the LEB128 lengths cannot be
    dropped.  With a maximum payload size of 16390, OBUs of 16384 bytes and
    of 1 byte meet the bound on the reserved bytes, but the length of the
    first takes 3 bytes, one more than reserved, and the second OBU goes
    into a second packet. *)
Example Encode_long_prefix :
  1 + reserved [Instances.frame 16384; Instances.frame 1] <= 16390 /\
  len (Instances.leb128 16384) = 3 /\
  exists (e' : Encoder) (pkts : list Packet),
    Encode (Instances.encoder 2 16390)
      [Instances.frame 16384; Instances.frame 1] 0 =
    Done (e', inl pkts) /\
    sizes pkts = [16388; 3].
Proof.
  split; [vm_compute; discriminate |].
  split; [reflexivity |].
  eexists. eexists. split; vm_compute; reflexivity.
Qed.

(** An encoder in which nothing is set, and the random bytes [12 34 ab
    cd]. *)
Lemma Init_sequence_number_witness :
  0 <= sequenceNumber
         (Init 1 (randUint32 x12 x34 xab xcd) 3
            (@mkEncoder Instances.timeEncoding 96 None None None 0 0 None))
    < 65536 /\
  sequenceNumber
    (Init 1 (randUint32 x12 x34 xab xcd) 3
       (@mkEncoder Instances.timeEncoding 96 None None None 0 0 None)) =
  43981.
Proof.
  destruct (Init_sequence_number (clock := Instances.timeEncoding)
              1 3 x12 x34 xab xcd
              (@mkEncoder Instances.timeEncoding 96 None None None 0 0 None)
              ltac:(intros v H; discriminate H)) as [Hr Hd].
  split; [exact Hr | exact (Hd eq_refl)].
Defined.

(** A second [Init], with other draws, after three calls. *)
Lemma Init_again_witness :
  exists (e' : Encoder) (rs : list (list Packet + unit)),
    encodeAll (Instances.encoder 65534 10)
      [([Instances.frame 20], 0); ([], 1); ([Instances.sequenceHeader 5], 2)] =
    Done (e', rs) /\
    sequenceNumber e' = 2 /\
    Init 7 8 9 e' = Instances.encoder 65534 10.
Proof.
  run_encodeAll (Instances.encoder 65534 10)
    [([Instances.frame 20], 0); ([], 1); ([Instances.sequenceHeader 5], 2)] Hr.
  match type of Hr with
  | _ = Done (?e', ?rs) =>
      exists e', rs; split; [exact Hr |]; split; [reflexivity |];
      exact (Init_again 0 0 0 7 8 9
               (@mkEncoder Instances.timeEncoding 96 (Some 1) (Some 65534)
                  (Some 3) 10 0 None)
               e'
               [([Instances.frame 20], 0); ([], 1);
                ([Instances.sequenceHeader 5], 2)] rs Hr)
  end.
Defined.

(** A sequence header of 20 bytes with a maximum payload size of 10: the
    first of three packets carries the keyframe bit, the last the
    marker. *)
Lemma Encode_flag_bytes_witness :
  exists (e' : Encoder) (pkts : list Packet),
    Encode (Instances.encoder 2 10) [Instances.sequenceHeader 20] 0 =
    Done (e', inl pkts) /\
    map Marker pkts =
    map (fun k => Nat.eqb k (length pkts - 1)) (seq 0 (length pkts)) /\
    Forall2 (fun k p =>
               exists t, Payload p =
                         flagByte true (Nat.eqb k 0)
                                  (Nat.eqb k (length pkts - 1)) :: t)
            (seq 0 (length pkts)) pkts /\
    map Marker pkts = [false; false; true] /\
    map (fun p => hd x00 (Payload p)) pkts = [x48; xc0; x80].
Proof.
  run_encode (Instances.encoder 2 10) [Instances.sequenceHeader 20] 0 Hr.
  match type of Hr with
  | _ = Done (?e', inl ?pkts) =>
      exists e', pkts; split; [exact Hr |];
      destruct (Encode_flag_bytes (Instances.encoder 2 10) e'
                  [Instances.sequenceHeader 20] 0 pkts true Hr eq_refl)
        as [Hm Hf]
  end.
  split; [exact Hm |]. split; [exact Hf |]. split; reflexivity.
Defined.

End Av1PayloadFacts.

(** ** The H264 format *)

From Stdlib Require Import Sorting.Permutation.

Module H264FormatFacts.

Import H264 H264Format H264Facts.

Local Open Scope string_scope.

(** *** Aggregation packets *)

(** More fuel than one unit per byte changes nothing. *)
Lemma stapA_fuel (n : nat) :
  forall payload : list byte,
    (length payload <= n)%nat ->
    forall m : nat, (n <= m)%nat -> stapA m payload = stapA n payload.
Proof.
  induction n as [| n IH]; intros payload Hlen m Hm.
  - destruct payload; [| cbn in Hlen; lia]. rewrite !stapA_nil. reflexivity.
  - destruct m as [| m]; [lia |].
    destruct payload as [| s0 [| s1 rest]]; [reflexivity | reflexivity |].
    rewrite !stapA_step.
    destruct ((be16 s0 s1 =? 0) || (len rest <? be16 s0 s1)) eqn:E;
      [reflexivity |].
    destruct rest as [| n0 rest']; [reflexivity |].
    destruct (naluType n0 =? NALUTypeIDR); [reflexivity |].
    apply IH; [| lia].
    rewrite length_skipn. cbn [length] in *. lia.
Qed.

Lemma unit_cons (nalu : list byte) :
  unit nalu = z2b (Z.shiftr (len nalu) 8) :: z2b (len nalu) :: nalu.
Proof. reflexivity. Qed.

(** The loop over well-formed units followed by any bytes. *)
Lemma stapA_units (nalus : list (list byte)) :
  forall (fuel : nat) (tail : list byte),
    Forall (fun n => n <> [] /\ len n < 65536) nalus ->
    (length (concat (map unit nalus) ++ tail) <= fuel)%nat ->
    stapA fuel (concat (map unit nalus) ++ tail) =
    if existsb isIDR nalus then Done true
    else stapA (fuel - length nalus) tail.
Proof.
  induction nalus as [| nalu rest IH]; intros fuel tail Hwf Hfuel.
  - cbn [map concat app existsb length]. rewrite Nat.sub_0_r. reflexivity.
  - inversion Hwf as [| ? ? [Hne Hlt] Hrest]; subst.
    cbn [map concat existsb]. rewrite unit_cons, <- app_assoc.
    cbn [app]. cbn [map concat] in Hfuel.
    rewrite unit_cons, <- app_assoc in Hfuel. cbn [app length] in Hfuel.
    destruct fuel as [| fuel]; [lia |].
    rewrite stapA_step.
    pose proof (len_nonneg _ nalu) as H0.
    rewrite (Mpeg2AudioStreamFacts.be16_header (len nalu)) by lia.
    destruct nalu as [| n0 nalu']; [contradiction |].
    assert (Hpos : 0 < len (n0 :: nalu'))
      by (rewrite len_cons; pose proof (len_nonneg _ nalu'); lia).
    destruct (len (n0 :: nalu') =? 0) eqn:E0;
      [apply Z.eqb_eq in E0; lia |].
    destruct (len ((n0 :: nalu') ++ concat (map unit rest) ++ tail)
              <? len (n0 :: nalu')) eqn:E1.
    { apply Z.ltb_lt in E1. rewrite len_app in E1.
      pose proof (len_nonneg _ (concat (map unit rest) ++ tail)). lia. }
    cbn [orb app isIDR].
    destruct (naluType n0 =? NALUTypeIDR); [reflexivity |].
    cbn [orb].
    change (n0 :: nalu' ++ concat (map unit rest) ++ tail)
      with ((n0 :: nalu') ++ concat (map unit rest) ++ tail).
    rewrite (Mpeg2AudioStreamFacts.skipn_exact _ (n0 :: nalu') _ _ 0)
      by (unfold len; lia).
    cbn [skipn]. rewrite IH; [| exact Hrest |].
    + cbn [length Nat.sub]. reflexivity.
    + rewrite length_app in Hfuel. lia.
Qed.

Lemma units_length (nalus : list (list byte)) :
  (length nalus <= length (concat (map unit nalus)))%nat.
Proof.
  induction nalus as [| nalu rest IH]; cbn [map concat length]; [lia |].
  rewrite unit_cons, length_app. cbn [length]. lia.
Qed.

(** The classifier on an aggregation packet of well-formed units followed
    by any bytes. *)
Lemma containsIDR_units (first : byte) (nalus : list (list byte))
  (tail : list byte) :
  naluType first = 24 ->
  Forall (fun n => n <> [] /\ len n < 65536) nalus ->
  rtpH264ContainsIDR (aggregation first nalus ++ tail) =
  if existsb isIDR nalus then Done true
  else rtpH264ContainsIDR (first :: tail).
Proof.
  intros H24 Hwf.
  assert (Hhead : forall rest : list byte,
             rtpH264ContainsIDR (first :: rest) =
             stapA (length rest) rest).
  { intros rest. unfold rtpH264ContainsIDR.
    assert (Hl : (len (first :: rest) =? 0) = false).
    { apply Z.eqb_neq. rewrite len_cons.
      pose proof (len_nonneg _ rest). lia. }
    rewrite Hl, index_0. cbn [bind]. rewrite H24.
    change (24 =? NALUTypeIDR) with false. change (24 =? 24) with true.
    cbv iota.
    rewrite sliceFrom_ok
      by (rewrite len_cons; pose proof (len_nonneg _ rest); lia).
    reflexivity. }
  unfold aggregation. cbn [app]. rewrite !Hhead.
  rewrite stapA_units by (exact Hwf || lia).
  destruct (existsb isIDR nalus); [reflexivity |].
  pose proof (units_length nalus) as Hu.
  apply stapA_fuel; rewrite ?length_app; lia.
Qed.

(** X16.  On an aggregation packet (type 24) that is well formed, each unit
    being a 2-byte big-endian size followed by a NAL unit of that size, not
    empty and shorter than 65536 bytes, [PTSEqualsDTS] answers whether one
    of the aggregated NAL units is an IDR: it returns [true] exactly when
    the type of some unit is 5. *)
Theorem PTSEqualsDTS_aggregation (f : H264) (pkt : Packet) (first : byte)
  (nalus : list (list byte)) :
  naluType first = 24 ->
  Forall (fun n => n <> [] /\ len n < 65536) nalus ->
  Payload pkt = aggregation first nalus ->
  PTSEqualsDTS f pkt = Done (existsb isIDR nalus).
Proof.
  intros H24 Hwf Hp. unfold PTSEqualsDTS. rewrite Hp.
  rewrite <- (app_nil_r (aggregation first nalus)).
  rewrite (containsIDR_units first nalus [] H24 Hwf).
  destruct (existsb isIDR nalus); [reflexivity |].
  unfold rtpH264ContainsIDR.
  change (len [first] =? 0) with false. cbv iota.
  rewrite index_0. cbn [bind]. rewrite H24. reflexivity.
Qed.

(** X17.  The walk over an aggregation packet stops at the first IDR and
    forgets what it passed.  When well-formed units are followed by any
    bytes at all: if one of the units is an IDR the answer is [true],
    whatever follows, malformed or not; if none is, the answer is the one
    for the packet without these units. *)
Theorem PTSEqualsDTS_aggregation_prefix (f : H264) (pkt : Packet)
  (first : byte) (nalus : list (list byte)) (tail : list byte) :
  naluType first = 24 ->
  Forall (fun n => n <> [] /\ len n < 65536) nalus ->
  Payload pkt = aggregation first nalus ++ tail ->
  PTSEqualsDTS f pkt =
  if existsb isIDR nalus then Done true
  else rtpH264ContainsIDR (first :: tail).
Proof.
  intros H24 Hwf Hp. unfold PTSEqualsDTS. rewrite Hp.
  exact (containsIDR_units first nalus tail H24 Hwf).
Qed.

(** *** [unmarshal] and [FMTP] *)

Section Format.

Context {lib : GoLibrary}.

(** Whether an entry makes [unmarshal] fail does not depend on the
    format. *)
Lemma unmarshalEntry_error (f g : H264) (key val : String.string) :
  snd (unmarshalEntry f key val) = snd (unmarshalEntry g key val).
Proof.
  unfold unmarshalEntry.
  destruct (String.eqb key "sprop-parameter-sets").
  - destruct (Split val ",") as [| t0 [| t1 rest]]; try reflexivity.
    destruct (DecodeString t0); [| reflexivity].
    destruct (DecodeString t1); reflexivity.
  - destruct (String.eqb key "packetization-mode"); [| reflexivity].
    destruct (ParseUint val 10 31); reflexivity.
Qed.

(** Entries with different keys can be visited in either order. *)
Lemma unmarshalEntry_commute (f : H264) (k1 v1 k2 v2 : String.string) :
  k1 <> k2 ->
  fst (unmarshalEntry (fst (unmarshalEntry f k1 v1)) k2 v2) =
  fst (unmarshalEntry (fst (unmarshalEntry f k2 v2)) k1 v1).
Proof.
  intros Hne. unfold unmarshalEntry.
  destruct (String.eqb k1 "sprop-parameter-sets") eqn:E1,
           (String.eqb k2 "sprop-parameter-sets") eqn:E2.
  - apply String.eqb_eq in E1, E2. congruence.
  - destruct (Split v1 ",") as [| t0 [| t1 rest]];
      destruct (String.eqb k2 "packetization-mode");
      try destruct (ParseUint v2 10 31);
      try destruct (DecodeString t0);
      try destruct (DecodeString t1); reflexivity.
  - destruct (Split v2 ",") as [| t0 [| t1 rest]];
      destruct (String.eqb k1 "packetization-mode");
      try destruct (ParseUint v1 10 31);
      try destruct (DecodeString t0);
      try destruct (DecodeString t1); reflexivity.
  - destruct (String.eqb k1 "packetization-mode") eqn:P1,
             (String.eqb k2 "packetization-mode") eqn:P2.
    + apply String.eqb_eq in P1, P2. congruence.
    + destruct (ParseUint v1 10 31); reflexivity.
    + destruct (ParseUint v2 10 31); reflexivity.
    + reflexivity.
Qed.

Lemma agree_refl (r : H264 * option error) : agree r r.
Proof. unfold agree. destruct (snd r); [exact I | reflexivity]. Qed.

Lemma agree_trans (r1 r2 r3 : H264 * option error) :
  agree r1 r2 -> agree r2 r3 -> agree r1 r3.
Proof.
  unfold agree.
  destruct (snd r1), (snd r2), (snd r3); try tauto. congruence.
Qed.

Lemma unmarshalLoop_cons (f : H264) (key val : String.string)
  (rest : entries) :
  unmarshalLoop f ((key, val) :: rest) =
  match snd (unmarshalEntry f key val) with
  | None => unmarshalLoop (fst (unmarshalEntry f key val)) rest
  | Some err => (fst (unmarshalEntry f key val), Some err)
  end.
Proof.
  cbn [unmarshalLoop].
  destruct (unmarshalEntry f key val) as [f1 [err |]]; reflexivity.
Qed.

(** The loop of [unmarshal] on two orders of the same entries. *)
Lemma unmarshalLoop_order (l l' : entries) :
  Permutation l l' ->
  NoDup (map fst l) ->
  forall f : H264, agree (unmarshalLoop f l) (unmarshalLoop f l').
Proof.
  induction 1 as [| [k v] l l' Hperm IH | [k1 v1] [k2 v2] l
                  | l l' l'' H1 IH1 H2 IH2]; intros Hnd f.
  - apply agree_refl.
  - cbn [map fst] in Hnd. inversion Hnd; subst.
    rewrite !unmarshalLoop_cons.
    destruct (snd (unmarshalEntry f k v)); [exact I |].
    apply IH. assumption.
  - cbn [map fst] in Hnd.
    assert (Hne : k2 <> k1).
    { inversion Hnd as [| ? ? Hin _]; subst.
      intros ->. apply Hin. left. reflexivity. }
    rewrite !unmarshalLoop_cons.
    rewrite (unmarshalEntry_error (fst (unmarshalEntry f k1 v1)) f k2 v2).
    rewrite (unmarshalEntry_error (fst (unmarshalEntry f k2 v2)) f k1 v1).
    destruct (snd (unmarshalEntry f k1 v1)) as [e1 |],
             (snd (unmarshalEntry f k2 v2)) as [e2 |]; try exact I.
    rewrite (unmarshalEntry_commute f k1 v1 k2 v2)
      by (intros Heq; apply Hne; symmetry; exact Heq).
    apply agree_refl.
  - apply agree_trans with (unmarshalLoop f l'); [apply IH1; exact Hnd |].
    apply IH2.
    apply (Permutation_NoDup (Permutation_map fst H1) Hnd).
Qed.

(** X19.  The Go runtime does not fix the order in which [unmarshal] visits
    the entries of the map.  The outcome does not depend on it: two orders
    of the entries of a map, whose keys are distinct, both fail or both
    succeed, and when they succeed they leave the same format. *)
Theorem unmarshal_order (f : H264) (payloadType : Z)
  (clock codec rtpmap : String.string) (fmtp fmtp' : entries) :
  NoDup (map fst fmtp) ->
  Permutation fmtp fmtp' ->
  agree (unmarshal f payloadType clock codec rtpmap fmtp)
        (unmarshal f payloadType clock codec rtpmap fmtp').
Proof.
  intros Hnd Hperm. unfold unmarshal.
  apply unmarshalLoop_order; assumption.
Qed.

(** The keys of the map [FMTP] returns are distinct. *)
Lemma FMTP_keys (f : H264) : NoDup (map fst (FMTP f)).
Proof.
  unfold FMTP, put.
  destruct (negb (PacketizationMode f =? 0)), (SPS f) as [sps |],
           (PPS f) as [pps |];
    cbn [app len length];
    try destruct (4 <=? _);
    cbn [app map fst];
    repeat (constructor; [cbn [In]; intuition discriminate |]);
    constructor.
Qed.

(** The outcome in the order of [FMTP] is the outcome in every order. *)
Lemma unmarshal_FMTP_order (f g : H264) (payloadType : Z)
  (clock codec rtpmap : String.string) (fmtp : entries) :
  Permutation fmtp (FMTP f) ->
  unmarshal zero payloadType clock codec rtpmap (FMTP f) = (g, None) ->
  unmarshal zero payloadType clock codec rtpmap fmtp = (g, None).
Proof.
  intros Hperm H.
  pose proof (unmarshalLoop_order (FMTP f) fmtp (Permutation_sym Hperm)
                (FMTP_keys f)
                (mkH264 payloadType (SPS zero) (PPS zero)
                        (PacketizationMode zero))) as Ha.
  unfold unmarshal in *. unfold agree in Ha. rewrite H in Ha.
  cbn [fst snd] in Ha.
  destruct (unmarshalLoop _ fmtp) as [g' [err |]]; cbn [fst snd] in Ha;
    [contradiction |].
  subst g'. reflexivity.
Qed.

(** X18.  What [FMTP] advertises, [unmarshal] reads back.  For a format
    with both parameter sets, whenever the library functions invert each
    other on the values at hand (base64 on the two sets, [Split] on their
    [Join], [ParseUint] on the [FormatInt] of a non-zero mode),
    [unmarshal] of the map [FMTP] returns, visited in any order, into a
    fresh format, succeeds and gives the format back; the profile entry is
    ignored. *)
Theorem FMTP_unmarshal (f : H264) (sps pps : list byte)
  (clock codec rtpmap : String.string) (fmtp : entries) :
  SPS f = Some sps ->
  PPS f = Some pps ->
  DecodeString (EncodeToString sps) = Some sps ->
  DecodeString (EncodeToString pps) = Some pps ->
  Split (Join [EncodeToString sps; EncodeToString pps] ",") "," =
  [EncodeToString sps; EncodeToString pps] ->
  (PacketizationMode f <> 0 ->
   ParseUint (FormatInt (PacketizationMode f) 10) 10 31 =
   Some (PacketizationMode f)) ->
  Permutation fmtp (FMTP f) ->
  unmarshal zero (PayloadTyp f) clock codec rtpmap fmtp = (f, None).
Proof.
  intros Hs Hp Hds Hdp Hsplit Hmode Hperm.
  apply (unmarshal_FMTP_order f f _ clock codec rtpmap fmtp Hperm).
  unfold unmarshal, FMTP, put. rewrite Hs, Hp. cbn [app].
  destruct f as [pt s0 p0 mode]. cbn [SPS PPS PacketizationMode PayloadTyp] in *.
  subst s0 p0.
  destruct (mode =? 0) eqn:E0; cbn [negb app].
  - apply Z.eqb_eq in E0. subst mode.
    destruct (4 <=? len sps);
      cbn [unmarshalLoop app unmarshalEntry String.eqb Ascii.eqb Bool.eqb];
      rewrite Hsplit, Hds, Hdp; reflexivity.
  - apply Z.eqb_neq in E0. specialize (Hmode E0).
    destruct (4 <=? len sps);
      cbn [unmarshalLoop app unmarshalEntry String.eqb Ascii.eqb Bool.eqb];
      rewrite Hmode; cbn [PayloadTyp SPS PPS PacketizationMode];
      rewrite Hsplit, Hds, Hdp; reflexivity.
Qed.

(** X20.  [FMTP] advertises a parameter set that is alone, but [unmarshal]
    only reads the entry when it has two parts.  For a format in which a
    parameter set is missing, whenever the advertised value has no second
    part and the mode is read back, [unmarshal] of the map [FMTP] returns,
    into a fresh format, succeeds with neither SPS nor PPS: the set that
    was advertised is silently dropped. *)
Theorem FMTP_unmarshal_single (f : H264)
  (clock codec rtpmap : String.string) (fmtp : entries) :
  SPS f = None \/ PPS f = None ->
  (forall val : String.string,
      In ("sprop-parameter-sets"%string, val) (FMTP f) ->
      len (Split val ",") < 2) ->
  (PacketizationMode f <> 0 ->
   ParseUint (FormatInt (PacketizationMode f) 10) 10 31 =
   Some (PacketizationMode f)) ->
  Permutation fmtp (FMTP f) ->
  unmarshal zero (PayloadTyp f) clock codec rtpmap fmtp =
  (mkH264 (PayloadTyp f) None None (PacketizationMode f), None).
Proof.
  intros Hnone Hsplit Hmode Hperm.
  apply (unmarshal_FMTP_order f _ _ clock codec rtpmap fmtp Hperm).
  assert (Hentry : forall (g : H264) (val : String.string),
             In ("sprop-parameter-sets"%string, val) (FMTP f) ->
             unmarshalEntry g "sprop-parameter-sets" val = (g, None)).
  { intros g val Hin. specialize (Hsplit val Hin).
    unfold unmarshalEntry. cbn [String.eqb Ascii.eqb Bool.eqb].
    destruct (Split val ",") as [| t0 [| t1 rest]]; try reflexivity.
    rewrite !len_cons in Hsplit. pose proof (len_nonneg _ rest). lia. }
  revert Hentry. clear Hsplit Hperm.
  unfold unmarshal, FMTP, put.
  destruct f as [pt s0 p0 mode]. cbn [SPS PPS PacketizationMode PayloadTyp] in *.
  intros Hentry.
  assert (Hm : forall g : H264,
             mode <> 0 ->
             unmarshalEntry g "packetization-mode" (FormatInt mode 10) =
             (mkH264 (PayloadTyp g) (SPS g) (PPS g) mode, None)).
  { intros g Hne. unfold unmarshalEntry. cbn [String.eqb Ascii.eqb Bool.eqb].
    rewrite (Hmode Hne). reflexivity. }
  assert (Hprofile : forall (g : H264) (val : String.string),
             unmarshalEntry g "profile-level-id" val = (g, None))
    by reflexivity.
  destruct (mode =? 0) eqn:E0; cbn [negb app];
    [apply Z.eqb_eq in E0; subst mode | apply Z.eqb_neq in E0];
    destruct s0 as [sps |], p0 as [pps |];
    try (destruct Hnone; discriminate);
    cbn [app len length] in *;
    try destruct (4 <=? _);
    cbn [app unmarshalLoop] in *;
    rewrite ?(Hm _ E0), ?Hentry, ?Hprofile;
    try reflexivity;
    cbn [negb app In]; auto 10.
Qed.

End Format.

(** *** The theorems above on concrete packets and maps *)

#[local] Existing Instance FormatInstances.goLibrary.

(** An aggregation packet with an SPS ([0x67]) and an IDR slice
    ([0x65]). *)
Lemma PTSEqualsDTS_aggregation_witness :
  PTSEqualsDTS FormatInstances.h264
    (FormatInstances.videoPacket
       (aggregation x18 [[x67; x42]; [x65; x88; x84]])) =
  Done true.
Proof.
  apply (PTSEqualsDTS_aggregation FormatInstances.h264
           (FormatInstances.videoPacket
              (aggregation x18 [[x67; x42]; [x65; x88; x84]]))
           x18 [[x67; x42]; [x65; x88; x84]]).
  - reflexivity.
  - repeat constructor; discriminate.
  - reflexivity.
Defined.

(** The same units followed by one stray byte. *)
Lemma PTSEqualsDTS_aggregation_prefix_witness :
  PTSEqualsDTS FormatInstances.h264
    (FormatInstances.videoPacket
       (aggregation x18 [[x67; x42]; [x65; x88; x84]] ++ [x00])) =
  Done true.
Proof.
  apply (PTSEqualsDTS_aggregation_prefix FormatInstances.h264
           (FormatInstances.videoPacket
              (aggregation x18 [[x67; x42]; [x65; x88; x84]] ++ [x00]))
           x18 [[x67; x42]; [x65; x88; x84]] [x00]).
  - reflexivity.
  - repeat constructor; discriminate.
  - reflexivity.
Defined.

(** The map of a format with both parameter sets, visited from its last
    entry to its first. *)
Lemma FMTP_unmarshal_witness :
  unmarshal zero 96 "90000" "H264" "H264/90000"
    [("profile-level-id", "42C028");
     ("sprop-parameter-sets", "6742c028d9,68ce3c80");
     ("packetization-mode", "1")] =
  (FormatInstances.h264, None).
Proof.
  apply (FMTP_unmarshal (lib := FormatInstances.goLibrary)
           FormatInstances.h264
           [x67; x42; xc0; x28; xd9] [x68; xce; x3c; x80]
           "90000" "H264" "H264/90000").
  - reflexivity.
  - reflexivity.
  - reflexivity.
  - reflexivity.
  - reflexivity.
  - intros _. reflexivity.
  - exact (Permutation_sym (Permutation_rev (FMTP FormatInstances.h264))).
Defined.

(** Two entries that are both rejected: the error returned depends on the
    order, the failure does not. *)
Lemma unmarshal_order_witness :
  agree
    (unmarshal zero 96 "90000" "H264" "H264/90000"
       [("packetization-mode", "x"); ("sprop-parameter-sets", "zz,zz")])
    (unmarshal zero 96 "90000" "H264" "H264/90000"
       [("sprop-parameter-sets", "zz,zz"); ("packetization-mode", "x")]) /\
  snd (unmarshal zero 96 "90000" "H264" "H264/90000"
         [("packetization-mode", "x"); ("sprop-parameter-sets", "zz,zz")]) =
  Some (ErrInvalidPacketizationMode "x") /\
  snd (unmarshal zero 96 "90000" "H264" "H264/90000"
         [("sprop-parameter-sets", "zz,zz"); ("packetization-mode", "x")]) =
  Some (ErrInvalidSprop "zz,zz").
Proof.
  split; [| split; reflexivity].
  apply (unmarshal_order (lib := FormatInstances.goLibrary)
           zero 96 "90000" "H264" "H264/90000").
  - repeat (constructor; [cbn [In map fst]; intuition discriminate |]).
    constructor.
  - apply perm_swap.
Defined.

(** The map of a format that has an SPS and no PPS. *)
Lemma FMTP_unmarshal_single_witness :
  FMTP FormatInstances.spsOnly =
  [("packetization-mode", "1"); ("sprop-parameter-sets", "6742c028d9");
   ("profile-level-id", "42C028")] /\
  unmarshal zero 96 "90000" "H264" "H264/90000"
    (FMTP FormatInstances.spsOnly) =
  (mkH264 96 None None 1, None).
Proof.
  split; [reflexivity |].
  apply (FMTP_unmarshal_single (lib := FormatInstances.goLibrary)
           FormatInstances.spsOnly "90000" "H264" "H264/90000").
  - right. reflexivity.
  - intros val Hin.
    change (FMTP FormatInstances.spsOnly)
      with [("packetization-mode", "1");
            ("sprop-parameter-sets", "6742c028d9");
            ("profile-level-id", "42C028")] in Hin.
    destruct Hin as [H | [H | [H | []]]]; try discriminate H.
    injection H as <-. reflexivity.
  - intros _. reflexivity.
  - apply Permutation_refl.
Defined.

End H264FormatFacts.
